(** * pytnt: the TNTfile class of processTNT.py

    A shallow embedding of [src/pytnt/processTNT.py] (the current reader)
    and of [src/processTNT.py] (the earlier reader), followed by the
    properties established about them.

    Conventions of the embedding:
    - Python integers are [Z]; indices that the code only ever uses as
      natural positions are [nat].
    - A Python call that may raise returns a [result]; the exception
      classes are those the source raises.
    - Finite floating-point values that are only compared or stored are
      exact rationals [Q]; the numerical pipeline of [LBfft] is written
      over the real numbers [R] (complex values as pairs), the arithmetic
      the floating-point code approximates. *)

From Stdlib Require Import ZArith QArith Reals Psatz List String Ascii Bool.
From Stdlib.Strings Require Import Byte.
From stdpp Require Import gmap strings.
Import ListNotations.

Set Default Proof Using "Type".

(* ===================================================================== *)
(** * Python primitives *)
(* ===================================================================== *)

Module Py.

(** The exception classes that occur in the two source files. *)
Inductive exn : Type :=
| ValueError
| AssertionError
| KeyError
| IndexError
| UnicodeDecodeError.

(** Outcome of a call.  [OutOfFuel] is not a Python outcome: it is what
    a fuel-bounded loop of the embedding answers when its fuel is
    spent, and is shown unreachable for the loops of this file. *)
Inductive result (A : Type) : Type :=
| Ok (a : A)
| Raise (e : exn)
| OutOfFuel.
Arguments Ok {A} a.
Arguments Raise {A} e.
Arguments OutOfFuel {A}.

Definition bind {A B} (r : result A) (k : A -> result B) : result B :=
  match r with
  | Ok a => k a
  | Raise e => Raise e
  | OutOfFuel => OutOfFuel
  end.

Definition rmap {A B} (f : A -> B) (r : result A) : result B :=
  bind r (fun a => Ok (f a)).

(** [a[i]] on a sequence, for a non-negative position. *)
Definition index {A} (a : list A) (i : nat) : result A :=
  match nth_error a i with
  | Some x => Ok x
  | None => Raise IndexError
  end.

(** [a[start:]] with Python's treatment of a negative start. *)
Definition slice_from {A} (start : Z) (a : list A) : list A :=
  let n := Z.of_nat (List.length a) in
  let s := if (start <? 0)%Z then Z.max 0 (n + start) else start in
  skipn (Z.to_nat s) a.

(** [int(x / y)] for integers [x], [y]: true division followed by
    truncation toward zero (exact while the operands fit a double). *)
Definition int_truediv (x y : Z) : Z := Z.quot x y.

End Py.
Import Py.

Notation "'let*' x ':=' c1 'in' c2" := (Py.bind c1 (fun x => c2))
  (at level 10, x name, c1 at level 100, c2 at level 200).

(* ===================================================================== *)
(** * Complex values over the reals *)
(* ===================================================================== *)

Module Cx.
Local Open Scope R_scope.

Definition C : Type := (R * R)%type.

Definition C0 : C := (0, 0).
Definition C1 : C := (1, 0).
Definition Cadd (z w : C) : C := (z.1 + w.1, z.2 + w.2).
Definition Csub (z w : C) : C := (z.1 - w.1, z.2 - w.2).
Definition Cmul (z w : C) : C :=
  (z.1 * w.1 - z.2 * w.2, z.1 * w.2 + z.2 * w.1).
(** A complex value times, or divided by, a real one. *)
Definition Cscale (z : C) (r : R) : C := (z.1 * r, z.2 * r).
Definition Cdivr (z : C) (r : R) : C := (z.1 / r, z.2 / r).
(** [np.exp(1j * t)] for a real [t]. *)
Definition Cexpi (t : R) : C := (cos t, sin t).
(** [np.abs]. *)
Definition Cabs (z : C) : R := sqrt (z.1 * z.1 + z.2 * z.2).
(** [np.sum] of a flat sequence. *)
Definition Csum (l : list C) : C := fold_right Cadd C0 l.

(** [np.arctan2(y, x)] and [np.angle]. *)
Definition arctan2 (y x : R) : R :=
  if Rlt_dec 0 x then atan (y / x)
  else if Rlt_dec x 0 then
    (if Rle_dec 0 y then atan (y / x) + PI else atan (y / x) - PI)
  else if Rlt_dec 0 y then PI / 2
  else if Rlt_dec y 0 then - (PI / 2)
  else 0.
Definition Cangle (z : C) : R := arctan2 z.2 z.1.

End Cx.

(* ===================================================================== *)
(** * numpy primitives on one-dimensional arrays *)
(* ===================================================================== *)

Module Np.

(** Strict comparison of two finite floats, as a boolean. *)
Definition Qltb (x y : Q) : bool := negb (Qle_bool y x).

Inductive side : Type := side_left | side_right.

(** The comparison that sends the binary search to the right half:
    [a[mid] < v] for side='left', [not (v < a[mid])] for side='right'. *)
Definition goes_right (sd : side) (v x : Q) : bool :=
  match sd with
  | side_left => Qltb x v
  | side_right => negb (Qltb v x)
  end.

(** numpy's binary search between [lo] and [hi]. *)
Fixpoint bisect (fuel : nat) (sd : side) (a : list Q) (v : Q)
         (lo hi : nat) : nat :=
  match fuel with
  | O => lo
  | S fuel' =>
      if (lo <? hi)%nat then
        let mid := (lo + (hi - lo) / 2)%nat in
        if goes_right sd v (nth mid a 0%Q)
        then bisect fuel' sd a v (S mid) hi
        else bisect fuel' sd a v lo mid
      else lo
  end.

(** [np.searchsorted(a, v, side)]. *)
Definition searchsorted (a : list Q) (v : Q) (sd : side) : nat :=
  bisect (List.length a) sd a v 0 (List.length a).

(** [np.mean] of a sequence of complex values. *)
Definition mean (l : list Cx.C) : Cx.C :=
  Cx.Cdivr (Cx.Csum l) (INR (List.length l)).

(** [np.linspace(start, stop, num)]: [start + i * step] with
    [step = (stop - start) / (num - 1)]; a single point is [start]. *)
Definition linspace (start stop : R) (num : nat) : list R :=
  let div := (num - 1)%nat in
  let step := if (0 <? div)%nat then ((stop - start) / INR div)%R
              else (stop - start)%R in
  map (fun i => (INR i * step + start)%R) (seq 0 num).

(** The discrete Fourier transform of length [n] that [np.fft.fft(a, n)]
    computes for one vector: the input is cropped or zero-padded to [n]
    points and [A[k] = sum_m a[m] * exp(-2j*pi*m*k/n)]. *)
Definition dft (n : nat) (a : list Cx.C) : list Cx.C :=
  let x := firstn n (a ++ repeat Cx.C0 (n - List.length a)) in
  map (fun k =>
         Cx.Csum (zip_with Cx.Cmul x
           (map (fun m => Cx.Cexpi (- (2 * PI * INR m * INR k / INR n))%R)
                (seq 0 n))))
      (seq 0 n).

(** [fftshift] of one vector: a circular shift by [n // 2]. *)
Definition fftshift {A} (x : list A) : list A :=
  let n := List.length x in
  let shift := (n / 2)%nat in
  skipn (n - shift) x ++ firstn (n - shift) x.

End Np.

(** A four-dimensional complex array in the layout of the DATA section,
    seen along its first axis: [columns] lists the vectors
    [DATA[:, j, k, l]], one per index of the three trailing axes, and
    [shape0] is [DATA.shape[0]], the length of each of them. *)
Record array4 : Type := mkArray4 {
  shape0 : nat;
  columns : list (list Cx.C)
}.

(** [np.fft.fft(a, n=n, axis=0)], which refuses [n < 1]. *)
Definition fft_axis0 (a : list (list Cx.C)) (n : nat) : result (list (list Cx.C)) :=
  if (n <? 1)%nat then Raise ValueError else Ok (map (Np.dft n) a).

(** [np.abs] of an array: the first-axis length and the moduli. *)
Definition abs_array (a : array4) : nat * list (list R) :=
  (shape0 a, map (map Cx.Cabs) (columns a)).

(* ===================================================================== *)
(** * The metadata record *)
(* ===================================================================== *)

(** The fields of the TMAG structure that the methods below read.  The
    layout itself belongs to [TNTdtypes], which decodes the section bytes
    into this record. *)
Record TMAG_t : Type := mkTMAG {
  actual_npts : list Z;
  scans : Z;
  actual_scans : Z;
  dwell : list R
}.

(* ===================================================================== *)
(** * Text and byte strings *)
(* ===================================================================== *)

Module Text.

(** The text encodings the two readers use: ['ascii'], the default of
[TNTfile], and ['latin1'], which the earlier reader's [s] applies.  A
call of [TNTfile] with another codec name is not covered: what is stated
for every [encoding] is stated for these two. *)
Inductive encoding : Type := enc_ascii | enc_latin1.

(** [str(bdata, encoding=...)]. *)
Definition decode (enc : encoding) (bdata : list byte) : result string :=
  match enc with
  | enc_ascii =>
      if forallb (fun b => (Byte.to_nat b <? 128)%nat) bdata
      then Ok (string_of_list_byte bdata)
      else Raise UnicodeDecodeError
  | enc_latin1 => Ok (string_of_list_byte bdata)
  end.

(** The characters [str.split()] treats as white space, among the first
256 code points. *)
Definition is_space (c : ascii) : bool :=
  let n := nat_of_ascii c in
  ((9 <=? n) && (n <=? 13) || (28 <=? n) && (n <=? 32)
   || (n =? 133) || (n =? 160))%nat.

Definition flush (cur : list ascii) (rest : list string) : list string :=
  match cur with
  | [] => rest
  | _ => string_of_list_ascii (rev cur) :: rest
  end.

(** [s.split()]: the maximal runs of characters that are not white
space; [cur] holds the run being read, last character first. *)
Fixpoint split_from (s : string) (cur : list ascii) : list string :=
  match s with
  | EmptyString => flush cur []
  | String c s' =>
      if is_space c then flush cur (split_from s' [])
      else split_from s' (c :: cur)
  end.

Definition split (s : string) : list string := split_from s [].

(** An unsigned little-endian integer. *)
Definition le_nat (bs : list byte) : nat :=
  fold_right (fun b acc => (Byte.to_nat b + 256 * acc)%nat) 0%nat bs.

End Text.

(* ===================================================================== *)
(** * utils.py *)
(* ===================================================================== *)

Module utils.

(** Modelled from the spec: [utils.read_pascal_string], whose file
utils.py is not among the sources.  The prefix is taken as four bytes,
little-endian, the width [__init__] steps back by; a buffer too short for
the prefix fails like a declared length that exceeds the remaining
buffer. *)
Definition read_pascal_string (enc : Text.encoding) (data : list byte) : result string :=
  if (List.length data <? 4)%nat then Raise IndexError
  else
    let n := Text.le_nat (firstn 4 data) in
    let rest := skipn 4 data in
    if (List.length rest <? n)%nat then Raise IndexError
    else Text.decode enc (firstn n rest).

(** Modelled from the spec: the helpers below read the numeric mantissa
of a token; they belong to the model of utils.py. *)
Definition is_digit (c : ascii) : bool :=
  let n := nat_of_ascii c in ((48 <=? n) && (n <=? 57))%nat.

(** Modelled from the spec: value of a run of decimal digits. *)
Definition digits_value (cs : list ascii) : Z :=
  fold_left (fun acc c => (10 * acc + Z.of_nat (nat_of_ascii c - 48))%Z) cs 0%Z.

(** Modelled from the spec: the digits at the head of a token, and what
follows them. *)
Fixpoint take_digits (cs : list ascii) : list ascii * list ascii :=
  match cs with
  | [] => ([], [])
  | c :: cs' =>
      if is_digit c then let '(ds, rest) := take_digits cs' in (c :: ds, rest)
      else ([], cs)
  end.

(** Modelled from the spec: a number in plain decimal notation, without
sign. *)
Definition parse_unsigned (cs : list ascii) : option Q :=
  let '(ip, rest) := take_digits cs in
  match rest with
  | [] =>
      match ip with
      | [] => None
      | _ => Some (inject_Z (digits_value ip))
      end
  | c :: fp =>
      if (nat_of_ascii c =? 46)%nat && forallb is_digit fp
         && negb ((List.length ip =? 0)%nat && (List.length fp =? 0)%nat)
      then Some (Qred (Qmake (digits_value (ip ++ fp))
                             (Z.to_pos (10 ^ Z.of_nat (List.length fp)))))
      else None
  end.

(** Modelled from the spec: the numeric mantissa of a delay token, in
plain decimal notation with an optional sign; its value is kept as an
exact rational. *)
Definition parse_decimal (s : string) : option Q :=
  match list_ascii_of_string s with
  | [] => None
  | c :: cs =>
      if (nat_of_ascii c =? 45)%nat then option_map Qopp (parse_unsigned cs)
      else if (nat_of_ascii c =? 43)%nat then parse_unsigned cs
      else parse_unsigned (c :: cs)
  end.

(** Modelled from the spec: the SI magnitude suffixes p, n, u, m, k, M
and G, as powers of 1000. *)
Definition si_factor (c : ascii) : option Q :=
  match nat_of_ascii c with
  | 112%nat => Some (1 # 1000000000000)%Q
  | 110%nat => Some (1 # 1000000000)%Q
  | 117%nat => Some (1 # 1000000)%Q
  | 109%nat => Some (1 # 1000)%Q
  | 107%nat => Some (1000 # 1)%Q
  | 77%nat => Some (1000000 # 1)%Q
  | 71%nat => Some (1000000000 # 1)%Q
  | _ => None
  end.

(** Modelled from the spec: the token without its last character, and
that character, the candidate suffix. *)
Definition split_last (s : string) : option (string * ascii) :=
  match rev (list_ascii_of_string s) with
  | [] => None
  | c :: r => Some (string_of_list_ascii (rev r), c)
  end.

(** Modelled from the spec: the conversion of one SI-suffixed token. *)
Definition convert_si_token (tok : string) : result Q :=
  match parse_decimal tok with
  | Some q => Ok q
  | None =>
      match split_last tok with
      | Some (mant, c) =>
          match si_factor c, parse_decimal mant with
          | Some f, Some q => Ok (Qred (q * f))
          | _, _ => Raise ValueError
          end
      | None => Raise ValueError
      end
  end.

(** Modelled from the spec: [utils.convert_si], whose file utils.py is not
among the sources: every token is converted, and the first token that
has no numeric mantissa or no known suffix raises [ValueError]. *)
Fixpoint convert_si (toks : list string) : result (list Q) :=
  match toks with
  | [] => Ok []
  | tok :: toks' =>
      let* q := convert_si_token tok in
      let* qs := convert_si toks' in
      Ok (q :: qs)
  end.

End utils.

(** What [__init__] imports from utils.py: the two functions it calls. *)
Record utils_py : Type := mkUtils {
  read_pascal_string : Text.encoding -> list byte -> result string;
  convert_si : list string -> result (list Q)
}.

(** The two functions as modelled above. *)
Definition utils_model : utils_py :=
  mkUtils utils.read_pascal_string utils.convert_si.

(* ===================================================================== *)
(** * TNTdtypes *)
(* ===================================================================== *)

(** A decoded section header. *)
Record TLV_t : Type := mkTLV {
  tlv_tag : list byte;
  tlv_bool : Z;
  tlv_length : nat
}.

(** What the readers use of the module [TNTdtypes], which is not among
the sources: the sizes of its structures, the decoding of a buffer of
that size ([np.frombuffer(...)[0]]), and whether [Magic_re] matches a
decoded magic value.  The section length is an unsigned integer. *)
Record TNTdtypes : Type := mkTNTdtypes {
  Magic_itemsize : nat;
  Magic_re_match : list byte -> bool;
  TLV_itemsize : nat;
  TLV_decode : list byte -> TLV_t;
  TMAG_itemsize : nat;
  TMAG_decode : list byte -> TMAG_t;
  TMG2_t : Type;
  TMG2_itemsize : nat;
  TMG2_decode : list byte -> TMG2_t
}.

(* ===================================================================== *)
(** * Files *)
(* ===================================================================== *)

Module IO.

(** What a constructor does to the outside world. *)
Inductive event : Type :=
| EvOpen
| EvRead (pos count : nat)
| EvReadAll (pos : nat)
| EvSeek (pos : nat)
| EvClose
| EvMemmap (offset : nat) (count : Z).

(** The state a constructor runs in: whether the handle of
[with open(...)] is open, its cursor, the [np.memmap] views that exist,
and the events so far, latest last. *)
Record state : Type := mkState {
  handle_open : bool;
  cursor : nat;
  mappings : list (nat * Z);
  log : list event
}.

Definition initial : state := mkState false 0 [] [].

Definition t (A : Type) : Type := state -> result A * state.

Definition ret {A} (a : A) : t A := fun st => (Ok a, st).
Definition raise {A} (e : exn) : t A := fun st => (Raise e, st).
Definition out_of_fuel {A} : t A := fun st => (OutOfFuel, st).
Definition lift {A} (r : result A) : t A := fun st => (r, st).

Definition bind {A B} (c : t A) (k : A -> t B) : t B :=
  fun st =>
    match c st with
    | (Ok a, st') => k a st'
    | (Raise e, st') => (Raise e, st')
    | (OutOfFuel, st') => (OutOfFuel, st')
    end.

Definition record (e : event) (st : state) : state :=
  mkState (handle_open st) (cursor st) (mappings st) (log st ++ [e]).

Definition move (pos : nat) (st : state) : state :=
  mkState (handle_open st) pos (mappings st) (log st).

Section OnFile.

(** The bytes of the file being read. *)
Variable file : list byte.

(** [tntfile.read(count)]: the bytes from the cursor on, at most
[count] of them. *)
Definition read (count : nat) : t (list byte) :=
  fun st =>
    let data := firstn count (skipn (cursor st) file) in
    (Ok data,
     move (cursor st + List.length data) (record (EvRead (cursor st) count) st)).

(** [tntfile.read()]. *)
Definition read_all : t (list byte) :=
  fun st =>
    let data := skipn (cursor st) file in
    (Ok data,
     move (cursor st + List.length data) (record (EvReadAll (cursor st)) st)).

(** [tntfile.tell()]. *)
Definition tell : t nat := fun st => (Ok (cursor st), st).

(** [tntfile.seek(offset, io.SEEK_CUR)] and [tntfile.seek(offset)]. *)
Definition seek_cur (offset : nat) : t unit :=
  fun st =>
    (Ok tt, move (cursor st + offset) (record (EvSeek (cursor st + offset)) st)).

Definition seek (offset : nat) : t unit :=
  fun st => (Ok tt, move offset (record (EvSeek offset) st)).

(** [with open(tntfilename, 'rb') as tntfile: body]: the handle is
closed when the body is left, by its end or by an exception. *)
Definition with_open {A} (body : t A) : t A :=
  fun st =>
    let st1 := mkState true 0 (mappings st) (log st ++ [EvOpen]) in
    let '(r, st2) := body st1 in
    (r, mkState false (cursor st2) (mappings st2) (log st2 ++ [EvClose])).

(** [np.memmap(tntfilename, '<c8', mode='c', offset=..., shape=count)]:
refused when the count is negative or the region of [8 * count] bytes
does not lie inside the file. *)
Definition memmap (offset : nat) (count : Z) : t (nat * Z) :=
  fun st =>
    if ((count <? 0) || (Z.of_nat (List.length file) <? Z.of_nat offset + 8 * count))%Z
    then (Raise ValueError, st)
    else (Ok (offset, count),
          mkState (handle_open st) (cursor st)
                  (mappings st ++ [(offset, count)])
                  (log st ++ [EvMemmap offset count])).

End OnFile.

End IO.

Notation "'let!' x ':=' c1 'in' c2" := (IO.bind c1 (fun x => c2))
  (at level 10, x name, c1 at level 100, c2 at level 200).

(* ===================================================================== *)
(** * The parts of the constructor the two readers share *)
(* ===================================================================== *)

(** One value of [tnt_sections]: the dictionary [hdrdict], whose key
['data'] is present for the sections that were buffered. *)
Record hdrdict : Type := mkHdr {
  hd_offset : nat;
  hd_length : nat;
  hd_bool : bool;
  hd_data : option (list byte)
}.

(** [d[k]] on a dictionary with string keys. *)
Definition getitem {V} (d : gmap string V) (k : string) : result V :=
  match d !! k with
  | Some v => Ok v
  | None => Raise KeyError
  end.

(** [np.frombuffer(buf, dtype, count=1)[0]] (and [np.fromstring], which
the earlier reader calls): the buffer has to hold one item. *)
Definition frombuffer1 {A} (itemsize : nat) (decode : list byte -> A)
    (buf : list byte) : result A :=
  if (List.length buf <? itemsize)%nat then Raise ValueError
  else Ok (decode (firstn itemsize buf)).

Module Sections.
Section Reader.

Variables (T : TNTdtypes) (enc : Text.encoding) (file : list byte).

(** The dictionary built for one header: the payload is read when the
declared length is at most 4096 and skipped otherwise. *)
Definition read_payload (offset data_length : nat) (flag : bool) : IO.t hdrdict :=
  if (data_length <=? 4096)%nat then
    let! data := IO.read file data_length in
    if (List.length data =? data_length)%nat
    then IO.ret (mkHdr offset data_length flag (Some data))
    else IO.raise AssertionError
  else
    let! _ := IO.seek_cur data_length in
    IO.ret (mkHdr offset data_length flag None).

(** The body of the [while] loop for the header [tnthdrbytes]: the key
and the dictionary that go into [tnt_sections], and the bytes of the next
header. *)
Definition section_step (tnthdrbytes : list byte)
    : IO.t (string * hdrdict * list byte) :=
  let tntTLV := TLV_decode T tnthdrbytes in
  let data_length := tlv_length tntTLV in
  let! offset := IO.tell in
  let! hdrdict := read_payload offset data_length (negb (tlv_bool tntTLV =? 0)%Z) in
  let! tag := IO.lift (Text.decode enc (tlv_tag tntTLV)) in
  let! next := IO.read file (TLV_itemsize T) in
  IO.ret (tag, hdrdict, next).

(** The [while] loop: it goes on as long as a whole header was read. *)
Fixpoint read_sections (fuel : nat) (tnt_sections : gmap string hdrdict)
    (tnthdrbytes : list byte) : IO.t (gmap string hdrdict) :=
  match fuel with
  | O => IO.out_of_fuel
  | S fuel' =>
      if (TLV_itemsize T =? List.length tnthdrbytes)%nat then
        let! step := section_step tnthdrbytes in
        let '(tag, hdrdict, next) := step in
        read_sections fuel' (<[tag := hdrdict]> tnt_sections) next
      else IO.ret tnt_sections
  end.

(** Reading the section headers, from the first one on. *)
Definition section_table : IO.t (gmap string hdrdict) :=
  let! tnthdrbytes := IO.read file (TLV_itemsize T) in
  read_sections (S (List.length file)) ∅ tnthdrbytes.

(** The assignments to [tnt_sections] that the loop makes, in order; it
is what the statements about the loop speak of, the loop does not build
it. *)
Fixpoint section_entries (fuel : nat) (tnthdrbytes : list byte)
    (st : IO.state) : list (string * hdrdict) :=
  match fuel with
  | O => []
  | S fuel' =>
      if (TLV_itemsize T =? List.length tnthdrbytes)%nat then
        match section_step tnthdrbytes st with
        | (Ok (tag, hdrdict, next), st') =>
            (tag, hdrdict) :: section_entries fuel' next st'
        | _ => []
        end
      else []
  end.

(** The assignments made by [section_table] started in the state [st]. *)
Definition table_entries (st : IO.state) : list (string * hdrdict) :=
  match IO.read file (TLV_itemsize T) st with
  | (Ok tnthdrbytes, st') => section_entries (S (List.length file)) tnthdrbytes st'
  | _ => []
  end.

(** [assert(tnt_sections[tag]['length'] == itemsize)] followed by the
decoding of [tnt_sections[tag]['data']]. *)
Definition load_struct {A} (tnt_sections : gmap string hdrdict) (tag : string)
    (itemsize : nat) (decode : list byte -> A) : result A :=
  let* sec := getitem tnt_sections tag in
  if (hd_length sec =? itemsize)%nat then
    match hd_data sec with
    | Some data => frombuffer1 itemsize decode data
    | None => Raise KeyError
    end
  else Raise AssertionError.

(** The statements after the [with] block: TMAG, the mapping and
reshaping of DATA, TMG2.  [np.reshape] refuses a negative dimension once
the element count agrees. *)
Definition load_records (tnt_sections : gmap string hdrdict)
    : IO.t (TMAG_t * (nat * list Z) * TMG2_t T) :=
  let! TMAG := IO.lift (load_struct tnt_sections "TMAG" (TMAG_itemsize T) (TMAG_decode T)) in
  let! sec := IO.lift (getitem tnt_sections "DATA") in
  let count := fold_right Z.mul 1%Z (actual_npts TMAG) in
  if negb (Z.of_nat (hd_length sec) =? count * 8)%Z then IO.raise AssertionError
  else
    let! DATA := IO.memmap file (hd_offset sec) count in
    if negb (forallb (Z.leb 0) (actual_npts TMAG)) then IO.raise ValueError
    else
      let! TMG2 := IO.lift (load_struct tnt_sections "TMG2" (TMG2_itemsize T) (TMG2_decode T)) in
      IO.ret (TMAG, (DATA.1, actual_npts TMAG), TMG2).

(** The magic number: read, decoded and matched against [Magic_re]. *)
Definition read_magic : IO.t (list byte) :=
  let! raw := IO.read file (Magic_itemsize T) in
  let! tntmagic := IO.lift (frombuffer1 (Magic_itemsize T) (fun b => b) raw) in
  if negb (Magic_re_match T tntmagic) then IO.raise ValueError
  else IO.ret tntmagic.

End Reader.
End Sections.

(* ===================================================================== *)
(** * The delay tables *)
(* ===================================================================== *)

Module Delay.

Definition is_digit_byte (b : byte) : bool :=
  ((48 <=? Byte.to_nat b) && (Byte.to_nat b <=? 57))%nat.

(** Number of digits at the head of [l]. *)
Fixpoint digits_run (l : list byte) : nat :=
  match l with
  | b :: l' => if is_digit_byte b then S (digits_run l') else 0
  | [] => 0
  end.

(** Length of the match of [de[0-9]+:[0-9]] that starts at the head of
[l], if there is one.  A colon is no digit, so the digits matched are all
the digits that follow "de". *)
Definition match_here (l : list byte) : option nat :=
  match l with
  | d :: e :: rest =>
      if Byte.eqb d "d" && Byte.eqb e "e" then
        let k := digits_run rest in
        if (0 <? k)%nat then
          match skipn k rest with
          | c :: g :: _ =>
              if Byte.eqb c ":" && is_digit_byte g then Some (2 + k + 2)%nat
              else None
          | _ => None
          end
        else None
      else None
  | _ => None
  end.

(** [match.start()] for every match of [delay_re.finditer]: the matches
are found from left to right and do not overlap.  [l] is the region from
position [pos] on, [skip] the number of its bytes inside the last
match. *)
Fixpoint finditer (l : list byte) (pos skip : nat) : list nat :=
  match l with
  | [] => []
  | _ :: l' =>
      match skip with
      | S skip' => finditer l' (S pos) skip'
      | O =>
          match match_here l with
          | Some len => pos :: finditer l' (S pos) (len - 1)
          | None => finditer l' (S pos) 0
          end
      end
  end.

(** The body of the [for] loop for the match starting at [start]. *)
Definition delay_step (U : utils_py) (enc : Text.encoding)
    (search_region : list byte) (DELAY : gmap string (list Q)) (start : nat)
    : result (gmap string (list Q)) :=
  let offset := (Z.of_nat start - 4)%Z in
  match read_pascal_string U enc (Py.slice_from offset search_region) with
  | Raise IndexError => Ok DELAY
  | Raise e => Raise e
  | OutOfFuel => OutOfFuel
  | Ok delay_name =>
      let offset := (start + String.length delay_name)%nat in
      let* delay :=
        read_pascal_string U enc (Py.slice_from (Z.of_nat offset) search_region) in
      if (1 <? String.length delay)%nat then
        let delay := Text.split delay in
        let* delay := convert_si U delay in
        Ok (<[delay_name := delay]> DELAY)
      else Ok DELAY
  end.

Fixpoint delay_loop (U : utils_py) (enc : Text.encoding)
    (search_region : list byte) (DELAY : gmap string (list Q))
    (starts : list nat) : result (gmap string (list Q)) :=
  match starts with
  | [] => Ok DELAY
  | start :: starts' =>
      let* DELAY' := delay_step U enc search_region DELAY start in
      delay_loop U enc search_region DELAY' starts'
  end.

(** [self.DELAY] for the bytes read from the offset of PSEQ on. *)
Definition delay_tables (U : utils_py) (enc : Text.encoding)
    (search_region : list byte) : result (gmap string (list Q)) :=
  delay_loop U enc search_region ∅ (finditer search_region 0 0).

End Delay.

(* ===================================================================== *)
(** * src/pytnt/processTNT.py *)
(* ===================================================================== *)

Module TNTfile.

(** The object that [TNTfile(tntfilename, encoding)] builds. *)
Record obj (T : TNTdtypes) : Type := mkObj {
  encoding : Text.encoding;
  tntmagic : list byte;
  tnt_sections : gmap string hdrdict;
  DELAY : gmap string (list Q);
  TMAG : TMAG_t;
  DATA : nat * list Z;
  TMG2 : TMG2_t T
}.

(** The body of the [with] block. *)
Definition parse (T : TNTdtypes) (U : utils_py) (file : list byte)
    (enc : Text.encoding)
    : IO.t (list byte * gmap string hdrdict * gmap string (list Q)) :=
  let! tntmagic := Sections.read_magic T file in
  let! tnt_sections := Sections.section_table T enc file in
  let! pseq := IO.lift (getitem tnt_sections "PSEQ") in
  let! _ := IO.seek (hd_offset pseq) in
  let! search_region := IO.read_all file in
  let! DELAY := IO.lift (Delay.delay_tables U enc search_region) in
  IO.ret (tntmagic, tnt_sections, DELAY).

(** [TNTfile.__init__] on the file whose bytes are [file]. *)
Definition __init__ (T : TNTdtypes) (U : utils_py) (file : list byte)
    (enc : Text.encoding) : IO.t (obj T) :=
  let! parsed := IO.with_open (parse T U file enc) in
  let '(tntmagic, tnt_sections, DELAY) := parsed in
  let! records := Sections.load_records T file tnt_sections in
  let '(TMAG, DATA, TMG2) := records in
  IO.ret (mkObj T enc tntmagic tnt_sections DELAY TMAG DATA TMG2).

(** [ppm_points], given the array [ppm = self.freq_ppm(altDATA)]. *)
Definition ppm_points (ppm : list Q) (max_ppm min_ppm : Q) : Z * Z :=
  let npts := List.length ppm in
  let i_max_ppm :=
    (Z.of_nat npts - Z.of_nat (Np.searchsorted (rev ppm) max_ppm Np.side_right))%Z in
  let i_min_ppm :=
    (Z.of_nat npts - Z.of_nat (Np.searchsorted (rev ppm) min_ppm Np.side_left))%Z in
  (i_max_ppm, i_min_ppm).

(** [ppm_points_reverse]. *)
Definition ppm_points_reverse (ppm : list Q) (min_ppm max_ppm : Q) : Z * Z :=
  let '(i_max_ppm, i_min_ppm) := ppm_points ppm max_ppm min_ppm in
  (i_min_ppm - 1, i_max_ppm - 1)%Z.

(** [n_complete_spec]. *)
Definition n_complete_spec (self : TMAG_t) : result Z :=
  if forallb (Z.eqb 1) (skipn 2 (actual_npts self)) then
    if (scans self =? actual_scans self)%Z then
      Py.index (actual_npts self) 1
    else
      let* d := Py.index (actual_npts self) 1 in Ok (d - 1)%Z
  else Raise AssertionError.

(** The DC offset that [LBfft] estimates when none is given:
    [np.mean(DATA[int(npts / -8):, :, :, :], axis=0, keepdims=True)],
    as the value it contributes at row [i] of column [j]. *)
Definition DCoffset_estimate (DATA : array4) : nat -> nat -> Cx.C :=
  fun _ j =>
    Np.mean (Py.slice_from
               (Py.int_truediv (Z.of_nat (shape0 DATA)) (-8))
               (nth j (columns DATA) [])).

(** [LBfft] on the array [DATA] ([altDATA], or [self.DATA]).  A given
    [DCoffset] is taken after broadcasting against [DATA]: its value at
    row [i] of column [j].  The log file only receives text. *)
Definition LBfft (self : TMAG_t) (LB : R) (zf : nat) (phase : option R)
           (ph1 : R) (DCoffset : option (nat -> nat -> Cx.C))
           (DATA : array4) : result array4 :=
  let* dw := Py.index (dwell self) 0 in
  let LBdw := (- LB * dw * PI)%R in
  let npts := shape0 DATA in
  let npts_ft := (npts * 2 ^ zf)%nat in
  let DCoffset :=
    match DCoffset with
    | None => DCoffset_estimate DATA
    | Some d => d
    end in
  let lbweight := map (fun n => exp (LBdw * INR n)) (seq 0 npts) in
  let DATAlb :=
    imap (fun j col =>
            zip_with Cx.Cscale
              (imap (fun i x => Cx.Csub x (DCoffset i j)) col) lbweight)
         (columns DATA) in
  let* DATAfft := fft_axis0 DATAlb npts_ft in
  let DATAfft := map Np.fftshift DATAfft in
  let DATAfft :=
    map (map (fun z => Cx.Cdivr z (sqrt (INR npts_ft)))) DATAfft in
  let DATAfft :=
    match phase with
    | None =>
        let rot := Cx.Cexpi (- Cx.Cangle (Cx.Csum (concat DATAfft)))%R in
        map (map (fun z => Cx.Cmul z rot)) DATAfft
    | Some phase =>
        let ramp := map (fun t => Cx.Cexpi (phase + ph1 * t)%R)
                        (Np.linspace (- 0.5) 0.5 npts_ft) in
        map (fun col => zip_with Cx.Cmul col ramp) DATAfft
    end in
  Ok (mkArray4 npts_ft DATAfft).

End TNTfile.

(* ===================================================================== *)
(** * src/processTNT.py: the earlier reader *)
(* ===================================================================== *)

Module Legacy.

(** The object that the earlier [TNTfile(tntfilename)] builds. *)
Record obj (T : TNTdtypes) : Type := mkObj {
  tntmagic : list byte;
  tnt_sections : gmap string hdrdict;
  TMAG : TMAG_t;
  DATA : nat * list Z;
  TMG2 : TMG2_t T
}.

(** The body of the [with] block; the tags are decoded by [s], as
latin1. *)
Definition parse (T : TNTdtypes) (file : list byte)
    : IO.t (list byte * gmap string hdrdict) :=
  let! tntmagic := Sections.read_magic T file in
  let! tnt_sections := Sections.section_table T Text.enc_latin1 file in
  IO.ret (tntmagic, tnt_sections).

(** The earlier [TNTfile.__init__]. *)
Definition __init__ (T : TNTdtypes) (file : list byte) : IO.t (obj T) :=
  let! parsed := IO.with_open (parse T file) in
  let '(tntmagic, tnt_sections) := parsed in
  let! records := Sections.load_records T file tnt_sections in
  let '(TMAG, DATA, TMG2) := records in
  IO.ret (mkObj T tntmagic tnt_sections TMAG DATA TMG2).

(** [for i in range(start, npts): if p(ppm[i]): return i], the list
    being the part of the array from [start] on. *)
Fixpoint scan (p : Q -> bool) (rest : list Q) (start : nat) : option nat :=
  match rest with
  | [] => None
  | x :: rest' => if p x then Some start else scan p rest' (S start)
  end.

(** [ppm_points] by two linear scans. *)
Definition ppm_points (ppm : list Q) (max_ppm min_ppm : Q) : Z * Z :=
  let npts := List.length ppm in
  let i_max_ppm :=
    match scan (fun x => Qle_bool x max_ppm) ppm 0 with
    | Some i => i
    | None => 0%nat
    end in
  let i_min_ppm :=
    match scan (fun x => Np.Qltb x min_ppm) (skipn i_max_ppm ppm) i_max_ppm with
    | Some i => i
    | None => npts
    end in
  (Z.of_nat i_max_ppm, Z.of_nat i_min_ppm).

End Legacy.

(* ===================================================================== *)
(** * Vocabulary of the statements *)
(* ===================================================================== *)

(** The axis goes from high to low: each value is at most the one before. *)
Fixpoint decreasing (l : list Q) : bool :=
  match l with
  | [] => true
  | x :: tl =>
      match tl with
      | [] => true
      | y :: _ => Qle_bool y x && decreasing tl
      end
  end.

(** Position of the first element satisfying [p]; the length of the list
    when there is none (one past the end). *)
Fixpoint first_index (p : Q -> bool) (l : list Q) : nat :=
  match l with
  | [] => 0
  | x :: tl => if p x then 0 else S (first_index p tl)
  end.

(** [max_ppm] reaches the axis: the axis is empty or has a value that is
    at most [max_ppm]. *)
Definition reaches (ppm : list Q) (max_ppm : Q) : bool :=
  match ppm with
  | [] => true
  | _ => existsb (fun x => Qle_bool x max_ppm) ppm
  end.

(** The two comparisons of [ppm_points]. *)
Definition le_max (max_ppm : Q) : Q -> bool := fun x => Qle_bool x max_ppm.
Definition lt_min (min_ppm : Q) : Q -> bool := fun x => Np.Qltb x min_ppm.

(** A predicate that holds of every value below one of which it holds. *)
Definition downward (p : Q -> bool) : Prop :=
  forall x y, p x = true -> (y <= x)%Q -> p y = true.

(** One column of the impulse input: 1 at index 0 and 0 elsewhere. *)
Definition impulse (npts : nat) : list Cx.C :=
  match npts with
  | O => []
  | S n => Cx.C1 :: repeat Cx.C0 n
  end.

(** The impulse input with [ncols] columns. *)
Definition impulse_array (npts ncols : nat) : array4 :=
  mkArray4 npts (repeat (impulse npts) ncols).

(** What holds of a value of [tnt_sections]: the key ['data'] is present
exactly when the declared length is at most 4096, and the buffer under
it has the declared length. *)
Definition entry_ok (e : hdrdict) : Prop :=
  (hd_data e <> None <-> (hd_length e <= 4096)%nat) /\
  (forall d, hd_data e = Some d -> List.length d = hd_length e).

(** The assignment [tnt_sections[key] = hdrdict]. *)
Definition assign (tbl : gmap string hdrdict) (kv : string * hdrdict)
    : gmap string hdrdict :=
  <[kv.1 := kv.2]> tbl.

(** The payload as the loop keeps it for a header read at cursor
[offset] that declares [len] bytes. *)
Definition kept_payload (file : list byte) (offset len : nat) : option (list byte) :=
  if (len <=? 4096)%nat then Some (firstn len (skipn offset file)) else None.

Definition axis5 : list Q := [10; 8; 6; 4; 2]%Q.

(** ** A layout and files to run the readers on *)

Module Sample.

Definition byte_of_nat (n : nat) : byte :=
  match Byte.of_nat (n mod 256) with
  | Some b => b
  | None => "000"%byte
  end.

(** Four bytes, little-endian. *)
Definition le32 (n : nat) : list byte :=
  [byte_of_nat n; byte_of_nat (n / 256); byte_of_nat (n / 256 / 256);
   byte_of_nat (n / 256 / 256 / 256)].

Definition bytes (s : string) : list byte := list_byte_of_string s.

Fixpoint starts_with (p l : list byte) : bool :=
  match p, l with
  | [], _ => true
  | x :: p', y :: l' => Byte.eqb x y && starts_with p' l'
  | _ :: _, [] => false
  end.

Definition le_int (b : list byte) : Z := Z.of_nat (Text.le_nat b).

(** Modelled from the spec: an instance of [TNTdtypes], whose file is
not among the sources.  The magic signature is a fixed-width byte string
(here eight bytes, accepted when they begin with "TNT1."); a section
header is a tag of four bytes, an unsigned length (here four bytes,
little-endian) and a flag byte; TMAG holds the shape and the scan counts
(here six four-byte integers) and TMG2 is kept as its bytes. *)
Definition dtypes : TNTdtypes := {|
  Magic_itemsize := 8;
  Magic_re_match := starts_with (bytes "TNT1.");
  TLV_itemsize := 9;
  TLV_decode := fun b =>
    mkTLV (firstn 4 b) (le_int (firstn 1 (skipn 8 b)))
          (Text.le_nat (firstn 4 (skipn 4 b)));
  TMAG_itemsize := 24;
  TMAG_decode := fun b =>
    mkTMAG [le_int (firstn 4 b); le_int (firstn 4 (skipn 4 b));
            le_int (firstn 4 (skipn 8 b)); le_int (firstn 4 (skipn 12 b))]
           (le_int (firstn 4 (skipn 16 b))) (le_int (firstn 4 (skipn 20 b)))
           [];
  TMG2_t := list byte;
  TMG2_itemsize := 4;
  TMG2_decode := fun b => b
|}.

(** A section: its header and its payload. *)
Definition section (tag : string) (payload : list byte) : list byte :=
  bytes tag ++ le32 (List.length payload) ++ [byte_of_nat 1] ++ payload.

(** A Pascal string: a four-byte length and the text. *)
Definition pascal (s : string) : list byte :=
  le32 (String.length s) ++ bytes s.

(** A delay table with the single token "5u", and one with three
tokens. *)
Definition region_5u : list byte := pascal "de12:3" ++ pascal "5u".
Definition region_3m : list byte := pascal "de12:3" ++ pascal "1m 2m 3m".

(** A file that does not start with the magic signature. *)
Definition not_tnt : list byte := bytes "RIFF0000WAVEfmt ".

(** Two sections with the same tag, then a section above the inline
threshold whose payload is cut short by the end of the file, then three
bytes that do not make a header. *)
Definition two_tags : list byte :=
  section "TMG2" (bytes "abcd") ++ section "TMG2" (bytes "wxyz")
  ++ bytes "DATA" ++ le32 5000 ++ [byte_of_nat 0] ++ bytes "0123456789abcdef"
  ++ bytes "end".

(** A whole file: a one-point acquisition with a delay table. *)
Definition whole : list byte :=
  bytes "TNT1.000"
  ++ section "TMAG" (le32 1 ++ le32 1 ++ le32 1 ++ le32 1 ++ le32 8 ++ le32 8)
  ++ section "DATA" (le32 0 ++ le32 0)
  ++ section "TMG2" (bytes "abcd")
  ++ section "PSEQ" region_3m.

(** The same file with the single-token delay table. *)
Definition whole_5u : list byte :=
  bytes "TNT1.000"
  ++ section "TMAG" (le32 1 ++ le32 1 ++ le32 1 ++ le32 1 ++ le32 8 ++ le32 8)
  ++ section "DATA" (le32 0 ++ le32 0)
  ++ section "TMG2" (bytes "abcd")
  ++ section "PSEQ" region_5u.

End Sample.


(* ===================================================================== *)
(** * The remaining methods of the two readers *)
(* ===================================================================== *)

Module PyMore.

(** Where a slice bound [i] falls in a sequence of length [n]: a negative
bound counts from the end, and the result is kept within [0, n]. *)
Definition clamp (n i : Z) : Z :=
  if (i <? 0)%Z then Z.max 0 (n + i) else Z.min n i.

(** [a[i:j]]. *)
Definition slice {A} (i j : Z) (a : list A) : list A :=
  let n := Z.of_nat (List.length a) in
  let s := clamp n i in
  let e := clamp n j in
  firstn (Z.to_nat (e - s)) (skipn (Z.to_nat s) a).

(** [np.arange(start, stop)] on integers. *)
Definition arange (start stop : Z) : list Z :=
  map (fun i => (start + Z.of_nat i)%Z) (seq 0 (Z.to_nat (stop - start))).

(** [np.fft.fftfreq(n, d)]: the integers [0 .. N-1] with
[N = (n-1)//2 + 1], then [-(n//2) .. -1], all times [1.0 / (n * d)].  A
negative [n] is refused when the result array is allocated.  The values
are exact rationals and stand for the finite floats of the source.  For
[d = 0] and [n > 0] numpy's bin width is [inf] and its bins are [nan] or
infinite, which no rational stands for: there the values below mean
nothing, only the length of the result does, and every statement about
the values of an axis takes [d] different from 0. *)
Definition fftfreq (n : Z) (d : Q) : result (list Q) :=
  if (n <? 0)%Z then Raise ValueError
  else
    let val := (1 / (inject_Z n * d))%Q in
    let N := ((n - 1) / 2 + 1)%Z in
    let p1 := arange 0 N in
    let p2 := arange (- (n / 2)) 0 in
    Ok (map (fun k => (inject_Z k * val)%Q) (p1 ++ p2)).

End PyMore.

Module Methods.

(** The attributes that the axis and timing methods read through
[__getattr__]: the TMAG record of the methods above, and the
floating-point fields as exact rationals. *)
Record attrs : Type := mkAttrs {
  tmag : TMAG_t;
  dwell_s : list Q;
  ref_freq : Q;
  ob_freq : list Q;
  acq_time : Q;
  last_delay : Q
}.

(** [self.actual_npts[0]], or [altDATA.shape[0]] when [altDATA] is
given. *)
Definition npts_of (self : attrs) (altDATA : option array4) : result Z :=
  match altDATA with
  | None => Py.index (actual_npts (tmag self)) 0
  | Some a => Ok (Z.of_nat (shape0 a))
  end.

(** [freq_Hz]. *)
Definition freq_Hz (self : attrs) (altDATA : option array4) : result (list Q) :=
  let* npts := npts_of self altDATA in
  let* dw := Py.index (dwell_s self) 0 in
  let* f := PyMore.fftfreq npts dw in
  Ok (map (fun x => (- (x + ref_freq self))%Q) (Np.fftshift f)).

(** [freq_ppm]. *)
Definition freq_ppm (self : attrs) (altDATA : option array4) : result (list Q) :=
  let* NMR_freq := Py.index (ob_freq self) 0 in
  let* hz := freq_Hz self altDATA in
  Ok (map (fun x => (x / NMR_freq)%Q) hz).

(** [fid_times]. *)
Definition fid_times (self : attrs) (altDATA : option array4) : result (list Q) :=
  let* npts := npts_of self altDATA in
  let* dw := Py.index (dwell_s self) 0 in
  Ok (map (fun i => (inject_Z i * dw)%Q) (PyMore.arange 0 npts)).

(** [ppm_points] as a method: the axis is [self.freq_ppm(altDATA)]. *)
Definition ppm_points (self : attrs) (max_ppm min_ppm : Q)
    (altDATA : option array4) : result (Z * Z) :=
  let* ppm := freq_ppm self altDATA in
  Ok (TNTfile.ppm_points ppm max_ppm min_ppm).



End Methods.

(** A computation that leaves the handle and the memory maps as they
are. *)
Definition keeps_world {A} (c : IO.t A) : Prop :=
  forall st,
    IO.handle_open (c st).2 = IO.handle_open st /\
    IO.mappings (c st).2 = IO.mappings st.

(** [np.prod] of a shape. *)
Definition shape_size (dims : list Z) : Z := fold_right Z.mul 1%Z dims.

(** The array times [exp(1j * t)], element by element. *)
Definition rotate (t : R) (a : array4) : array4 :=
  mkArray4 (shape0 a)
           (map (map (fun z => Cx.Cmul z (Cx.Cexpi t))) (columns a)).

(** A column that holds the value [c] at each of its [npts] points. *)
Definition constant_column (npts : nat) (col : list Cx.C) : Prop :=
  exists c, col = repeat c npts.

(** The value of the axis in Hz at the integer bin [k], for [n] points
and the dwell time [dw]: [-(k / (n * dw) + ref_freq)]. *)
Definition hz_at (self : Methods.attrs) (n : Z) (dw : Q) (k : Z) : Q :=
  (- (inject_Z k * (1 / (inject_Z n * dw)) + Methods.ref_freq self))%Q.

(** The value of the axis in ppm at index [i]: the bin is
[i - n//2]. *)
Definition ppm_at (self : Methods.attrs) (n : Z) (dw nmr : Q) (i : nat) : Q :=
  (hz_at self n dw (- (n / 2) + Z.of_nat i) / nmr)%Q.

(** The values of the axis that lie in the closed range from [min_ppm]
to [max_ppm]. *)
Definition in_range (max_ppm min_ppm : Q) : Q -> bool :=
  fun x => le_max max_ppm x && negb (lt_min min_ppm x).

(** Attributes to run the methods on: eight points, a dwell time of
1/8, a reference frequency of 1 and an observation frequency of 2. *)
Definition attrs8 : Methods.attrs :=
  Methods.mkAttrs (mkTMAG [8; 5; 1; 1]%Z 8 5 []) [(1 # 8)%Q] 1%Q [2%Q] 3%Q 1%Q.

(** A call that ends, and that raises an exception among [allowed] when
it does not return. *)
Definition raises_only {A} (allowed : exn -> Prop) (r : result A) : Prop :=
  match r with
  | Ok _ => True
  | Raise e => allowed e
  | OutOfFuel => False
  end.

(** The exceptions of the statements both constructors share: the magic
check and the array constructors raise [ValueError], the [assert]
statements [AssertionError], a missing section or a missing buffer
[KeyError]. *)
Definition shared_errors (e : exn) : Prop :=
  e = ValueError \/ e = AssertionError \/ e = KeyError.

(** The mean that the estimate of the DC offset is said to be, for a
column of [npts] samples: of all the samples below eight points, of the
last [npts // 8] samples from eight points on. *)
Definition trailing_mean (npts : nat) (col : list Cx.C) : Cx.C :=
  Np.mean (if (npts <? 8)%nat then col else skipn (npts - npts / 8) col).

(** The array with that mean taken off every sample of each column. *)
Definition centred (DATA : array4) : array4 :=
  mkArray4 (shape0 DATA)
    (map (fun col =>
            map (fun x => Cx.Csub x (trailing_mean (shape0 DATA) col)) col)
         (columns DATA)).

(** Every column of the array has [shape0] samples. *)
Definition well_shaped (DATA : array4) : Prop :=
  Forall (fun col => List.length col = shape0 DATA) (columns DATA).

(** The sum of a column after the mean [m] was taken off each of its
[npts] samples. *)
Definition residual_sum (npts : nat) (m : Cx.C) (col : list Cx.C) : Cx.C :=
  Cx.Csub (Cx.Csum col) (Cx.Cscale m (INR npts)).
(* ===================================================================== *)
(** * Properties *)
(* ===================================================================== *)

(** ** Binary search *)

Section Bisect.

Variables (sd : Np.side) (a : list Q) (v : Q) (k : nat).
Hypothesis below : forall i, (i < k)%nat ->
  Np.goes_right sd v (nth i a 0%Q) = true.
Hypothesis above : forall i, (k <= i < List.length a)%nat ->
  Np.goes_right sd v (nth i a 0%Q) = false.

Lemma bisect_partition_point fuel : forall lo hi,
  (lo <= k <= hi)%nat -> (hi <= List.length a)%nat -> (hi - lo <= fuel)%nat ->
  Np.bisect fuel sd a v lo hi = k.
Proof using below above.
  induction fuel as [|fuel IH]; intros lo hi Hk Hhi Hfuel; cbn [Np.bisect].
  - lia.
  - destruct (Nat.ltb_spec lo hi) as [Hlt|Hge]; [|lia].
    set (mid := (lo + (hi - lo) / 2)%nat).
    assert (Hmid : (lo <= mid < hi)%nat).
    { unfold mid. pose proof (Nat.Div0.mul_div_le (hi - lo) 2). lia. }
    assert (Hhalf : (hi - S mid <= fuel /\ mid - lo <= fuel)%nat) by lia.
    destruct (Np.goes_right sd v (nth mid a 0%Q)) eqn:E.
    + apply IH; try lia.
      destruct (Nat.lt_ge_cases mid k) as [?|Hc]; [lia|].
      rewrite above in E by lia. discriminate.
    + apply IH; try lia.
      destruct (Nat.lt_ge_cases mid k) as [Hc|?]; [|lia].
      rewrite below in E by lia. discriminate.
Qed.

(** The search is over as soon as the bounds meet, which takes at most
[hi - lo] rounds: more fuel changes nothing. *)
Lemma bisect_fuel fuel : forall fuel' lo hi,
  (hi - lo <= fuel)%nat -> (hi - lo <= fuel')%nat ->
  Np.bisect fuel sd a v lo hi = Np.bisect fuel' sd a v lo hi.
Proof.
  induction fuel as [|fuel IH]; intros [|fuel'] lo hi H H'; cbn [Np.bisect];
    try reflexivity.
  - destruct (Nat.ltb_spec lo hi); [lia | reflexivity].
  - destruct (Nat.ltb_spec lo hi); [lia | reflexivity].
  - destruct (Nat.ltb_spec lo hi) as [Hlt|Hge]; [|reflexivity].
    pose proof (Nat.Div0.mul_div_le (hi - lo) 2).
    destruct (Np.goes_right sd v _); apply IH; lia.
Qed.

Lemma searchsorted_partition_point :
  (k <= List.length a)%nat -> Np.searchsorted a v sd = k.
Proof using below above.
  intros Hk. unfold Np.searchsorted.
  apply bisect_partition_point; lia.
Qed.

End Bisect.

(** ** The two comparisons of [ppm_points] *)

Lemma Qltb_lt x y : Np.Qltb x y = true <-> (x < y)%Q.
Proof.
  unfold Np.Qltb. rewrite negb_true_iff, <- not_true_iff_false, Qle_bool_iff.
  split; [apply Qnot_le_lt | apply Qlt_not_le].
Qed.

Lemma Qltb_ge x y : Np.Qltb x y = false <-> (y <= x)%Q.
Proof.
  unfold Np.Qltb. rewrite negb_false_iff. apply Qle_bool_iff.
Qed.

Lemma le_max_le m x : le_max m x = true <-> (x <= m)%Q.
Proof. apply Qle_bool_iff. Qed.

Lemma le_max_gt m x : le_max m x = false <-> (m < x)%Q.
Proof.
  unfold le_max. rewrite <- not_true_iff_false, Qle_bool_iff.
  split; [apply Qnot_le_lt | apply Qlt_not_le].
Qed.

Lemma goes_right_right m x : Np.goes_right Np.side_right m x = le_max m x.
Proof.
  unfold Np.goes_right, Np.Qltb, le_max. now rewrite negb_involutive.
Qed.

Lemma goes_right_left m x : Np.goes_right Np.side_left m x = lt_min m x.
Proof. reflexivity. Qed.

Lemma le_max_downward m : downward (le_max m).
Proof.
  intros x y Hx Hyx. apply le_max_le. apply le_max_le in Hx.
  eapply Qle_trans; eassumption.
Qed.

Lemma lt_min_downward m : downward (lt_min m).
Proof.
  intros x y Hx Hyx. apply Qltb_lt. apply Qltb_lt in Hx.
  eapply Qle_lt_trans; eassumption.
Qed.

(** ** Decreasing lists and the first index of a predicate *)

Lemma decreasing_tail x l : decreasing (x :: l) = true -> decreasing l = true.
Proof.
  destruct l as [|y l]; [reflexivity|].
  cbn [decreasing]. intros H. apply andb_true_iff in H. tauto.
Qed.

Lemma decreasing_head x l :
  decreasing (x :: l) = true -> forall y, In y l -> (y <= x)%Q.
Proof.
  revert x. induction l as [|z l IH]; intros x H y Hy; [destruct Hy|].
  assert (Hzx : (z <= x)%Q).
  { cbn [decreasing] in H. apply andb_true_iff in H.
    apply Qle_bool_iff. tauto. }
  destruct Hy as [->|Hy]; [exact Hzx|].
  apply Qle_trans with z; [|exact Hzx].
  apply IH; [|exact Hy]. eapply decreasing_tail; eassumption.
Qed.

Lemma decreasing_nth l : decreasing l = true ->
  forall i j, (i <= j < List.length l)%nat -> (nth j l 0 <= nth i l 0)%Q.
Proof.
  induction l as [|x l IH]; intros H i j Hij; [simpl in Hij; lia|].
  destruct i as [|i], j as [|j]; cbn [nth]; simpl in Hij.
  - apply Qle_refl.
  - apply (decreasing_head x l H). apply nth_In. lia.
  - lia.
  - apply IH; [eapply decreasing_tail; eassumption | lia].
Qed.

Lemma first_index_le p l : (first_index p l <= List.length l)%nat.
Proof.
  induction l as [|x l IH]; simpl; [lia|]. destruct (p x); lia.
Qed.

Lemma first_index_before p l : forall j,
  (j < first_index p l)%nat -> p (nth j l 0%Q) = false.
Proof.
  induction l as [|x l IH]; intros j Hj; simpl in Hj; [lia|].
  destruct (p x) eqn:E; [lia|].
  destruct j as [|j]; cbn [nth]; [exact E | apply IH; lia].
Qed.

Lemma first_index_at p l :
  (first_index p l < List.length l)%nat ->
  p (nth (first_index p l) l 0%Q) = true.
Proof.
  induction l as [|x l IH]; simpl; [lia|].
  destruct (p x) eqn:E; [intros _; exact E|].
  intros H. apply IH. lia.
Qed.

Lemma first_index_after p l :
  downward p -> decreasing l = true ->
  forall j, (first_index p l <= j < List.length l)%nat ->
  p (nth j l 0%Q) = true.
Proof.
  intros Hp Hl j Hj.
  apply Hp with (nth (first_index p l) l 0%Q).
  - apply first_index_at. lia.
  - apply decreasing_nth; [exact Hl | lia].
Qed.

Lemma first_index_zero p l :
  (forall x, In x l -> p x = true) -> first_index p l = 0%nat.
Proof.
  destruct l as [|x l]; [reflexivity|]. intros H. simpl.
  now rewrite (H x (or_introl eq_refl)).
Qed.

Lemma first_index_none p l :
  (forall x, In x l -> p x = false) -> first_index p l = List.length l.
Proof.
  induction l as [|x l IH]; intros H; [reflexivity|]. simpl.
  rewrite (H x (or_introl eq_refl)). f_equal. apply IH.
  intros y Hy. apply H. now right.
Qed.

Lemma first_index_mono p q l :
  (forall x, q x = true -> p x = true) ->
  (first_index p l <= first_index q l)%nat.
Proof.
  intros Hpq. induction l as [|x l IH]; simpl; [lia|].
  destruct (q x) eqn:Eq.
  - now rewrite (Hpq x Eq).
  - destruct (p x); lia.
Qed.

(** ** What the binary search of [ppm_points] returns *)

Lemma searchsorted_rev sd v p ppm :
  (forall x, Np.goes_right sd v x = p x) ->
  downward p -> decreasing ppm = true ->
  Np.searchsorted (rev ppm) v sd = (List.length ppm - first_index p ppm)%nat.
Proof.
  intros Hgr Hp Hdec.
  pose proof (first_index_le p ppm) as Hle.
  apply searchsorted_partition_point; rewrite ?length_rev; try lia.
  - intros i Hi. rewrite Hgr, rev_nth by lia.
    apply first_index_after; auto. lia.
  - intros i Hi. rewrite Hgr, rev_nth by lia.
    apply first_index_before. lia.
Qed.

Lemma ppm_points_first_index ppm max_ppm min_ppm :
  decreasing ppm = true ->
  TNTfile.ppm_points ppm max_ppm min_ppm =
    (Z.of_nat (first_index (le_max max_ppm) ppm),
     Z.of_nat (first_index (lt_min min_ppm) ppm)).
Proof.
  intros Hdec. unfold TNTfile.ppm_points.
  rewrite (searchsorted_rev _ _ (le_max max_ppm)), (searchsorted_rev _ _ (lt_min min_ppm));
    auto using goes_right_right, goes_right_left, le_max_downward, lt_min_downward.
  pose proof (first_index_le (le_max max_ppm) ppm).
  pose proof (first_index_le (lt_min min_ppm) ppm).
  f_equal; lia.
Qed.

Lemma first_index_start_le_end ppm max_ppm min_ppm :
  (min_ppm <= max_ppm)%Q ->
  (first_index (le_max max_ppm) ppm <= first_index (lt_min min_ppm) ppm)%nat.
Proof.
  intros Hmm. apply first_index_mono. intros x Hx.
  apply le_max_le. apply Qltb_lt in Hx.
  apply Qlt_le_weak. eapply Qlt_le_trans; eassumption.
Qed.

(** ** The linear scans of the earlier reader *)

Lemma scan_first_index p l : forall start,
  Legacy.scan p l start =
    if (first_index p l <? List.length l)%nat
    then Some (start + first_index p l)%nat else None.
Proof.
  induction l as [|x l IH]; intros start; simpl; [reflexivity|].
  destruct (p x); simpl.
  - f_equal. lia.
  - rewrite IH. change (S (first_index p l) <? S (List.length l))%nat
      with (first_index p l <? List.length l)%nat.
    destruct (first_index p l <? List.length l)%nat; [f_equal; lia | reflexivity].
Qed.

Lemma first_index_skipn p l : forall m,
  (m <= first_index p l)%nat ->
  first_index p (skipn m l) = (first_index p l - m)%nat.
Proof.
  induction l as [|x l IH]; intros [|m] Hm; simpl in *; try reflexivity.
  - destruct (p x); reflexivity.
  - destruct (p x); [lia|]. apply IH. lia.
Qed.

Lemma existsb_first_index p l :
  existsb p l = true -> (first_index p l < List.length l)%nat.
Proof.
  induction l as [|x l IH]; simpl; [discriminate|].
  destruct (p x); simpl; [lia|]. intros H. apply IH in H. lia.
Qed.

Lemma reaches_first_index ppm max_ppm :
  reaches ppm max_ppm = true ->
  ppm = [] \/ (first_index (le_max max_ppm) ppm < List.length ppm)%nat.
Proof.
  destruct ppm as [|x l]; [now left|]. intros H. right.
  now apply existsb_first_index.
Qed.

Lemma legacy_ppm_points_first_index ppm max_ppm min_ppm :
  (min_ppm <= max_ppm)%Q -> reaches ppm max_ppm = true ->
  Legacy.ppm_points ppm max_ppm min_ppm =
    (Z.of_nat (first_index (le_max max_ppm) ppm),
     Z.of_nat (first_index (lt_min min_ppm) ppm)).
Proof.
  intros Hmm Hreach. unfold Legacy.ppm_points.
  fold (le_max max_ppm) (lt_min min_ppm).
  pose proof (first_index_start_le_end ppm max_ppm min_ppm Hmm) as Hse.
  pose proof (first_index_le (lt_min min_ppm) ppm) as Hle.
  destruct (reaches_first_index _ _ Hreach) as [->|Hlt]; [reflexivity|].
  rewrite scan_first_index.
  destruct (Nat.ltb_spec (first_index (le_max max_ppm) ppm) (List.length ppm));
    [|lia].
  rewrite Nat.add_0_l, scan_first_index, first_index_skipn, length_skipn by lia.
  set (s := first_index (le_max max_ppm) ppm) in *.
  set (e := first_index (lt_min min_ppm) ppm) in *.
  destruct (Nat.ltb_spec (e - s) (List.length ppm - s)); do 2 f_equal; lia.
Qed.

(** ** ppm_points: what it returns *)

(** C2.  On an axis that goes from high to low, with [min_ppm <= max_ppm],
    [ppm_points] returns the first index whose value is at most [max_ppm]
    and the first index from there on whose value is below [min_ppm]: no
    earlier index qualifies, the returned index qualifies when it is inside
    the array, the start is 0 when every value is at most [max_ppm] and the
    end is [len(ppm)] when no value is below [min_ppm].  On the axis
    [10, 8, 6, 4, 2] the answers for (9, 3) and (20, -5) are (1, 4) and
    (0, 5). *)
Theorem ppm_points_spec (ppm : list Q) (max_ppm min_ppm : Q) :
  decreasing ppm = true -> (min_ppm <= max_ppm)%Q ->
  exists i_start i_end : nat,
    TNTfile.ppm_points ppm max_ppm min_ppm = (Z.of_nat i_start, Z.of_nat i_end) /\
    (i_start <= i_end <= List.length ppm)%nat /\
    (forall j, (j < i_start)%nat -> ~ (nth j ppm 0 <= max_ppm)%Q) /\
    ((i_start < List.length ppm)%nat -> (nth i_start ppm 0 <= max_ppm)%Q) /\
    (forall j, (i_start <= j < i_end)%nat -> ~ (nth j ppm 0 < min_ppm)%Q) /\
    ((i_end < List.length ppm)%nat -> (nth i_end ppm 0 < min_ppm)%Q) /\
    ((forall x, In x ppm -> (x <= max_ppm)%Q) -> i_start = 0%nat) /\
    ((forall x, In x ppm -> (min_ppm <= x)%Q) -> i_end = List.length ppm) /\
    TNTfile.ppm_points axis5 9 3 = (1, 4)%Z /\
    TNTfile.ppm_points axis5 20 (-5) = (0, 5)%Z.
Proof.
  intros Hdec Hmm.
  exists (first_index (le_max max_ppm) ppm), (first_index (lt_min min_ppm) ppm).
  split; [now apply ppm_points_first_index|].
  split; [split; [now apply first_index_start_le_end | apply first_index_le]|].
  split.
  { intros j Hj Hc. apply first_index_before in Hj.
    apply le_max_le in Hc. congruence. }
  split.
  { intros H. apply le_max_le. now apply first_index_at. }
  split.
  { intros j [_ Hj] Hc. apply first_index_before in Hj.
    apply Qltb_lt in Hc. unfold lt_min in Hj. congruence. }
  split.
  { intros H. apply Qltb_lt. now apply (first_index_at (lt_min min_ppm)). }
  split.
  { intros H. apply first_index_zero. intros x Hx. apply le_max_le. auto. }
  split.
  { intros H. apply first_index_none. intros x Hx. apply Qltb_ge. auto. }
  split; reflexivity.
Qed.

Lemma ppm_points_spec_witness :
  decreasing axis5 = true /\ (3 <= 9)%Q /\
  exists i_start i_end : nat,
    TNTfile.ppm_points axis5 9 3 = (Z.of_nat i_start, Z.of_nat i_end) /\
    (i_start <= i_end <= List.length axis5)%nat.
Proof.
  split; [reflexivity|]. split; [discriminate|].
  destruct (ppm_points_spec axis5 9 3) as (s & e & H1 & H2 & _);
    [reflexivity | discriminate |].
  exists s, e. split; assumption.
Defined.

(** C9.  On an axis that goes from high to low, with [min_ppm <= max_ppm],
    the pair returned by [ppm_points] is a half-open range of the array:
    [0 <= i_start <= i_end <= len(ppm)]. *)
Theorem ppm_points_range (ppm : list Q) (max_ppm min_ppm : Q) :
  decreasing ppm = true -> (min_ppm <= max_ppm)%Q ->
  let '(i_start, i_end) := TNTfile.ppm_points ppm max_ppm min_ppm in
  (0 <= i_start /\ i_start <= i_end /\ i_end <= Z.of_nat (List.length ppm))%Z.
Proof.
  intros Hdec Hmm. rewrite ppm_points_first_index by assumption.
  pose proof (first_index_start_le_end ppm max_ppm min_ppm Hmm).
  pose proof (first_index_le (lt_min min_ppm) ppm).
  lia.
Qed.

Lemma ppm_points_range_witness :
  decreasing axis5 = true /\ (3 <= 9)%Q /\
  let '(i_start, i_end) := TNTfile.ppm_points axis5 9 3 in
  (0 <= i_start /\ i_start <= i_end /\ i_end <= Z.of_nat (List.length axis5))%Z.
Proof.
  split; [reflexivity|]. split; [discriminate|].
  apply (ppm_points_range axis5 9 3); [reflexivity | discriminate].
Defined.

(** C3, as the code has it.  On an axis that goes from high to low, with
    [min_ppm <= max_ppm] and [max_ppm] reaching the axis (the axis is empty
    or has a value that is at most [max_ppm]), the linear scans of
    src/processTNT.py and the binary searches of src/pytnt/processTNT.py
    return the same pair. *)
Theorem ppm_points_linear_eq_binary (ppm : list Q) (max_ppm min_ppm : Q) :
  decreasing ppm = true -> (min_ppm <= max_ppm)%Q ->
  reaches ppm max_ppm = true ->
  Legacy.ppm_points ppm max_ppm min_ppm = TNTfile.ppm_points ppm max_ppm min_ppm.
Proof.
  intros Hdec Hmm Hreach.
  rewrite ppm_points_first_index by assumption.
  now apply legacy_ppm_points_first_index.
Qed.

Lemma ppm_points_linear_eq_binary_witness :
  decreasing axis5 = true /\ (3 <= 9)%Q /\ reaches axis5 9 = true /\
  Legacy.ppm_points axis5 9 3 = TNTfile.ppm_points axis5 9 3.
Proof.
  split; [reflexivity|]. split; [discriminate|]. split; [reflexivity|].
  apply (ppm_points_linear_eq_binary axis5 9 3);
    [reflexivity | discriminate | reflexivity].
Defined.

(** C3, as stated, fails: with [max_ppm = 1] below the whole axis
    [10, 8, 6, 4, 2] the linear scans keep the initial start index 0 and
    answer (0, 5), the binary searches answer (5, 5). *)
Lemma ppm_points_linear_neq_binary_below_axis :
  decreasing axis5 = true /\ (0 <= 1)%Q /\
  Legacy.ppm_points axis5 1 0 = (0, 5)%Z /\
  TNTfile.ppm_points axis5 1 0 = (5, 5)%Z /\
  Legacy.ppm_points axis5 1 0 <> TNTfile.ppm_points axis5 1 0.
Proof.
  split; [reflexivity|]. split; [discriminate|].
  split; [reflexivity|]. split; [reflexivity|]. discriminate.
Qed.

(** ** n_complete_spec *)

(** C5.  [n_complete_spec] fails its assertion unless every dimension of
    [actual_npts] beyond the second is 1; when they all are, it returns
    [actual_npts[1]] if [scans == actual_scans] and [actual_npts[1] - 1]
    otherwise.  For [actual_npts = [N, 5, 1, 1]] and [scans = 8] it returns
    5 when [actual_scans = 8] and 4 when [actual_scans = 5]. *)
Theorem n_complete_spec_spec (self : TMAG_t) (d1 : Z) :
  nth_error (actual_npts self) 1 = Some d1 ->
  ((exists d, In d (skipn 2 (actual_npts self)) /\ d <> 1%Z) ->
     TNTfile.n_complete_spec self = Raise AssertionError) /\
  ((forall d, In d (skipn 2 (actual_npts self)) -> d = 1%Z) ->
     (scans self = actual_scans self ->
        TNTfile.n_complete_spec self = Ok d1) /\
     (scans self <> actual_scans self ->
        TNTfile.n_complete_spec self = Ok (d1 - 1)%Z)) /\
  (forall (N : Z) (dw : list R),
     TNTfile.n_complete_spec (mkTMAG [N; 5; 1; 1]%Z 8 8 dw) = Ok 5%Z /\
     TNTfile.n_complete_spec (mkTMAG [N; 5; 1; 1]%Z 8 5 dw) = Ok 4%Z).
Proof.
  intros Hd1. unfold TNTfile.n_complete_spec, Py.index. rewrite Hd1.
  split; [|split].
  - intros (d & Hin & Hne).
    destruct (forallb (Z.eqb 1) (skipn 2 (actual_npts self))) eqn:E;
      [|reflexivity].
    rewrite forallb_forall in E. apply E, Z.eqb_eq in Hin. congruence.
  - intros Hall.
    assert (E : forallb (Z.eqb 1) (skipn 2 (actual_npts self)) = true).
    { apply forallb_forall. intros d Hd. apply Z.eqb_eq. symmetry. auto. }
    rewrite E. split; intros Hs.
    + apply Z.eqb_eq in Hs. now rewrite Hs.
    + apply Z.eqb_neq in Hs. now rewrite Hs.
  - intros N dw. split; reflexivity.
Qed.

Lemma n_complete_spec_spec_witness :
  nth_error (actual_npts (mkTMAG [64; 5; 1; 1]%Z 8 5 [])) 1 = Some 5%Z /\
  TNTfile.n_complete_spec (mkTMAG [64; 5; 1; 1]%Z 8 5 []) = Ok 4%Z.
Proof.
  split; [reflexivity|].
  destruct (n_complete_spec_spec (mkTMAG [64; 5; 1; 1]%Z 8 5 []) 5 eq_refl)
    as (_ & Hcomplete & _).
  apply Hcomplete.
  - intros d Hd. simpl in Hd. destruct Hd as [<-|[<-|[]]]; reflexivity.
  - discriminate.
Defined.

(** ** Complex arithmetic *)

Section ComplexFacts.
Import Cx.
Local Open Scope R_scope.

Lemma Cabs_mul_expi z t : Cabs (Cmul z (Cexpi t)) = Cabs z.
Proof.
  destruct z as [a b]. unfold Cabs, Cmul, Cexpi. cbn [fst snd].
  f_equal. pose proof (sin2_cos2 t) as H. unfold Rsqr in H.
  replace ((a * cos t - b * sin t) * (a * cos t - b * sin t) +
           (a * sin t + b * cos t) * (a * sin t + b * cos t))
    with ((a * a + b * b) * (sin t * sin t + cos t * cos t)) by ring.
  rewrite H. ring.
Qed.

Lemma Csub_C0 z : Csub z C0 = z.
Proof. destruct z as [a b]. unfold Csub, C0. cbn [fst snd]. f_equal; ring. Qed.

Lemma Cscale_1 z : Cscale z 1 = z.
Proof. destruct z as [a b]. unfold Cscale. cbn [fst snd]. f_equal; ring. Qed.

Lemma Cmul_C0_l w : Cmul C0 w = C0.
Proof. unfold Cmul, C0. cbn [fst snd]. f_equal; ring. Qed.

Lemma Cadd_C0_r z : Cadd z C0 = z.
Proof. destruct z as [a b]. unfold Cadd, C0. cbn [fst snd]. f_equal; ring. Qed.

Lemma Cmul_C1_expi0 : Cmul C1 (Cexpi 0) = C1.
Proof.
  unfold Cmul, C1, Cexpi. cbn [fst snd]. rewrite cos_0, sin_0. f_equal; ring.
Qed.

Lemma Csum_zeros l : Forall (eq C0) l -> Csum l = C0.
Proof.
  induction 1 as [|z l <- _ IH]; [reflexivity|].
  cbn [Csum fold_right]. fold (Csum l). rewrite IH. apply Cadd_C0_r.
Qed.

Lemma mean_zeros l : Forall (eq C0) l -> Np.mean l = C0.
Proof.
  intros H. unfold Np.mean. rewrite (Csum_zeros l H).
  unfold Cdivr, C0. cbn [fst snd]. f_equal; unfold Rdiv; ring.
Qed.

End ComplexFacts.

(** ** Elementwise products *)

Lemma zip_with_Forall {A B D} (f : A -> B -> D) (P : A -> Prop) (Q : D -> Prop) :
  (forall x y, P x -> Q (f x y)) ->
  forall l k, Forall P l -> Forall Q (zip_with f l k).
Proof.
  intros Hf l. induction l as [|x l IH]; intros [|y k] Hl; cbn [zip_with];
    try constructor.
  - apply Hf. now inversion Hl.
  - apply IH. now inversion Hl.
Qed.

Lemma abs_zip_ramp (f g : R -> R) : forall (col : list Cx.C) (ts : list R),
  map Cx.Cabs (zip_with Cx.Cmul col (map (fun t => Cx.Cexpi (f t)) ts)) =
  map Cx.Cabs (zip_with Cx.Cmul col (map (fun t => Cx.Cexpi (g t)) ts)).
Proof.
  induction col as [|z col IH]; intros [|t ts]; cbn [zip_with map];
    try reflexivity.
  rewrite !Cabs_mul_expi. f_equal. apply IH.
Qed.

(** ** LBfft *)

(** C10.  For a fixed input array, line broadening, zero filling and DC
    offset, the moduli of the array that [LBfft] returns do not depend on
    the manual phase parameters: with [phase = p] and [ph1 = q] they are
    those obtained with [phase = 0] and [ph1 = 0] (and the call fails in
    the one case exactly when it fails in the other). *)
Theorem LBfft_abs_phase_independent (self : TMAG_t) (LB : R) (zf : nat)
    (DCoffset : option (nat -> nat -> Cx.C)) (DATA : array4) (p q : R) :
  Py.rmap abs_array (TNTfile.LBfft self LB zf (Some p) q DCoffset DATA) =
  Py.rmap abs_array (TNTfile.LBfft self LB zf (Some 0%R) 0%R DCoffset DATA).
Proof.
  unfold TNTfile.LBfft.
  destruct (Py.index (dwell self) 0) as [dw| |]; cbn [Py.bind Py.rmap];
    try reflexivity.
  destruct (fft_axis0 _ _) as [F| |]; cbn [Py.bind Py.rmap]; try reflexivity.
  unfold abs_array. cbn [shape0 columns]. do 2 f_equal.
  rewrite !map_map. apply map_ext. intros col.
  apply abs_zip_ramp.
Qed.

Lemma slice_from_last_eighth {A} (col : list A) :
  let npts := List.length col in
  Py.slice_from (Py.int_truediv (Z.of_nat npts) (-8)) col =
    if (npts <? 8)%nat then col else skipn (npts - npts / 8) col.
Proof.
  intros npts. unfold Py.slice_from, Py.int_truediv. fold npts.
  change (-8)%Z with (- (8))%Z.
  rewrite Z.quot_opp_r, Z.quot_div_nonneg by lia.
  change 8%Z with (Z.of_nat 8). rewrite <- Nat2Z.inj_div.
  destruct (Nat.ltb_spec npts 8) as [Hlt|Hge].
  - rewrite Nat.div_small by lia. reflexivity.
  - assert (1 <= npts / 8)%nat by (apply Nat.div_le_lower_bound; lia).
    pose proof (Nat.Div0.div_le_upper_bound npts 8 npts).
    destruct (Z.ltb_spec (- Z.of_nat (npts / 8)) 0); [|lia].
    f_equal. lia.
Qed.

(** ** The impulse input *)

Section Impulse.
Import Cx.
Local Open Scope R_scope.

Lemma impulse_length npts : List.length (impulse npts) = npts.
Proof. destruct npts; cbn [impulse List.length]; [|rewrite repeat_length]; reflexivity. Qed.

Lemma repeat_Forall_eq {A} (c : A) n : Forall (eq c) (repeat c n).
Proof. induction n; cbn [repeat]; constructor; auto. Qed.

(** From 8 points on, the trailing eighth of an impulse column holds
    zeros only. *)
Lemma impulse_DCoffset npts ncols i j :
  (8 <= npts)%nat -> (j < ncols)%nat ->
  TNTfile.DCoffset_estimate (impulse_array npts ncols) i j = C0.
Proof.
  intros Hn Hj. unfold TNTfile.DCoffset_estimate, impulse_array.
  cbn [shape0 columns].
  rewrite (nth_indep _ _ (impulse npts)) by (rewrite repeat_length; lia).
  rewrite nth_repeat.
  rewrite <- (impulse_length npts) at 1. rewrite slice_from_last_eighth.
  rewrite impulse_length.
  destruct (Nat.ltb_spec npts 8); [lia|].
  apply mean_zeros.
  pose proof (Nat.Div0.div_lt_upper_bound npts 8 npts).
  destruct npts as [|n]; [lia|]. cbn [impulse].
  destruct (S n - S n / 8)%nat as [|m] eqn:E; [lia|].
  cbn [skipn]. apply Forall_drop, repeat_Forall_eq.
Qed.

Lemma zip_with_Cscale_ones : forall (col : list C) (ws : list R),
  (List.length col <= List.length ws)%nat -> Forall (eq 1) ws ->
  zip_with Cscale col ws = col.
Proof.
  induction col as [|z col IH]; intros [|w ws] Hlen Hws; cbn [zip_with];
    try reflexivity; cbn [List.length] in Hlen; [lia|].
  inversion Hws as [|? ? <- Hws']; subst.
  rewrite Cscale_1. f_equal. apply IH; [lia | assumption].
Qed.

Lemma lbweight_ones (dw : R) npts :
  Forall (eq 1) (map (fun n => exp (- 0 * dw * PI * INR n)) (seq 0 npts)).
Proof.
  apply List.Forall_forall. intros w Hw. apply in_map_iff in Hw as (n & <- & _).
  replace (- 0 * dw * PI * INR n) with 0 by ring. symmetry. apply exp_0.
Qed.

Lemma imap_Csub_C0 (col : list C) :
  imap (fun (_ : nat) x => Csub x C0) col = col.
Proof.
  change (imap (const (fun x => Csub x C0)) col = col).
  rewrite imap_const. induction col as [|z col IH]; [reflexivity|].
  cbn [fmap list_fmap]. rewrite Csub_C0. f_equal. exact IH.
Qed.

(** Every Fourier coefficient of an impulse column is 1. *)
Lemma Csum_zip_zeros : forall (zs tw : list C),
  Forall (eq C0) zs -> Csum (zip_with Cmul zs tw) = C0.
Proof.
  intros zs tw H. apply Csum_zeros.
  apply (zip_with_Forall Cmul (eq C0) (eq C0)); [|exact H].
  intros x y <-. symmetry. apply Cmul_C0_l.
Qed.

Lemma dft_impulse npts :
  (1 <= npts)%nat ->
  List.length (Np.dft npts (impulse npts)) = npts /\
  Forall (eq C1) (Np.dft npts (impulse npts)).
Proof.
  intros Hn. unfold Np.dft. split; [now rewrite length_map, length_seq|].
  assert (Hcrop : firstn npts
            (impulse npts ++ repeat C0 (npts - List.length (impulse npts)))
          = impulse npts).
  { rewrite impulse_length, Nat.sub_diag. cbn [repeat]. rewrite app_nil_r.
    apply firstn_all2. rewrite impulse_length. lia. }
  rewrite Hcrop.
  apply List.Forall_forall. intros z Hz. apply in_map_iff in Hz as (k & <- & _).
  destruct npts as [|n]; [lia|]. cbn [impulse seq map zip_with Csum fold_right].
  fold (Csum (zip_with Cmul (repeat C0 n)
    (map (fun m => Cexpi (- (2 * PI * INR m * INR k / INR (S n)))) (seq 1 n)))).
  rewrite Csum_zip_zeros by apply repeat_Forall_eq.
  rewrite Cadd_C0_r.
  replace (- (2 * PI * INR 0 * INR k / INR (S n))) with 0
    by (cbn [INR]; unfold Rdiv; ring).
  symmetry. apply Cmul_C1_expi0.
Qed.

Lemma fftshift_length {A} (x : list A) : List.length (Np.fftshift x) = List.length x.
Proof.
  unfold Np.fftshift. rewrite length_app, length_skipn, length_firstn. lia.
Qed.

Lemma fftshift_Forall {A} (P : A -> Prop) (x : list A) :
  Forall P x -> Forall P (Np.fftshift x).
Proof.
  intros H. unfold Np.fftshift. apply Forall_app. split.
  - now apply Forall_drop.
  - now apply Forall_take.
Qed.

Lemma Cabs_normalised npts :
  (1 <= npts)%nat -> Cabs (Cdivr C1 (sqrt (INR npts))) = 1 / sqrt (INR npts).
Proof.
  intros Hn. unfold Cabs, Cdivr, C1. cbn [fst snd].
  assert (0 < sqrt (INR npts)).
  { apply sqrt_lt_R0. apply lt_0_INR. lia. }
  replace (1 / sqrt (INR npts) * (1 / sqrt (INR npts)) +
           0 / sqrt (INR npts) * (0 / sqrt (INR npts)))
    with (1 / sqrt (INR npts) * (1 / sqrt (INR npts)))
    by (unfold Rdiv; ring).
  apply sqrt_square. apply Rlt_le. apply Rdiv_lt_0_compat; lra.
Qed.

End Impulse.

Section ImpulseSpectrum.
Import Cx.
Local Open Scope R_scope.

Lemma lookup_repeat {A} (c x : A) n j :
  repeat c n !! j = Some x -> x = c /\ (j < n)%nat.
Proof.
  intros H. split.
  - apply list_elem_of_lookup_2, list_elem_of_In in H.
    eapply repeat_spec; eassumption.
  - apply lookup_lt_Some in H. now rewrite repeat_length in H.
Qed.

(** With no broadening and a zero DC estimate the weighted input is the
    input. *)
Lemma impulse_DATAlb (dw : R) npts ncols :
  (8 <= npts)%nat ->
  imap (fun j col =>
          zip_with Cscale
            (imap (fun i x =>
                     Csub x (TNTfile.DCoffset_estimate
                               (impulse_array npts ncols) i j)) col)
            (map (fun n => exp (- 0 * dw * PI * INR n)) (seq 0 npts)))
       (repeat (impulse npts) ncols)
  = repeat (impulse npts) ncols.
Proof.
  intros Hn.
  transitivity (imap (const (@Datatypes.id (list C))) (repeat (impulse npts) ncols)).
  - apply imap_ext. intros j col Hcol.
    apply lookup_repeat in Hcol as [-> Hj].
    change (const (@Datatypes.id (list C)) j (impulse npts)) with (impulse npts).
    transitivity (zip_with Cscale
                    (imap (fun (_ : nat) x => Csub x C0) (impulse npts))
                    (map (fun n => exp (- 0 * dw * PI * INR n)) (seq 0 npts))).
    + f_equal. apply imap_ext. intros i x _. now rewrite impulse_DCoffset.
    + rewrite imap_Csub_C0. apply zip_with_Cscale_ones.
      * now rewrite impulse_length, length_map, length_seq.
      * apply lbweight_ones.
  - rewrite imap_const. apply list_fmap_id.
Qed.

(** The column that [LBfft] makes of an impulse column. *)
Lemma impulse_column (ramp : R -> R) npts :
  (1 <= npts)%nat ->
  let out :=
    zip_with Cmul
      (map (fun z => Cdivr z (sqrt (INR npts)))
           (Np.fftshift (Np.dft npts (impulse npts))))
      (map (fun t => Cexpi (ramp t)) (Np.linspace (- 0.5) 0.5 npts)) in
  List.length out = npts /\
  Forall (fun z => Cabs z = 1 / sqrt (INR npts)) out.
Proof.
  intros Hn out. destruct (dft_impulse npts Hn) as [Hlen Hall]. split.
  - unfold out, Np.linspace.
    rewrite length_zip_with, !length_map, fftshift_length, Hlen, length_seq.
    lia.
  - unfold out. set (ts := Np.linspace _ _ _). clearbody ts.
    assert (Hnorm : Forall (fun z => Cabs z = 1 / sqrt (INR npts))
              (map (fun z => Cdivr z (sqrt (INR npts)))
                   (Np.fftshift (Np.dft npts (impulse npts))))).
    { apply Forall_map. apply fftshift_Forall.
      eapply Forall_impl; [exact Hall|]. intros z <-.
      now apply Cabs_normalised. }
    revert Hnorm. generalize (map (fun z => Cdivr z (sqrt (INR npts)))
                   (Np.fftshift (Np.dft npts (impulse npts)))).
    intros l Hl. revert ts.
    induction Hl as [|z l Hz _ IH]; intros [|t ts]; cbn [map zip_with];
      constructor.
    + now rewrite Cabs_mul_expi.
    + apply IH.
Qed.

End ImpulseSpectrum.

(** C4, as the code has it.  For an impulse input (1 at index 0 of the
    first axis, 0 elsewhere) whose first axis has [npts >= 8] points,
    [LBfft] with [LB = 0], [zf = 0], [phase = 0], [ph1 = 0] and no
    DC-offset override returns an array of the same shape whose elements
    all have modulus [1 / sqrt(npts)]. *)
Theorem LBfft_impulse (self : TMAG_t) (d0 : R) (ds : list R) (npts ncols : nat) :
  dwell self = d0 :: ds -> (8 <= npts)%nat ->
  exists out : array4,
    TNTfile.LBfft self 0%R 0 (Some 0%R) 0%R None (impulse_array npts ncols) = Ok out /\
    shape0 out = npts /\
    List.length (columns out) = ncols /\
    Forall (fun col =>
              List.length col = npts /\
              Forall (fun z => Cx.Cabs z = (1 / sqrt (INR npts))%R) col)
           (columns out).
Proof.
  intros Hdw Hn. unfold TNTfile.LBfft. rewrite Hdw.
  cbn [Py.index nth_error Py.bind].
  replace (shape0 (impulse_array npts ncols) * 2 ^ 0)%nat with npts
    by (cbn [shape0 impulse_array Nat.pow]; lia).
  cbn [shape0 columns impulse_array].
  rewrite (impulse_DATAlb d0 npts ncols Hn).
  unfold fft_axis0. destruct (Nat.ltb_spec npts 1); [lia|].
  cbn [Py.bind]. eexists. split; [reflexivity|]. cbn [shape0 columns].
  rewrite !map_repeat. split; [reflexivity|]. split; [apply repeat_length|].
  apply List.Forall_forall. intros col Hcol. apply repeat_spec in Hcol as ->.
  apply (impulse_column (fun t => (0 + 0 * t)%R) npts). lia.
Qed.

Lemma LBfft_impulse_witness :
  dwell (mkTMAG [8; 1; 1; 1]%Z 1 1 [1%R]) = [1%R] /\ (8 <= 8)%nat /\
  exists out : array4,
    TNTfile.LBfft (mkTMAG [8; 1; 1; 1]%Z 1 1 [1%R]) 0%R 0 (Some 0%R) 0%R None
      (impulse_array 8 1) = Ok out /\
    shape0 out = 8%nat.
Proof.
  split; [reflexivity|]. split; [lia|].
  destruct (LBfft_impulse (mkTMAG [8; 1; 1; 1]%Z 1 1 [1%R]) 1%R [] 8 1 eq_refl)
    as (out & Hout & Hshape & _); [lia|].
  exists out. split; assumption.
Defined.

Section OnePointImpulse.
Import Cx.
Local Open Scope R_scope.

Lemma Cabs_C0 : Cabs C0 = 0.
Proof.
  unfold Cabs, C0. cbn [fst snd].
  replace (0 * 0 + 0 * 0) with 0 by ring. apply sqrt_0.
Qed.

Lemma Cscale_C0 r : Cscale C0 r = C0.
Proof. unfold Cscale, C0. cbn [fst snd]. f_equal; ring. Qed.

Lemma Cdivr_C0 r : Cdivr C0 r = C0.
Proof. unfold Cdivr, C0, Rdiv. cbn [fst snd]. f_equal; ring. Qed.

(** The mean of a one-point impulse column is the impulse itself. *)
Lemma one_point_centered : Csub C1 (Cdivr (Csum [C1]) (INR 1)) = C0.
Proof.
  unfold Csub, Cdivr, Csum, Cadd, C1, C0. cbn [fold_right fst snd INR].
  f_equal; field.
Qed.

End OnePointImpulse.

(** C4, as stated, fails below 8 points: for the one-point impulse the
    DC estimate is the mean of the whole column, that is the impulse
    itself, so the only element of the result is 0 and not
    [1 / sqrt(1) = 1]. *)
Lemma LBfft_impulse_one_point :
  exists z : Cx.C,
    TNTfile.LBfft (mkTMAG [1; 1; 1; 1]%Z 1 1 [1%R]) 0%R 0 (Some 0%R) 0%R None
      (impulse_array 1 1) = Ok (mkArray4 1 [[z]]) /\
    Cx.Cabs z = 0%R /\
    Cx.Cabs z <> (1 / sqrt (INR 1))%R.
Proof.
  eexists. split.
  { unfold TNTfile.LBfft, impulse_array, TNTfile.DCoffset_estimate, fft_axis0,
      Np.dft, Np.fftshift, Np.linspace, Np.mean, Py.slice_from, Py.int_truediv.
    cbn -[Cx.Cmul Cx.Cexpi Cx.Cdivr Cx.Csub Cx.Cscale Cx.Cadd Cx.Csum INR exp
          sqrt PI Rmult Rplus Rminus Rdiv Ropp Rinv IZR].
    change (Z.of_nat 1 `quot` (-8))%Z with 0%Z.
    cbn -[Cx.Cmul Cx.Cexpi Cx.Cdivr Cx.Csub Cx.Cscale Cx.Cadd Cx.Csum INR exp
          sqrt PI Rmult Rplus Rminus Rdiv Ropp Rinv IZR].
    reflexivity. }
  assert (Hz : Cx.Cabs
    (Cx.Cmul
       (Cx.Cdivr
          (Cx.Cadd
             (Cx.Cmul
                (Cx.Cscale
                   (Cx.Csub Cx.C1 (Cx.Cdivr (Cx.Csum [Cx.C1]) (INR 1)))
                   (exp (- 0 * 1 * PI * INR 0)))
                (Cx.Cexpi (- (2 * PI * INR 0 * INR 0 / INR 1))))
             Cx.C0)
          (sqrt (INR 1)))
       (Cx.Cexpi (0 + 0 * (INR 0 * (0.5 - -0.5) + -0.5)))) = 0%R).
  { rewrite Cabs_mul_expi, one_point_centered, Cscale_C0, Cmul_C0_l,
      Cadd_C0_r, Cdivr_C0. apply Cabs_C0. }
  split; [exact Hz|]. intros Hc.
  assert (Hone : 0%R = (1 / sqrt (INR 1))%R) by exact (eq_trans (eq_sym Hz) Hc).
  cbn [INR] in Hone. rewrite sqrt_1 in Hone. lra.
Qed.

(** ** The magic number *)

Section Magic.

Variables (T : TNTdtypes) (file : list byte).

(** The bytes at the start of the file are not an accepted magic
number. *)
Hypothesis mismatch :
  Magic_re_match T (firstn (Magic_itemsize T) file) = false.

Lemma read_magic_rejects (st : IO.state) :
  IO.cursor st = 0%nat ->
  exists st',
    Sections.read_magic T file st = (Raise ValueError, st') /\
    IO.handle_open st' = IO.handle_open st /\
    IO.mappings st' = IO.mappings st /\
    IO.log st' = IO.log st ++ [IO.EvRead 0 (Magic_itemsize T)].
Proof using mismatch.
  intros Hpos.
  exists (IO.move (0 + List.length (firstn (Magic_itemsize T) file))
            (IO.record (IO.EvRead 0 (Magic_itemsize T)) st)).
  unfold Sections.read_magic, IO.bind, IO.read, IO.lift, frombuffer1.
  rewrite Hpos. change (skipn 0 file) with file.
  split; [|split; [reflexivity | split; reflexivity]].
  destruct (List.length (firstn (Magic_itemsize T) file) <? Magic_itemsize T)%nat;
    [reflexivity|].
  rewrite firstn_firstn, Nat.min_id, mismatch. reflexivity.
Qed.

Lemma with_open_rejects {A B} (k : list byte -> IO.t A) (k' : A -> IO.t B) :
  exists st',
    IO.bind (IO.with_open (IO.bind (Sections.read_magic T file) k)) k' IO.initial
      = (Raise ValueError, st') /\
    IO.handle_open st' = false /\
    IO.mappings st' = [] /\
    IO.log st' = [IO.EvOpen; IO.EvRead 0 (Magic_itemsize T); IO.EvClose].
Proof using mismatch.
  destruct (read_magic_rejects (IO.mkState true 0 [] [IO.EvOpen]) eq_refl)
    as (st1 & Hrun & _ & Hmap & Hlog).
  eexists. unfold IO.bind at 1. unfold IO.with_open.
  unfold IO.bind at 1. cbn [IO.initial IO.mappings IO.log app].
  rewrite Hrun. cbn [IO.handle_open IO.mappings IO.log].
  split; [reflexivity|]. split; [reflexivity|]. split; [exact Hmap|].
  rewrite Hlog. reflexivity.
Qed.

End Magic.

(** C6.  When the leading bytes of the file are not an accepted magic
number, both constructors raise the [ValueError] of the magic check (the
format error of the specification) and return no object; the handle of
the [with] block is closed, no [np.memmap] view exists, and nothing was
done to the file between opening and closing it but the read of the
magic number. *)
Theorem magic_mismatch_rejected (T : TNTdtypes) (U : utils_py)
    (file : list byte) (enc : Text.encoding) :
  Magic_re_match T (firstn (Magic_itemsize T) file) = false ->
  (exists st',
     TNTfile.__init__ T U file enc IO.initial = (Raise ValueError, st') /\
     IO.handle_open st' = false /\
     IO.mappings st' = [] /\
     IO.log st' = [IO.EvOpen; IO.EvRead 0 (Magic_itemsize T); IO.EvClose]) /\
  (exists st',
     Legacy.__init__ T file IO.initial = (Raise ValueError, st') /\
     IO.handle_open st' = false /\
     IO.mappings st' = [] /\
     IO.log st' = [IO.EvOpen; IO.EvRead 0 (Magic_itemsize T); IO.EvClose]).
Proof.
  intros Hmis. split.
  - unfold TNTfile.__init__, TNTfile.parse. now apply with_open_rejects.
  - unfold Legacy.__init__, Legacy.parse. now apply with_open_rejects.
Qed.

Lemma magic_mismatch_rejected_witness :
  Magic_re_match Sample.dtypes
    (firstn (Magic_itemsize Sample.dtypes) Sample.not_tnt) = false /\
  exists st',
    TNTfile.__init__ Sample.dtypes utils_model Sample.not_tnt Text.enc_ascii
      IO.initial = (Raise ValueError, st') /\
    IO.handle_open st' = false.
Proof.
  split; [reflexivity|].
  destruct (magic_mismatch_rejected Sample.dtypes utils_model Sample.not_tnt
              Text.enc_ascii eq_refl)
    as [(st' & Hrun & Hclosed & _) _].
  exists st'. split; assumption.
Defined.

(** ** The section table *)

Section SectionTable.

Variables (T : TNTdtypes) (enc : Text.encoding) (file : list byte).

Lemma read_payload_ok offset len flag st h st' :
  Sections.read_payload file offset len flag st = (Ok h, st') ->
  h = mkHdr offset len flag (kept_payload file (IO.cursor st) len) /\
  entry_ok h /\
  IO.cursor st' = (IO.cursor st + len)%nat.
Proof.
  unfold Sections.read_payload, kept_payload, IO.bind, IO.read, IO.seek_cur,
    IO.ret, IO.raise.
  destruct (Nat.leb_spec len 4096) as [Hle|Hgt].
  - destruct (Nat.eqb_spec (List.length (firstn len (skipn (IO.cursor st) file))) len)
      as [Hlen|Hlen]; intros H; inversion H; subst; clear H.
    split; [reflexivity|]. split.
    + split; cbn [hd_data hd_length].
      * split; [intros _; exact Hle | discriminate].
      * intros d Hd. inversion Hd; subst. exact Hlen.
    + cbn [IO.cursor IO.move]. now rewrite Hlen.
  - intros H; inversion H; subst; clear H.
    split; [reflexivity|]. split; [|reflexivity].
    split; cbn [hd_data hd_length].
    + split; [congruence | lia].
    + discriminate.
Qed.

Lemma read_payload_fuel offset len flag st :
  (Sections.read_payload file offset len flag st).1 <> OutOfFuel.
Proof.
  unfold Sections.read_payload, IO.bind, IO.read, IO.seek_cur, IO.ret, IO.raise.
  destruct (len <=? 4096)%nat; [|cbn [fst]; discriminate].
  destruct (_ =? len)%nat; cbn [fst]; discriminate.
Qed.

Lemma section_step_ok hdr st tag h next st' :
  Sections.section_step T enc file hdr st = (Ok (tag, h, next), st') ->
  let len := tlv_length (TLV_decode T hdr) in
  hd_offset h = IO.cursor st /\
  hd_length h = len /\
  hd_data h = kept_payload file (IO.cursor st) len /\
  entry_ok h /\
  Text.decode enc (tlv_tag (TLV_decode T hdr)) = Ok tag /\
  next = firstn (TLV_itemsize T) (skipn (IO.cursor st + len) file) /\
  IO.cursor st' = (IO.cursor st + len + List.length next)%nat.
Proof.
  unfold Sections.section_step. unfold IO.bind at 1. unfold IO.tell.
  unfold IO.bind at 1.
  destruct (Sections.read_payload file _ _ _ st) as [[h0| |] st1] eqn:Hpay;
    try discriminate.
  apply read_payload_ok in Hpay as (-> & Hok & Hcur).
  unfold IO.bind at 1. unfold IO.lift.
  destruct (Text.decode enc _) as [tag0| |] eqn:Hdec; try discriminate.
  unfold IO.bind, IO.read, IO.ret. intros H. inversion H; subst; clear H.
  cbn [hd_offset hd_length hd_data IO.cursor IO.move IO.record].
  rewrite Hcur. repeat split; try reflexivity; apply Hok.
Qed.

Lemma section_step_fuel hdr st :
  (Sections.section_step T enc file hdr st).1 <> OutOfFuel.
Proof.
  unfold Sections.section_step. unfold IO.bind at 1. unfold IO.tell.
  unfold IO.bind at 1.
  pose proof (read_payload_fuel (IO.cursor st)
                (tlv_length (TLV_decode T hdr))
                (negb (tlv_bool (TLV_decode T hdr) =? 0)%Z) st) as Hp.
  destruct (Sections.read_payload file _ _ _ st) as [[h0| |] st1];
    [|cbn [fst]; discriminate|now cbn [fst] in Hp].
  unfold IO.bind at 1. unfold IO.lift.
  destruct (Text.decode enc _) as [tag0| |] eqn:Hdec.
  - unfold IO.bind, IO.read, IO.ret. cbn [fst]. discriminate.
  - cbn [fst]. discriminate.
  - destruct enc; unfold Text.decode in Hdec;
      [destruct (forallb _ _) in Hdec|]; discriminate.
Qed.

(** A header of the full size goes round the loop once. *)
Lemma read_sections_step fuel tbl hdr st :
  List.length hdr = TLV_itemsize T ->
  Sections.read_sections T enc file (S fuel) tbl hdr st =
    match Sections.section_step T enc file hdr st with
    | (Ok (tag, h, next), st') =>
        Sections.read_sections T enc file fuel (<[tag := h]> tbl) next st'
    | (Raise e, st') => (Raise e, st')
    | (OutOfFuel, st') => (OutOfFuel, st')
    end.
Proof.
  intros Hlen. cbn [Sections.read_sections]. rewrite Hlen, Nat.eqb_refl.
  unfold IO.bind.
  destruct (Sections.section_step T enc file hdr st) as [[[[tag h] next]| |] st'];
    reflexivity.
Qed.

(** A shorter read ends the loop, with the table as it stands. *)
Lemma read_sections_short fuel tbl hdr st :
  List.length hdr <> TLV_itemsize T ->
  Sections.read_sections T enc file (S fuel) tbl hdr st = (Ok tbl, st).
Proof.
  intros Hlen. cbn [Sections.read_sections].
  destruct (Nat.eqb_spec (TLV_itemsize T) (List.length hdr)); [congruence|].
  reflexivity.
Qed.

Hypothesis itemsize_pos : (0 < TLV_itemsize T)%nat.

(** The fuel of [section_table] is never spent: every round of the loop
moves the cursor forward by a whole header at least. *)
Lemma read_sections_fuel fuel : forall tbl hdr st,
  (hdr <> [] -> IO.cursor st <= List.length file)%nat ->
  (List.length file + List.length hdr - IO.cursor st < fuel)%nat ->
  (Sections.read_sections T enc file fuel tbl hdr st).1 <> OutOfFuel.
Proof using itemsize_pos.
  induction fuel as [|fuel IH]; intros tbl hdr st Hin Hfuel; [lia|].
  destruct (Nat.eq_dec (List.length hdr) (TLV_itemsize T)) as [Hlen|Hlen].
  - rewrite read_sections_step by exact Hlen.
    pose proof (section_step_fuel hdr st) as Hstep.
    destruct (Sections.section_step T enc file hdr st)
      as [[[[tag h] next]| |] st'] eqn:E;
      [|cbn [fst]; discriminate|now cbn in Hstep].
    apply section_step_ok in E as (_ & _ & _ & _ & _ & Hnext & Hcur).
    assert (Hhdr : hdr <> []) by (intros ->; cbn in Hlen; lia).
    specialize (Hin Hhdr).
    assert (Hn : (List.length next <=
                  List.length file - (IO.cursor st + tlv_length (TLV_decode T hdr)))%nat).
    { rewrite Hnext, length_firstn, length_skipn. lia. }
    apply IH.
    + intros Hne. destruct next as [|b next']; [congruence|].
      cbn [List.length] in Hn, Hcur. lia.
    + lia.
  - rewrite read_sections_short by exact Hlen. cbn [fst]. discriminate.
Qed.

Lemma section_table_fuel st :
  (Sections.section_table T enc file st).1 <> OutOfFuel.
Proof using itemsize_pos.
  unfold Sections.section_table, IO.bind, IO.read.
  apply read_sections_fuel; cbn [IO.cursor IO.move IO.record].
  - intros Hne.
    assert (List.length (firstn (TLV_itemsize T) (skipn (IO.cursor st) file)) <> 0)%nat
      by (destruct (firstn _ _); [congruence | cbn; lia]).
    rewrite length_firstn, length_skipn in *. lia.
  - lia.
Qed.

End SectionTable.

(** ** Assignments to a dictionary, in order *)

Lemma assign_all_untouched (l : list (string * hdrdict)) : forall tbl key,
  ~ In key (map fst l) ->
  fold_left assign l tbl !! key = tbl !! key.
Proof.
  induction l as [|[k v] l IH]; intros tbl key Hnot; [reflexivity|].
  cbn [fold_left]. rewrite IH.
  - unfold assign. cbn [fst snd]. apply lookup_insert_ne.
    intros ->. apply Hnot. now left.
  - intros Hin. apply Hnot. now right.
Qed.

(** The last assignment to a key is the one that stays. *)
Lemma assign_all_last (before after : list (string * hdrdict)) tbl key e :
  ~ In key (map fst after) ->
  fold_left assign (before ++ (key, e) :: after) tbl !! key = Some e.
Proof.
  intros Hnot. rewrite fold_left_app. cbn [fold_left].
  rewrite assign_all_untouched by exact Hnot.
  unfold assign. cbn [fst snd]. apply lookup_insert_eq.
Qed.

Lemma assign_all_Forall (P : hdrdict -> Prop) (l : list (string * hdrdict)) :
  forall tbl,
  map_Forall (fun _ e => P e) tbl -> Forall (fun kv => P kv.2) l ->
  map_Forall (fun _ e => P e) (fold_left assign l tbl).
Proof.
  induction l as [|[k v] l IH]; intros tbl Htbl Hl; [exact Htbl|].
  cbn [fold_left]. inversion Hl; subst. apply IH; [|assumption].
  unfold assign. now apply map_Forall_insert_2.
Qed.

Lemma assign_all_origin (l : list (string * hdrdict)) : forall tbl key e,
  fold_left assign l tbl !! key = Some e ->
  In (key, e) l \/ tbl !! key = Some e.
Proof.
  induction l as [|[k v] l IH]; intros tbl key e H; [now right|].
  cbn [fold_left] in H. apply IH in H as [H|H]; [left; now right|].
  unfold assign in H. cbn [fst snd] in H.
  destruct (decide (k = key)) as [->|Hne].
  - rewrite lookup_insert_eq in H. inversion H; subst. left. now left.
  - rewrite lookup_insert_ne in H by exact Hne. now right.
Qed.

Section SectionEntries.

Variables (T : TNTdtypes) (enc : Text.encoding) (file : list byte).

(** The table the loop returns is made of its assignments, and each of
them satisfies [entry_ok]. *)
Lemma read_sections_entries fuel : forall tbl hdr st out st',
  Sections.read_sections T enc file fuel tbl hdr st = (Ok out, st') ->
  out = fold_left assign (Sections.section_entries T enc file fuel hdr st) tbl /\
  Forall (fun kv => entry_ok kv.2) (Sections.section_entries T enc file fuel hdr st).
Proof.
  induction fuel as [|fuel IH]; intros tbl hdr st out st' Hrun;
    [discriminate|].
  destruct (Nat.eq_dec (List.length hdr) (TLV_itemsize T)) as [Hlen|Hlen].
  - rewrite read_sections_step in Hrun by exact Hlen.
    cbn [Sections.section_entries]. rewrite Hlen, Nat.eqb_refl.
    destruct (Sections.section_step T enc file hdr st)
      as [[[[tag h] next]| |] st1] eqn:E; try discriminate.
    apply IH in Hrun as [-> Hall]. split; [reflexivity|].
    constructor; [|exact Hall].
    apply section_step_ok in E. cbn [snd]. tauto.
  - rewrite read_sections_short in Hrun by exact Hlen.
    inversion Hrun; subst. cbn [Sections.section_entries].
    destruct (Nat.eqb_spec (TLV_itemsize T) (List.length hdr)); [congruence|].
    split; [reflexivity | constructor].
Qed.

Lemma section_table_entries st out st' :
  Sections.section_table T enc file st = (Ok out, st') ->
  out = fold_left assign (Sections.table_entries T enc file st) ∅ /\
  Forall (fun kv => entry_ok kv.2) (Sections.table_entries T enc file st).
Proof.
  unfold Sections.section_table, Sections.table_entries, IO.bind, IO.read.
  apply read_sections_entries.
Qed.

End SectionEntries.

(** C7.  For a header structure of positive size, the loop that builds
the section table ends, on a read that is shorter than a header, with
the table built so far and without an error of its own.  When it
returns a table: every entry has a buffer exactly when its declared
length is at most 4096, and the buffer then has that length; every entry
was assigned by the loop; for each key the last assignment is the entry
that stays; and each assignment records the cursor after the header as
offset and the declared length as length, whether the payload was kept
or skipped. *)
Theorem section_table_spec (T : TNTdtypes) (enc : Text.encoding)
    (file : list byte) (st : IO.state) :
  (0 < TLV_itemsize T)%nat ->
  (Sections.section_table T enc file st).1 <> OutOfFuel /\
  (forall fuel tbl hdr st0,
     List.length hdr <> TLV_itemsize T ->
     Sections.read_sections T enc file (S fuel) tbl hdr st0 = (Ok tbl, st0)) /\
  (forall tbl st',
     Sections.section_table T enc file st = (Ok tbl, st') ->
     map_Forall (fun _ e => entry_ok e) tbl /\
     (forall key e, tbl !! key = Some e ->
        In (key, e) (Sections.table_entries T enc file st)) /\
     (forall before key e after,
        Sections.table_entries T enc file st = before ++ (key, e) :: after ->
        ~ In key (map fst after) ->
        tbl !! key = Some e)) /\
  (forall hdr st0 key e next st1,
     Sections.section_step T enc file hdr st0 = (Ok (key, e, next), st1) ->
     hd_offset e = IO.cursor st0 /\
     hd_length e = tlv_length (TLV_decode T hdr) /\
     hd_data e = kept_payload file (IO.cursor st0) (tlv_length (TLV_decode T hdr))).
Proof.
  intros Hpos. split; [now apply section_table_fuel|].
  split; [intros; now apply read_sections_short|].
  split.
  - intros tbl st' Hrun.
    apply section_table_entries in Hrun as [-> Hall].
    split; [|split].
    + apply assign_all_Forall; [apply map_Forall_empty | exact Hall].
    + intros key e H. apply assign_all_origin in H as [H|H]; [exact H|].
      rewrite lookup_empty in H. discriminate.
    + intros before key e after -> Hnot. now apply assign_all_last.
  - intros hdr st0 key e next st1 Hstep.
    apply section_step_ok in Hstep. tauto.
Qed.

Lemma section_table_spec_witness :
  (0 < TLV_itemsize Sample.dtypes)%nat /\
  exists tbl st',
    Sections.section_table Sample.dtypes Text.enc_ascii Sample.two_tags IO.initial
      = (Ok tbl, st') /\
    tbl !! "TMG2"%string = Some (mkHdr 22 4 true (Some (Sample.bytes "wxyz"))).
Proof.
  assert (Hpos : (0 < TLV_itemsize Sample.dtypes)%nat) by (cbn; lia).
  split; [exact Hpos|].
  destruct (section_table_spec Sample.dtypes Text.enc_ascii Sample.two_tags
              IO.initial Hpos) as (_ & _ & Htable & _).
  destruct (Sections.section_table Sample.dtypes Text.enc_ascii Sample.two_tags
              IO.initial) as [[tbl| |] st'] eqn:E;
    [|vm_compute in E; discriminate|vm_compute in E; discriminate].
  exists tbl, st'. split; [reflexivity|].
  destruct (Htable tbl st' eq_refl) as (_ & _ & Hlast).
  apply (Hlast [("TMG2"%string, mkHdr 9 4 true (Some (Sample.bytes "abcd")))]
               "TMG2"%string _ [("DATA"%string, mkHdr 35 5000 false None)]).
  - vm_compute. reflexivity.
  - cbn. intros [H|[]]. discriminate.
Defined.

(** ** The delay tables *)

Lemma delay_step_dropped U enc region DELAY start name delay :
  read_pascal_string U enc (Py.slice_from (Z.of_nat start - 4) region) = Ok name ->
  read_pascal_string U enc
    (Py.slice_from (Z.of_nat (start + String.length name)) region) = Ok delay ->
  (String.length delay <= 1)%nat ->
  Delay.delay_step U enc region DELAY start = Ok DELAY.
Proof.
  intros Hname Hdelay Hlen. unfold Delay.delay_step.
  rewrite Hname, Hdelay. cbn [Py.bind].
  destruct (Nat.ltb_spec 1 (String.length delay)); [lia|]. reflexivity.
Qed.

Lemma delay_step_kept U enc region DELAY start name delay values :
  read_pascal_string U enc (Py.slice_from (Z.of_nat start - 4) region) = Ok name ->
  read_pascal_string U enc
    (Py.slice_from (Z.of_nat (start + String.length name)) region) = Ok delay ->
  (1 < String.length delay)%nat ->
  convert_si U (Text.split delay) = Ok values ->
  Delay.delay_step U enc region DELAY start = Ok (<[name := values]> DELAY).
Proof.
  intros Hname Hdelay Hlen Hval. unfold Delay.delay_step.
  rewrite Hname, Hdelay. cbn [Py.bind].
  destruct (Nat.ltb_spec 1 (String.length delay)); [|lia].
  rewrite Hval. reflexivity.
Qed.

(** C1, on the code.  Whatever the two functions of utils.py are: when
the Pascal string at a match decodes to [name], the one after it decodes
to the single token "5u" and that token converts to [values], the body
of the loop does not discard the table, it stores [values] under
[name]; the test it makes is on the two characters of "5u".  With the
functions as modelled, the region that holds the table "de12:3" with
the delay string "5u" gives [DELAY = {"de12:3": [5e-6]}], also when it is
the PSEQ section of a whole file. *)
Theorem single_token_delay_table_kept (U : utils_py) (enc : Text.encoding)
    (region : list byte) (DELAY : gmap string (list Q)) (start : nat)
    (name : string) (values : list Q) :
  read_pascal_string U enc (Py.slice_from (Z.of_nat start - 4) region) = Ok name ->
  read_pascal_string U enc
    (Py.slice_from (Z.of_nat (start + String.length name)) region) = Ok "5u"%string ->
  convert_si U ["5u"%string] = Ok values ->
  Text.split "5u" = ["5u"%string] /\
  (exists DELAY',
     Delay.delay_step U enc region DELAY start = Ok DELAY' /\
     DELAY' !! name = Some values) /\
  (exists DELAY',
     Delay.delay_tables utils_model Text.enc_ascii Sample.region_5u = Ok DELAY' /\
     DELAY' !! "de12:3"%string = Some [(1 # 200000)%Q]) /\
  (exists o st',
     TNTfile.__init__ Sample.dtypes utils_model Sample.whole_5u Text.enc_ascii
       IO.initial = (Ok o, st') /\
     TNTfile.DELAY _ o !! "de12:3"%string = Some [(1 # 200000)%Q]).
Proof.
  intros Hname Hdelay Hval. split; [reflexivity|]. split; [|split].
  - exists (<[name := values]> DELAY). split; [|apply lookup_insert_eq].
    apply (delay_step_kept U enc region DELAY start name "5u"); auto.
  - eexists. split; [vm_compute; reflexivity|]. vm_compute. reflexivity.
  - eexists. eexists. split; [vm_compute; reflexivity|]. vm_compute. reflexivity.
Qed.

Lemma single_token_delay_table_kept_witness :
  read_pascal_string utils_model Text.enc_ascii
    (Py.slice_from (Z.of_nat 4 - 4) Sample.region_5u) = Ok "de12:3"%string /\
  read_pascal_string utils_model Text.enc_ascii
    (Py.slice_from (Z.of_nat (4 + String.length "de12:3")) Sample.region_5u)
    = Ok "5u"%string /\
  convert_si utils_model ["5u"%string] = Ok [(1 # 200000)%Q] /\
  exists DELAY',
    Delay.delay_step utils_model Text.enc_ascii Sample.region_5u ∅ 4 = Ok DELAY' /\
    DELAY' !! "de12:3"%string = Some [(1 # 200000)%Q].
Proof.
  split; [reflexivity|]. split; [reflexivity|]. split; [reflexivity|].
  destruct (single_token_delay_table_kept utils_model Text.enc_ascii
              Sample.region_5u ∅ 4 "de12:3" [(1 # 200000)%Q]
              eq_refl eq_refl eq_refl) as (_ & Hstep & _).
  exact Hstep.
Defined.

(** The table with three tokens, and the constructor on a whole file. *)
Example three_token_delay_table :
  exists DELAY,
    Delay.delay_tables utils_model Text.enc_ascii Sample.region_3m = Ok DELAY /\
    DELAY !! "de12:3"%string = Some [(1 # 1000)%Q; (1 # 500)%Q; (3 # 1000)%Q].
Proof.
  eexists. split; [vm_compute; reflexivity|]. vm_compute. reflexivity.
Qed.

Example init_whole_file :
  exists o st',
    TNTfile.__init__ Sample.dtypes utils_model Sample.whole Text.enc_ascii
      IO.initial = (Ok o, st') /\
    TNTfile.DELAY _ o !! "de12:3"%string = Some [(1 # 1000)%Q; (1 # 500)%Q; (3 # 1000)%Q] /\
    TNTfile.DATA _ o = (50%nat, [1; 1; 1; 1]%Z) /\
    TNTfile.n_complete_spec (TNTfile.TMAG _ o) = Ok 1%Z /\
    IO.handle_open st' = false /\
    IO.mappings st' = [(50%nat, 1%Z)].
Proof.
  eexists. eexists. split; [vm_compute; reflexivity|].
  repeat split; vm_compute; reflexivity.
Qed.

(* ===================================================================== *)
(** * Further properties *)
(* ===================================================================== *)

(** ** Integer ranges and the frequency bins *)

Lemma map_seq_offset {A} (f : nat -> A) m : forall k,
  map f (seq k m) = map (fun i => f (k + i)%nat) (seq 0 m).
Proof.
  revert f. induction m as [|m IH]; intros f k; [reflexivity|].
  cbn [seq map]. rewrite Nat.add_0_r. f_equal.
  rewrite (IH f (S k)), (IH (fun i => f (k + i)%nat) 1%nat).
  apply map_ext. intros i. f_equal. lia.
Qed.

Lemma arange_length a b : List.length (PyMore.arange a b) = Z.to_nat (b - a).
Proof. unfold PyMore.arange. now rewrite length_map, length_seq. Qed.

Lemma arange_app a b c :
  (a <= b <= c)%Z ->
  PyMore.arange a b ++ PyMore.arange b c = PyMore.arange a c.
Proof.
  intros H. unfold PyMore.arange.
  replace (Z.to_nat (c - a)) with (Z.to_nat (b - a) + Z.to_nat (c - b))%nat by lia.
  rewrite seq_app, map_app. f_equal. cbn [Nat.add].
  rewrite (map_seq_offset _ _ (Z.to_nat (b - a))).
  apply map_ext. intros i. lia.
Qed.

Lemma arange_nth a b i :
  (i < Z.to_nat (b - a))%nat ->
  nth i (PyMore.arange a b) 0%Z = (a + Z.of_nat i)%Z.
Proof.
  intros Hi. unfold PyMore.arange.
  set (f := fun j : nat => (a + Z.of_nat j)%Z).
  rewrite (nth_indep _ 0%Z (f 0%nat)) by now rewrite length_map, length_seq.
  rewrite (map_nth f), seq_nth by exact Hi. reflexivity.
Qed.

(** The shifted bins of [fftfreq] are the integers from [-(n//2)] on,
in order. *)
Lemma fftshift_fftfreq n d :
  (0 <= n)%Z ->
  Py.rmap Np.fftshift (PyMore.fftfreq n d) =
    Ok (map (fun k => (inject_Z k * (1 / (inject_Z n * d)))%Q)
            (PyMore.arange (- (n / 2)) (n - n / 2))).
Proof.
  intros Hn. unfold PyMore.fftfreq.
  destruct (Z.ltb_spec n 0); [lia|]. cbn [Py.rmap Py.bind]. f_equal.
  assert (HN : ((n - 1) / 2 + 1 = n - n / 2)%Z).
  { pose proof (Z.div_mod n 2). pose proof (Z.mod_pos_bound n 2).
    pose proof (Z.div_mod (n - 1) 2). pose proof (Z.mod_pos_bound (n - 1) 2).
    lia. }
  rewrite HN.
  assert (Hhalf : (0 <= n / 2 <= n)%Z).
  { pose proof (Z.div_mod n 2). pose proof (Z.mod_pos_bound n 2). lia. }
  set (f := fun k => (inject_Z k * (1 / (inject_Z n * d)))%Q).
  set (p1 := PyMore.arange 0 (n - n / 2)).
  set (p2 := PyMore.arange (- (n / 2)) 0).
  assert (Hp1 : List.length (map f p1) = Z.to_nat (n - n / 2))
    by (unfold p1; rewrite length_map, arange_length; f_equal; lia).
  assert (Hp2 : List.length (map f p2) = Z.to_nat (n / 2))
    by (unfold p2; rewrite length_map, arange_length; f_equal; lia).
  unfold Np.fftshift. rewrite map_app, length_app, Hp1, Hp2.
  assert (Hshift : ((Z.to_nat (n - n / 2) + Z.to_nat (n / 2))
                    - (Z.to_nat (n - n / 2) + Z.to_nat (n / 2)) / 2
                    = Z.to_nat (n - n / 2))%nat).
  { replace (Z.to_nat (n - n / 2) + Z.to_nat (n / 2))%nat with (Z.to_nat n) by lia.
    replace ((Z.to_nat n) / 2)%nat with (Z.to_nat (n / 2)); [lia|].
    change 2%nat with (Z.to_nat 2). rewrite <- Z2Nat.inj_div by lia. reflexivity. }
  rewrite Hshift, <- Hp1.
  rewrite skipn_app, firstn_app, Nat.sub_diag, skipn_all, firstn_all.
  cbn [skipn firstn]. rewrite app_nil_r. cbn [app].
  change (skipn 0 (map f p2)) with (map f p2).
  rewrite <- map_app. f_equal. unfold p1, p2. apply arange_app. lia.
Qed.

(** ** The frequency axes *)

Section Axes.

Variables (self : Methods.attrs) (altDATA : option array4).
Variables (n : Z) (dw : Q) (ds : list Q).
Hypothesis Hnpts : Methods.npts_of self altDATA = Ok n.
Hypothesis Hdwell : Methods.dwell_s self = dw :: ds.

Lemma freq_Hz_bins :
  (0 <= n)%Z ->
  Methods.freq_Hz self altDATA =
    Ok (map (hz_at self n dw) (PyMore.arange (- (n / 2)) (n - n / 2))).
Proof using Hnpts Hdwell.
  intros Hn. unfold Methods.freq_Hz. rewrite Hnpts, Hdwell.
  cbn [Py.bind Py.index nth_error].
  pose proof (fftshift_fftfreq n dw Hn) as Hf.
  destruct (PyMore.fftfreq n dw) as [f| |]; cbn [Py.rmap Py.bind] in Hf;
    try discriminate.
  inversion Hf as [Hf']. cbn [Py.bind]. rewrite Hf', map_map. reflexivity.
Qed.

End Axes.

Lemma decreasing_map_seq (G : nat -> Q) m : forall s,
  (forall i, (G (S i) <= G i)%Q) ->
  decreasing (map G (seq s m)) = true.
Proof.
  induction m as [|m IH]; intros s HG; [reflexivity|].
  cbn [seq map]. destruct m as [|m]; [reflexivity|].
  specialize (IH (S s) HG). cbn [seq map] in IH |- *.
  cbn [decreasing]. apply andb_true_iff. split; [|exact IH].
  apply Qle_bool_iff, HG.
Qed.

Lemma nth_map_seq (G : nat -> Q) m i :
  (i < m)%nat -> nth i (map G (seq 0 m)) 0%Q = G i.
Proof.
  intros Hi. rewrite (nth_indep _ 0%Q (G 0%nat)) by now rewrite length_map, length_seq.
  rewrite (map_nth G), seq_nth by exact Hi. reflexivity.
Qed.

(** A larger bin gives a smaller value, in Hz and in ppm, as soon as the
bin width and the observation frequency are positive. *)
Lemma ppm_antitone (a b v r w : Q) :
  (0 < v)%Q -> (0 < w)%Q -> (a < b)%Q ->
  (- (b * v + r) / w < - (a * v + r) / w)%Q.
Proof.
  intros Hv Hw Hab. unfold Qdiv. apply Qmult_lt_compat_r.
  - now apply Qinv_lt_0_compat.
  - assert (a * v < b * v)%Q by (apply Qmult_lt_compat_r; assumption).
    lra.
Qed.

Lemma bin_width_pos (n : Z) (dw : Q) :
  (0 < n)%Z -> (0 < dw)%Q -> (0 < 1 / (inject_Z n * dw))%Q.
Proof.
  intros Hn Hdw. unfold Qdiv. rewrite Qmult_1_l. apply Qinv_lt_0_compat.
  apply Qmult_lt_0_compat; [|exact Hdw].
  change 0%Q with (inject_Z 0). now rewrite <- Zlt_Qlt.
Qed.

(** X1.  For a dwell time different from zero, [freq_Hz] refuses a
negative number of points; otherwise the axis has [npts] points, the
point at index [i] is [-((i - npts//2) / (npts * dw) + ref_freq)], and
for a non-empty axis the point at index [npts//2] is [-ref_freq]: the
zero frequency sits in the middle.  (With a dwell time of zero the bin
width of [fftfreq] is no finite number.) *)
Theorem freq_Hz_bins_centered (self : Methods.attrs) (altDATA : option array4)
    (n : Z) (dw : Q) (ds : list Q) :
  Methods.npts_of self altDATA = Ok n ->
  Methods.dwell_s self = dw :: ds ->
  ~ (dw == 0)%Q ->
  ((n < 0)%Z -> Methods.freq_Hz self altDATA = Raise ValueError) /\
  ((0 <= n)%Z ->
   exists hz,
     Methods.freq_Hz self altDATA = Ok hz /\
     List.length hz = Z.to_nat n /\
     (forall i, (i < Z.to_nat n)%nat ->
        nth i hz 0%Q = hz_at self n dw (Z.of_nat i - n / 2)) /\
     ((0 < n)%Z ->
        (nth (Z.to_nat (n / 2)) hz 0 == - Methods.ref_freq self)%Q)).
Proof.
  intros Hnpts Hdwell _. split.
  - intros Hneg. unfold Methods.freq_Hz, PyMore.fftfreq. rewrite Hnpts, Hdwell.
    cbn [Py.bind Py.index nth_error].
    destruct (Z.ltb_spec n 0); [reflexivity | lia].
  - intros Hn. eexists. split; [eapply freq_Hz_bins; eassumption|].
    assert (Hhalf : (0 <= n / 2 <= n)%Z).
    { pose proof (Z.div_mod n 2). pose proof (Z.mod_pos_bound n 2). lia. }
    assert (Hlen : Z.to_nat (n - n / 2 - - (n / 2)) = Z.to_nat n) by (f_equal; lia).
    assert (Hnth : forall i, (i < Z.to_nat n)%nat ->
              nth i (map (hz_at self n dw) (PyMore.arange (- (n / 2)) (n - n / 2))) 0%Q
              = hz_at self n dw (Z.of_nat i - n / 2)).
    { intros i Hi. unfold PyMore.arange. rewrite map_map, Hlen.
      rewrite nth_map_seq by exact Hi. f_equal. lia. }
    split; [now rewrite length_map, arange_length|].
    split; [exact Hnth|].
    intros Hpos. rewrite Hnth.
    + rewrite Z2Nat.id, Z.sub_diag by lia. unfold hz_at.
      change (inject_Z 0) with 0%Q. rewrite Qmult_0_l, Qplus_0_l. reflexivity.
    + pose proof (Z.div_mod n 2). pose proof (Z.mod_pos_bound n 2). lia.
Qed.

Lemma freq_Hz_bins_centered_witness :
  Methods.npts_of attrs8 None = Ok 8%Z /\
  Methods.dwell_s attrs8 = [(1 # 8)%Q] /\
  ~ (1 # 8 == 0)%Q /\
  exists hz,
    Methods.freq_Hz attrs8 None = Ok hz /\
    List.length hz = Z.to_nat 8.
Proof.
  split; [reflexivity|]. split; [reflexivity|]. split; [discriminate|].
  destruct (freq_Hz_bins_centered attrs8 None 8 (1 # 8) [] eq_refl eq_refl
              ltac:(discriminate))
    as [_ Hok].
  destruct Hok as (hz & Hrun & Hlen & _); [lia|].
  exists hz. split; assumption.
Defined.

Lemma freq_ppm_form (self : Methods.attrs) (altDATA : option array4)
    (n : Z) (dw nmr : Q) (ds os : list Q) :
  Methods.npts_of self altDATA = Ok n -> (0 <= n)%Z ->
  Methods.dwell_s self = dw :: ds ->
  Methods.ob_freq self = nmr :: os ->
  Methods.freq_ppm self altDATA =
    Ok (map (ppm_at self n dw nmr) (seq 0 (Z.to_nat n))).
Proof.
  intros Hnpts Hn Hdwell Hob.
  unfold Methods.freq_ppm. rewrite Hob. cbn [Py.index nth_error Py.bind].
  rewrite (freq_Hz_bins self altDATA n dw ds Hnpts Hdwell Hn). cbn [Py.bind].
  assert (Hlen : Z.to_nat (n - n / 2 - - (n / 2)) = Z.to_nat n) by (f_equal; lia).
  unfold PyMore.arange. rewrite !map_map, Hlen. reflexivity.
Qed.

Lemma ppm_at_strict (self : Methods.attrs) (n : Z) (dw nmr : Q) (i j : nat) :
  (0 < n)%Z -> (0 < dw)%Q -> (0 < nmr)%Q -> (i < j)%nat ->
  (ppm_at self n dw nmr j < ppm_at self n dw nmr i)%Q.
Proof.
  intros Hn Hdw Hnmr Hij. unfold ppm_at, hz_at. apply ppm_antitone; auto.
  - now apply bin_width_pos.
  - rewrite <- Zlt_Qlt. lia.
Qed.

Lemma ppm_axis_decreasing (self : Methods.attrs) (n : Z) (dw nmr : Q) :
  (0 <= n)%Z -> (0 < dw)%Q -> (0 < nmr)%Q ->
  decreasing (map (ppm_at self n dw nmr) (seq 0 (Z.to_nat n))) = true.
Proof.
  intros Hn Hdw Hnmr.
  destruct (Z.eq_dec n 0%Z) as [Hz|Hne]; [rewrite Hz; reflexivity|].
  apply decreasing_map_seq. intros i.
  apply Qlt_le_weak, ppm_at_strict; auto; lia.
Qed.

(** X2.  With a positive dwell time and a positive observation
frequency, the axis that [freq_ppm] returns has [npts] points and goes
strictly from high to low. *)
Theorem freq_ppm_decreasing (self : Methods.attrs) (altDATA : option array4)
    (n : Z) (dw nmr : Q) (ds os : list Q) :
  Methods.npts_of self altDATA = Ok n -> (0 <= n)%Z ->
  Methods.dwell_s self = dw :: ds -> (0 < dw)%Q ->
  Methods.ob_freq self = nmr :: os -> (0 < nmr)%Q ->
  exists ppm,
    Methods.freq_ppm self altDATA = Ok ppm /\
    List.length ppm = Z.to_nat n /\
    decreasing ppm = true /\
    (forall i j, (i < j < Z.to_nat n)%nat -> (nth j ppm 0 < nth i ppm 0)%Q).
Proof.
  intros Hnpts Hn Hdwell Hdw Hob Hnmr.
  eexists. split; [eapply freq_ppm_form; eassumption|].
  split; [now rewrite length_map, length_seq|].
  split; [now apply ppm_axis_decreasing|].
  intros i j Hij. rewrite !nth_map_seq by lia.
  apply ppm_at_strict; auto; lia.
Qed.

Lemma freq_ppm_decreasing_witness :
  Methods.npts_of attrs8 None = Ok 8%Z /\ (0 <= 8)%Z /\
  Methods.dwell_s attrs8 = [(1 # 8)%Q] /\ (0 < 1 # 8)%Q /\
  Methods.ob_freq attrs8 = [2%Q] /\ (0 < 2)%Q /\
  exists ppm,
    Methods.freq_ppm attrs8 None = Ok ppm /\ decreasing ppm = true.
Proof.
  split; [reflexivity|]. split; [lia|]. split; [reflexivity|].
  split; [reflexivity|]. split; [reflexivity|]. split; [reflexivity|].
  destruct (freq_ppm_decreasing attrs8 None 8 (1 # 8) 2 [] []
              eq_refl ltac:(lia) eq_refl eq_refl eq_refl eq_refl)
    as (ppm & Hrun & _ & Hdec & _).
  exists ppm. split; assumption.
Defined.

(** ** The points that [ppm_points] selects *)

Lemma slice_nat {A} (s e : nat) (l : list A) :
  (s <= List.length l)%nat -> (e <= List.length l)%nat ->
  PyMore.slice (Z.of_nat s) (Z.of_nat e) l = firstn (e - s) (skipn s l).
Proof.
  intros Hs He. unfold PyMore.slice, PyMore.clamp.
  destruct (Z.ltb_spec (Z.of_nat s) 0); [lia|].
  destruct (Z.ltb_spec (Z.of_nat e) 0); [lia|].
  rewrite !Z.min_r by lia. rewrite Nat2Z.id. f_equal. lia.
Qed.

Lemma filter_none (p : Q -> bool) l :
  (forall x, In x l -> p x = false) -> List.filter p l = [].
Proof.
  induction l as [|x l IH]; intros H; [reflexivity|]. cbn [List.filter].
  rewrite (H x (or_introl eq_refl)). apply IH. intros y Hy. apply H. now right.
Qed.

Lemma filter_all (p : Q -> bool) l :
  (forall x, In x l -> p x = true) -> List.filter p l = l.
Proof.
  induction l as [|x l IH]; intros H; [reflexivity|]. cbn [List.filter].
  rewrite (H x (or_introl eq_refl)). f_equal. apply IH.
  intros y Hy. apply H. now right.
Qed.

Lemma filter_and (p q : Q -> bool) l :
  List.filter q (List.filter p l) = List.filter (fun x => p x && q x) l.
Proof.
  induction l as [|x l IH]; [reflexivity|]. cbn [List.filter].
  destruct (p x); cbn [List.filter andb]; [destruct (q x)|]; now rewrite IH.
Qed.

Lemma downward_tail p x l :
  downward p -> decreasing (x :: l) = true -> p x = true ->
  forall y, In y l -> p y = true.
Proof.
  intros Hp Hdec Hx y Hy. apply (Hp x y Hx).
  eapply decreasing_head; eassumption.
Qed.

(** On an axis that goes from high to low, the values that satisfy a
downward predicate are those from its first index on. *)
Lemma skipn_first_index p l :
  downward p -> decreasing l = true ->
  skipn (first_index p l) l = List.filter p l.
Proof.
  intros Hp. induction l as [|x l IH]; intros Hdec; [reflexivity|].
  cbn [first_index List.filter]. destruct (p x) eqn:E.
  - cbn [skipn]. f_equal. symmetry. apply filter_all.
    now apply (downward_tail p x l).
  - cbn [skipn]. apply IH. eapply decreasing_tail; eassumption.
Qed.

Lemma firstn_first_index p l :
  downward p -> decreasing l = true ->
  firstn (first_index p l) l = List.filter (fun x => negb (p x)) l.
Proof.
  intros Hp. induction l as [|x l IH]; intros Hdec; [reflexivity|].
  cbn [first_index List.filter]. destruct (p x) eqn:E; cbn [negb firstn].
  - symmetry. apply filter_none. intros y Hy.
    now rewrite (downward_tail p x l Hp Hdec E y Hy).
  - f_equal. apply IH. eapply decreasing_tail; eassumption.
Qed.

Lemma decreasing_skipn l : forall m,
  decreasing l = true -> decreasing (skipn m l) = true.
Proof.
  induction l as [|x l IH]; intros [|m] H; cbn [skipn]; auto.
  apply IH. eapply decreasing_tail; eassumption.
Qed.

Lemma first_index_skipn_any p l m :
  downward p -> decreasing l = true ->
  first_index p (skipn m l) = (first_index p l - m)%nat.
Proof.
  intros Hp Hdec.
  destruct (Nat.le_gt_cases m (first_index p l)) as [Hle|Hgt].
  - now apply first_index_skipn.
  - replace (first_index p l - m)%nat with 0%nat by lia.
    apply first_index_zero. intros x Hx.
    destruct (In_nth _ _ 0%Q Hx) as (i & Hi & <-).
    rewrite length_skipn in Hi. rewrite nth_skipn.
    apply first_index_after; auto. lia.
Qed.

Lemma ppm_points_slice ppm max_ppm min_ppm :
  decreasing ppm = true ->
  firstn (first_index (lt_min min_ppm) ppm - first_index (le_max max_ppm) ppm)
         (skipn (first_index (le_max max_ppm) ppm) ppm)
  = List.filter (in_range max_ppm min_ppm) ppm.
Proof.
  intros Hdec.
  rewrite <- (first_index_skipn_any (lt_min min_ppm) ppm
                (first_index (le_max max_ppm) ppm))
    by auto using lt_min_downward.
  rewrite firstn_first_index
    by auto using lt_min_downward, decreasing_skipn.
  rewrite skipn_first_index by auto using le_max_downward.
  apply filter_and.
Qed.

(** X3.  On an axis that goes from high to low, the slice
[ppm[i_start:i_end]] that the pair of [ppm_points] delimits holds exactly
the values [x] of the axis with [min_ppm <= x <= max_ppm], in their
order; the order of the two bounds does not matter for this. *)
Theorem ppm_points_selects_range (ppm : list Q) (max_ppm min_ppm : Q) :
  decreasing ppm = true ->
  let '(i_start, i_end) := TNTfile.ppm_points ppm max_ppm min_ppm in
  PyMore.slice i_start i_end ppm = List.filter (in_range max_ppm min_ppm) ppm /\
  (forall x, In x (PyMore.slice i_start i_end ppm) <->
             In x ppm /\ (min_ppm <= x)%Q /\ (x <= max_ppm)%Q).
Proof.
  intros Hdec. rewrite ppm_points_first_index by exact Hdec.
  rewrite slice_nat by apply first_index_le.
  rewrite ppm_points_slice by exact Hdec. split; [reflexivity|].
  intros x. rewrite List.filter_In. unfold in_range.
  rewrite andb_true_iff, negb_true_iff, le_max_le.
  unfold lt_min. rewrite Qltb_ge. tauto.
Qed.

Lemma ppm_points_selects_range_witness :
  decreasing axis5 = true /\
  PyMore.slice 1 4 axis5 = List.filter (in_range 9 3) axis5.
Proof.
  split; [reflexivity|].
  apply (ppm_points_selects_range axis5 9 3 eq_refl).
Defined.

(** X4.  The method [ppm_points] works on the axis [freq_ppm] of the
object itself.  With a positive dwell time, a positive observation
frequency and [min_ppm <= max_ppm], it returns a pair
[0 <= i_start <= i_end <= npts], and the slice [ppm[i_start:i_end]] of
that axis holds exactly its values between [min_ppm] and [max_ppm]. *)
Theorem ppm_points_on_own_axis (self : Methods.attrs)
    (altDATA : option array4) (n : Z) (dw nmr : Q) (ds os : list Q)
    (max_ppm min_ppm : Q) :
  Methods.npts_of self altDATA = Ok n -> (0 <= n)%Z ->
  Methods.dwell_s self = dw :: ds -> (0 < dw)%Q ->
  Methods.ob_freq self = nmr :: os -> (0 < nmr)%Q ->
  (min_ppm <= max_ppm)%Q ->
  exists ppm i_start i_end,
    Methods.freq_ppm self altDATA = Ok ppm /\
    Methods.ppm_points self max_ppm min_ppm altDATA = Ok (i_start, i_end) /\
    (0 <= i_start /\ i_start <= i_end /\ i_end <= n)%Z /\
    PyMore.slice i_start i_end ppm = List.filter (in_range max_ppm min_ppm) ppm.
Proof.
  intros Hnpts Hn Hdwell Hdw Hob Hnmr Hmm.
  pose proof (freq_ppm_form self altDATA n dw nmr ds os Hnpts Hn Hdwell Hob) as Hppm.
  pose proof (ppm_axis_decreasing self n dw nmr Hn Hdw Hnmr) as Hdec.
  set (ppm := map (ppm_at self n dw nmr) (seq 0 (Z.to_nat n))) in *.
  exists ppm, (Z.of_nat (first_index (le_max max_ppm) ppm)),
    (Z.of_nat (first_index (lt_min min_ppm) ppm)).
  split; [exact Hppm|]. split.
  { unfold Methods.ppm_points. rewrite Hppm. cbn [Py.bind].
    now rewrite ppm_points_first_index. }
  assert (Hlen : List.length ppm = Z.to_nat n)
    by (unfold ppm; now rewrite length_map, length_seq).
  pose proof (first_index_start_le_end ppm max_ppm min_ppm Hmm).
  pose proof (first_index_le (lt_min min_ppm) ppm).
  split; [lia|].
  rewrite slice_nat by apply first_index_le.
  now apply ppm_points_slice.
Qed.

Lemma ppm_points_on_own_axis_witness :
  Methods.npts_of attrs8 None = Ok 8%Z /\ (0 <= 8)%Z /\
  Methods.dwell_s attrs8 = [(1 # 8)%Q] /\ (0 < 1 # 8)%Q /\
  Methods.ob_freq attrs8 = [2%Q] /\ (0 < 2)%Q /\ (-1 <= 1)%Q /\
  exists i_start i_end,
    Methods.ppm_points attrs8 1 (-1) None = Ok (i_start, i_end) /\
    (0 <= i_start /\ i_start <= i_end /\ i_end <= 8)%Z.
Proof.
  split; [reflexivity|]. split; [lia|]. split; [reflexivity|].
  split; [reflexivity|]. split; [reflexivity|]. split; [reflexivity|].
  split; [discriminate|].
  destruct (ppm_points_on_own_axis attrs8 None 8 (1 # 8) 2 [] [] 1 (-1)
              eq_refl ltac:(lia) eq_refl eq_refl eq_refl eq_refl
              ltac:(discriminate))
    as (ppm & i & j & _ & Hrun & Hrange & _).
  exists i, j. split; assumption.
Defined.

(** ** The reverse indices and the linear scans *)

(** X5.  On an axis that goes from high to low, with
[min_ppm <= max_ppm], [ppm_points_reverse] returns the pair of
[ppm_points] swapped and lowered by one: [-1 <= second <= first <= n - 1].
The second index is -1 exactly when every value of the axis is at most
[max_ppm], the case the source notes as not working. *)
Theorem ppm_points_reverse_spec (ppm : list Q) (min_ppm max_ppm : Q) :
  decreasing ppm = true -> (min_ppm <= max_ppm)%Q ->
  let '(i_start, i_end) := TNTfile.ppm_points ppm max_ppm min_ppm in
  let '(a, b) := TNTfile.ppm_points_reverse ppm min_ppm max_ppm in
  a = (i_end - 1)%Z /\ b = (i_start - 1)%Z /\
  (-1 <= b /\ b <= a /\ a <= Z.of_nat (List.length ppm) - 1)%Z /\
  (b = (-1)%Z <-> forall x, In x ppm -> (x <= max_ppm)%Q).
Proof.
  intros Hdec Hmm. unfold TNTfile.ppm_points_reverse.
  rewrite ppm_points_first_index by exact Hdec.
  pose proof (first_index_start_le_end ppm max_ppm min_ppm Hmm).
  pose proof (first_index_le (lt_min min_ppm) ppm).
  split; [reflexivity|]. split; [reflexivity|]. split; [lia|].
  split.
  - intros Hb x Hx.
    assert (Hz : first_index (le_max max_ppm) ppm = 0%nat) by lia.
    destruct (In_nth _ _ 0%Q Hx) as (i & Hi & <-).
    apply le_max_le. apply first_index_after; auto using le_max_downward. lia.
  - intros Hall.
    rewrite (first_index_zero (le_max max_ppm) ppm); [reflexivity|].
    intros x Hx. apply le_max_le. auto.
Qed.

Lemma ppm_points_reverse_spec_witness :
  decreasing axis5 = true /\ (-5 <= 20)%Q /\
  let '(i_start, i_end) := TNTfile.ppm_points axis5 20 (-5) in
  let '(a, b) := TNTfile.ppm_points_reverse axis5 (-5) 20 in
  a = (i_end - 1)%Z /\ b = (i_start - 1)%Z /\
  (-1 <= b /\ b <= a /\ a <= Z.of_nat (List.length axis5) - 1)%Z /\
  (b = (-1)%Z <-> forall x, In x axis5 -> (x <= 20)%Q).
Proof.
  split; [reflexivity|]. split; [discriminate|].
  apply (ppm_points_reverse_spec axis5 (-5) 20); [reflexivity | discriminate].
Defined.

Lemma legacy_scan_from (q : Q -> bool) (ppm : list Q) (s : nat) :
  (s <= List.length ppm)%nat ->
  exists e : nat,
    match Legacy.scan q (skipn s ppm) s with
    | Some i => i
    | None => List.length ppm
    end = e /\
    (s <= e <= List.length ppm)%nat /\
    (forall j, (s <= j < e)%nat -> q (nth j ppm 0%Q) = false) /\
    ((e < List.length ppm)%nat -> q (nth e ppm 0%Q) = true).
Proof.
  intros Hs. rewrite scan_first_index, length_skipn.
  pose proof (first_index_le q (skipn s ppm)) as Hle.
  rewrite length_skipn in Hle.
  assert (Hbefore : forall j, (s <= j < s + first_index q (skipn s ppm))%nat ->
            q (nth j ppm 0%Q) = false).
  { intros j Hj. replace j with (s + (j - s))%nat by lia.
    rewrite <- nth_skipn. apply first_index_before. lia. }
  destruct (Nat.ltb_spec (first_index q (skipn s ppm)) (List.length ppm - s))
    as [Hlt|Hge]; eexists; (split; [reflexivity|]).
  - split; [lia|]. split; [exact Hbefore|]. intros _.
    rewrite <- nth_skipn. apply first_index_at. rewrite length_skipn. lia.
  - split; [lia|]. split; [|lia]. intros j Hj. apply Hbefore. lia.
Qed.

(** X6.  The linear scans of the earlier [ppm_points] need no order on
the axis.  On every axis they return [0 <= i_start <= i_end <= n] where
no index before [i_start] has a value at most [max_ppm], [i_start] is an
index with such a value when there is one and 0 when there is none, no
index from [i_start] up to [i_end] has a value below [min_ppm], and
[i_end], when inside the axis, has one. *)
Theorem legacy_ppm_points_any_axis (ppm : list Q) (max_ppm min_ppm : Q) :
  exists s e : nat,
    Legacy.ppm_points ppm max_ppm min_ppm = (Z.of_nat s, Z.of_nat e) /\
    (s <= e <= List.length ppm)%nat /\
    (forall j, (j < s)%nat -> ~ (nth j ppm 0 <= max_ppm)%Q) /\
    ((exists x, In x ppm /\ (x <= max_ppm)%Q) ->
       (s < List.length ppm)%nat /\ (nth s ppm 0 <= max_ppm)%Q) /\
    ((forall x, In x ppm -> (max_ppm < x)%Q) -> s = 0%nat) /\
    (forall j, (s <= j < e)%nat -> ~ (nth j ppm 0 < min_ppm)%Q) /\
    ((e < List.length ppm)%nat -> (nth e ppm 0 < min_ppm)%Q).
Proof.
  unfold Legacy.ppm_points. fold (le_max max_ppm) (lt_min min_ppm).
  rewrite scan_first_index, Nat.add_0_l.
  pose proof (first_index_le (le_max max_ppm) ppm) as Hle.
  set (fs := first_index (le_max max_ppm) ppm) in *.
  set (s := if (fs <? List.length ppm)%nat then fs else 0%nat).
  assert (Hs : (s <= List.length ppm)%nat)
    by (unfold s; destruct (fs <? List.length ppm)%nat; lia).
  replace (match (if (fs <? List.length ppm)%nat then Some fs else None) with
           | Some i => i | None => 0%nat end) with s
    by (unfold s; now destruct (fs <? List.length ppm)%nat).
  destruct (legacy_scan_from (lt_min min_ppm) ppm s Hs)
    as (e & He & Hse & Hbefore & Hat).
  exists s, e. rewrite He. split; [reflexivity|]. split; [exact Hse|].
  split.
  { intros j Hj Hc. apply le_max_le in Hc.
    rewrite first_index_before in Hc; [discriminate|].
    unfold s in Hj. fold fs. destruct (fs <? List.length ppm)%nat; lia. }
  split.
  { intros (x & Hx & Hxm).
    assert (Hex : existsb (le_max max_ppm) ppm = true).
    { apply existsb_exists. exists x. split; [exact Hx | now apply le_max_le]. }
    apply existsb_first_index in Hex. fold fs in Hex.
    unfold s. destruct (Nat.ltb_spec fs (List.length ppm)); [|lia].
    split; [lia|]. apply le_max_le. now apply first_index_at. }
  split.
  { intros Hall. unfold s.
    destruct (Nat.ltb_spec fs (List.length ppm)) as [Hlt|]; [|reflexivity].
    pose proof (first_index_at (le_max max_ppm) ppm Hlt) as Hc.
    apply le_max_le in Hc. fold fs in Hc.
    specialize (Hall (nth fs ppm 0%Q) (nth_In _ _ Hlt)).
    exfalso. eapply Qlt_not_le; eassumption. }
  split.
  { intros j Hj Hc. apply Qltb_lt in Hc. unfold lt_min in Hbefore.
    rewrite Hbefore in Hc by exact Hj. discriminate. }
  intros Hlt. apply Qltb_lt. now apply Hat.
Qed.

(** X7.  When [max_ppm] is below every value of the axis and
[min_ppm <= max_ppm], the earlier [ppm_points] answers [(0, n)], the
whole axis, while the current one, on an axis that goes from high to
low, answers [(n, n)], the empty range. *)
Theorem ppm_points_below_axis (ppm : list Q) (max_ppm min_ppm : Q) :
  (forall x, In x ppm -> (max_ppm < x)%Q) -> (min_ppm <= max_ppm)%Q ->
  Legacy.ppm_points ppm max_ppm min_ppm = (0, Z.of_nat (List.length ppm))%Z /\
  (decreasing ppm = true ->
   TNTfile.ppm_points ppm max_ppm min_ppm =
     (Z.of_nat (List.length ppm), Z.of_nat (List.length ppm))).
Proof.
  intros Hall Hmm.
  assert (Hs : first_index (le_max max_ppm) ppm = List.length ppm).
  { apply first_index_none. intros x Hx. apply le_max_gt. auto. }
  assert (He : first_index (lt_min min_ppm) ppm = List.length ppm).
  { apply first_index_none. intros x Hx. apply Qltb_ge.
    apply Qlt_le_weak. eapply Qle_lt_trans; [exact Hmm | auto]. }
  split.
  - unfold Legacy.ppm_points. fold (le_max max_ppm) (lt_min min_ppm).
    rewrite scan_first_index, Hs, Nat.ltb_irrefl. cbv iota beta.
    change (skipn 0 ppm) with ppm.
    rewrite scan_first_index, He, Nat.ltb_irrefl. reflexivity.
  - intros Hdec. rewrite ppm_points_first_index by exact Hdec.
    now rewrite Hs, He.
Qed.

Lemma ppm_points_below_axis_witness :
  (forall x, In x axis5 -> (1 < x)%Q) /\ (0 <= 1)%Q /\
  Legacy.ppm_points axis5 1 0 = (0, Z.of_nat (List.length axis5))%Z.
Proof.
  assert (H : forall x, In x axis5 -> (1 < x)%Q).
  { intros x Hx. cbn in Hx.
    destruct Hx as [<-|[<-|[<-|[<-|[<-|[]]]]]]; reflexivity. }
  split; [exact H|]. split; [discriminate|].
  apply (ppm_points_below_axis axis5 1 0 H). discriminate.
Defined.

(** ** The times of the spectra *)





(** ** The shape of the spectrum *)

Lemma Forall_map_imap {A B D} (P : D -> Prop) (f : B -> D)
    (g : nat -> A -> B) (l : list A) :
  (forall j x, l !! j = Some x -> P (f (g j x))) ->
  Forall P (map f (imap g l)).
Proof.
  revert g. induction l as [|x l IH]; intros g H; [constructor|].
  cbn [imap map]. constructor.
  - apply (H 0%nat x). reflexivity.
  - apply IH. intros j y Hy. apply (H (S j) y). exact Hy.
Qed.

Lemma dft_length n a : List.length (Np.dft n a) = n.
Proof. unfold Np.dft. now rewrite length_map, length_seq. Qed.

Lemma linspace_length a b n : List.length (Np.linspace a b n) = n.
Proof. unfold Np.linspace. now rewrite length_map, length_seq. Qed.

Lemma npts_ft_pos npts zf : (0 < npts)%nat -> (npts * 2 ^ zf <? 1)%nat = false.
Proof.
  intros H. apply Nat.ltb_ge.
  assert (0 < 2 ^ zf)%nat by (apply Nat.neq_0_lt_0, Nat.pow_nonzero; lia).
  nia.
Qed.

(** X9.  [LBfft] refuses an input whose first axis is empty (the
[ValueError] of [np.fft.fft]).  Otherwise, whatever the broadening, the
phase and the DC offset, it returns an array with as many columns as the
input, whose first axis has [npts * 2**zf] points in every column. *)
Theorem LBfft_shape (self : TMAG_t) (LB : R) (zf : nat) (phase : option R)
    (ph1 : R) (DCoffset : option (nat -> nat -> Cx.C)) (DATA : array4)
    (d0 : R) (ds : list R) :
  dwell self = d0 :: ds ->
  (shape0 DATA = 0%nat ->
     TNTfile.LBfft self LB zf phase ph1 DCoffset DATA = Raise ValueError) /\
  ((0 < shape0 DATA)%nat ->
   exists out,
     TNTfile.LBfft self LB zf phase ph1 DCoffset DATA = Ok out /\
     shape0 out = (shape0 DATA * 2 ^ zf)%nat /\
     List.length (columns out) = List.length (columns DATA) /\
     Forall (fun col => List.length col = (shape0 DATA * 2 ^ zf)%nat)
            (columns out)).
Proof.
  intros Hdw. unfold TNTfile.LBfft. rewrite Hdw.
  cbn [Py.index nth_error Py.bind]. unfold fft_axis0. split.
  - intros ->. reflexivity.
  - intros Hpos. rewrite (npts_ft_pos _ zf Hpos). cbn [Py.bind].
    set (n := (shape0 DATA * 2 ^ zf)%nat).
    eexists. split; [reflexivity|]. cbn [shape0 columns].
    split; [reflexivity|].
    destruct phase as [p|].
    + rewrite !map_map. split; [now rewrite length_map, length_imap|].
      apply Forall_map_imap. intros j col _.
      rewrite length_zip_with, !length_map, fftshift_length, dft_length,
        linspace_length. lia.
    + set (rot := Cx.Cexpi _). clearbody rot. rewrite !map_map.
      split; [now rewrite length_map, length_imap|].
      apply Forall_map_imap. intros j col _.
      now rewrite !length_map, fftshift_length, dft_length.
Qed.

Lemma LBfft_shape_witness :
  dwell (mkTMAG [8; 1; 1; 1]%Z 1 1 [1%R]) = [1%R] /\
  (0 < shape0 (impulse_array 8 3))%nat /\
  exists out,
    TNTfile.LBfft (mkTMAG [8; 1; 1; 1]%Z 1 1 [1%R]) 2%R 1 None 0%R None
      (impulse_array 8 3) = Ok out /\
    shape0 out = (shape0 (impulse_array 8 3) * 2 ^ 1)%nat.
Proof.
  split; [reflexivity|].
  assert (Hpos : (0 < shape0 (impulse_array 8 3))%nat) by (cbn; lia).
  split; [exact Hpos|].
  destruct (LBfft_shape (mkTMAG [8; 1; 1; 1]%Z 1 1 [1%R]) 2%R 1 None 0%R None
              (impulse_array 8 3) 1%R [] eq_refl) as [_ Hok].
  destruct (Hok Hpos) as (out & Hrun & Hshape & _).
  exists out. split; assumption.
Defined.

(** ** Removal of a constant offset *)

Section ConstantOffset.
Import Cx.
Local Open Scope R_scope.

Lemma Csum_repeat (c : C) m :
  Csum (repeat c m) = (INR m * c.1, INR m * c.2).
Proof.
  induction m as [|m IH].
  - cbn [repeat Csum fold_right INR]. unfold C0. f_equal; ring.
  - change (repeat c (S m)) with (c :: repeat c m).
    cbn [Csum fold_right]. fold (Csum (repeat c m)). rewrite IH, S_INR.
    unfold Cadd. cbn [fst snd]. f_equal; ring.
Qed.

Lemma mean_repeat (c : C) m : (0 < m)%nat -> Np.mean (repeat c m) = c.
Proof.
  intros Hm. unfold Np.mean. rewrite Csum_repeat, repeat_length.
  assert (INR m <> 0) by (apply not_0_INR; lia).
  destruct c as [a b]. unfold Cdivr. cbn [fst snd]. f_equal; field; assumption.
Qed.

Lemma skipn_repeat {A} (c : A) n : forall k,
  skipn k (repeat c n) = repeat c (n - k).
Proof.
  induction n as [|n IH]; intros [|k]; cbn [repeat skipn Nat.sub];
    try reflexivity.
  apply IH.
Qed.

(** The estimate of the DC offset of a constant column is its value. *)
Lemma constant_DCoffset (DATA : array4) i j c :
  (0 < shape0 DATA)%nat ->
  columns DATA !! j = Some (repeat c (shape0 DATA)) ->
  TNTfile.DCoffset_estimate DATA i j = c.
Proof.
  intros Hpos Hcol. unfold TNTfile.DCoffset_estimate.
  rewrite (nth_lookup_Some _ _ _ _ Hcol).
  set (npts := shape0 DATA) in *.
  rewrite <- (repeat_length c npts) at 1.
  rewrite slice_from_last_eighth, repeat_length.
  destruct (Nat.ltb_spec npts 8) as [Hlt|Hge].
  - now apply mean_repeat.
  - rewrite skipn_repeat. apply mean_repeat.
    assert (1 <= npts / 8)%nat by (apply Nat.div_le_lower_bound; lia).
    pose proof (Nat.Div0.div_le_upper_bound npts 8 npts). lia.
Qed.

Lemma Csub_diag z : Csub z z = C0.
Proof. destruct z as [a b]. unfold Csub, C0. cbn [fst snd]. f_equal; ring. Qed.

Lemma imap_centered (f : nat -> C) c n :
  (forall i, f i = c) ->
  Forall (eq C0) (imap (fun i x => Csub x (f i)) (repeat c n)).
Proof.
  intros Hf.
  rewrite (imap_ext _ (const (fun x => Csub x c)))
    by (intros i x _; unfold const; now rewrite Hf).
  rewrite imap_const. induction n as [|n IH]; cbn [repeat fmap list_fmap].
  - constructor.
  - constructor; [symmetry; apply Csub_diag | exact IH].
Qed.

Lemma dft_zeros n a : Forall (eq C0) a -> Forall (eq C0) (Np.dft n a).
Proof.
  intros Ha. unfold Np.dft. apply List.Forall_forall. intros z Hz.
  apply in_map_iff in Hz as (k & <- & _). symmetry. apply Csum_zip_zeros.
  apply Forall_take. apply Forall_app. split; [exact Ha|].
  apply repeat_Forall_eq.
Qed.

Lemma spectrum_zeros (n : nat) (s : R) (col : list C) :
  Forall (eq C0) col ->
  Forall (eq C0) (map (fun z => Cdivr z s) (Np.fftshift (Np.dft n col))).
Proof.
  intros Hcol. apply Forall_map. apply fftshift_Forall.
  eapply Forall_impl; [apply dft_zeros; exact Hcol|].
  intros z <-. symmetry. apply Cdivr_C0.
Qed.

End ConstantOffset.

(** X10.  A constant input is removed entirely: when every column of
the input holds one value at all its [npts >= 1] points and no DC offset
is given, every element of the array that [LBfft] returns is 0, for
every broadening, zero filling and phase setting. *)
Theorem LBfft_constant_input (self : TMAG_t) (LB : R) (zf : nat)
    (phase : option R) (ph1 : R) (DATA : array4) (d0 : R) (ds : list R) :
  dwell self = d0 :: ds ->
  (0 < shape0 DATA)%nat ->
  Forall (constant_column (shape0 DATA)) (columns DATA) ->
  exists out,
    TNTfile.LBfft self LB zf phase ph1 None DATA = Ok out /\
    Forall (Forall (eq Cx.C0)) (columns out).
Proof.
  intros Hdw Hpos Hconst. unfold TNTfile.LBfft. rewrite Hdw.
  cbn [Py.index nth_error Py.bind]. unfold fft_axis0.
  rewrite (npts_ft_pos _ zf Hpos). cbn [Py.bind].
  eexists. split; [reflexivity|]. cbn [columns].
  assert (Hlb : forall j col, columns DATA !! j = Some col ->
            Forall (eq Cx.C0)
              (zip_with Cx.Cscale
                 (imap (fun i x => Cx.Csub x (TNTfile.DCoffset_estimate DATA i j)) col)
                 (map (fun n => exp (- LB * d0 * PI * INR n)) (seq 0 (shape0 DATA))))).
  { intros j col Hcol.
    assert (Hc : constant_column (shape0 DATA) col).
    { rewrite List.Forall_forall in Hconst. apply Hconst.
      apply list_elem_of_In. eapply list_elem_of_lookup_2; eassumption. }
    destruct Hc as [c ->].
    apply (zip_with_Forall Cx.Cscale (eq Cx.C0) (eq Cx.C0)).
    - intros x y <-. symmetry. apply Cscale_C0.
    - apply imap_centered. intros i. now apply constant_DCoffset. }
  destruct phase as [p|].
  - rewrite !map_map. apply Forall_map_imap. intros j col Hcol.
    apply (zip_with_Forall Cx.Cmul (eq Cx.C0) (eq Cx.C0)).
    + intros x y <-. symmetry. apply Cmul_C0_l.
    + apply spectrum_zeros. now apply (Hlb j).
  - set (rot := Cx.Cexpi _). clearbody rot. rewrite !map_map.
    apply Forall_map_imap. intros j col Hcol. apply Forall_map.
    eapply Forall_impl; [apply spectrum_zeros, (Hlb j); exact Hcol|].
    intros z <-. symmetry. apply Cmul_C0_l.
Qed.

Lemma LBfft_constant_input_witness :
  dwell (mkTMAG [2; 1; 1; 1]%Z 1 1 [1%R]) = [1%R] /\
  (0 < shape0 (mkArray4 2 [repeat Cx.C1 2]))%nat /\
  Forall (constant_column 2) [repeat Cx.C1 2] /\
  exists out,
    TNTfile.LBfft (mkTMAG [2; 1; 1; 1]%Z 1 1 [1%R]) 1%R 0 None 0%R None
      (mkArray4 2 [repeat Cx.C1 2]) = Ok out /\
    Forall (Forall (eq Cx.C0)) (columns out).
Proof.
  assert (Hc : Forall (constant_column 2) [repeat Cx.C1 2]).
  { constructor; [exists Cx.C1; reflexivity | constructor]. }
  split; [reflexivity|]. split; [cbn; lia|]. split; [exact Hc|].
  apply (LBfft_constant_input (mkTMAG [2; 1; 1; 1]%Z 1 1 [1%R]) 1%R 0 None 0%R
           (mkArray4 2 [repeat Cx.C1 2]) 1%R [] eq_refl); [cbn; lia | exact Hc].
Defined.

(** ** Manual phases add up *)

Section PhaseRotation.
Import Cx.
Local Open Scope R_scope.

Lemma Cmul_assoc x y z : Cmul (Cmul x y) z = Cmul x (Cmul y z).
Proof.
  destruct x, y, z. unfold Cmul. cbn [fst snd]. f_equal; ring.
Qed.

Lemma Cexpi_add a b : Cmul (Cexpi a) (Cexpi b) = Cexpi (a + b).
Proof.
  unfold Cmul, Cexpi. cbn [fst snd]. rewrite cos_plus, sin_plus.
  f_equal; ring.
Qed.

Lemma rotate_ramp (p1 p2 q : R) : forall (col : list C) (ts : list R),
  map (fun z => Cmul z (Cexpi p2))
      (zip_with Cmul col (map (fun t => Cexpi (p1 + q * t)) ts))
  = zip_with Cmul col (map (fun t => Cexpi (p1 + p2 + q * t)) ts).
Proof.
  induction col as [|z col IH]; intros [|t ts]; cbn [zip_with map];
    try reflexivity.
  rewrite IH. f_equal. rewrite Cmul_assoc, Cexpi_add. do 2 f_equal. ring.
Qed.

End PhaseRotation.

(** X11.  The manual zero-order phase is a rotation of the whole
spectrum, and rotations add up: [LBfft] with [phase = p1 + p2] returns
the array it returns with [phase = p1], times [exp(1j * p2)], for the
same first-order phase and the same other arguments (and it fails in the
one case exactly when it fails in the other). *)
Theorem LBfft_phase_rotation (self : TMAG_t) (LB : R) (zf : nat)
    (DCoffset : option (nat -> nat -> Cx.C)) (DATA : array4) (p1 p2 q : R) :
  TNTfile.LBfft self LB zf (Some (p1 + p2)%R) q DCoffset DATA =
  Py.rmap (rotate p2) (TNTfile.LBfft self LB zf (Some p1) q DCoffset DATA).
Proof.
  unfold TNTfile.LBfft.
  destruct (Py.index (dwell self) 0) as [dw| |]; cbn [Py.bind Py.rmap];
    try reflexivity.
  destruct (fft_axis0 _ _) as [F| |]; cbn [Py.bind Py.rmap]; try reflexivity.
  unfold rotate. cbn [shape0 columns]. do 2 f_equal.
  rewrite !map_map. apply map_ext. intros col.
  symmetry. apply rotate_ramp.
Qed.

(** ** What the constructors do to the file *)

Lemma bind_Ok {A B} (c : IO.t A) (k : A -> IO.t B) st b st' :
  IO.bind c k st = (Ok b, st') ->
  exists a st1, c st = (Ok a, st1) /\ k a st1 = (Ok b, st').
Proof.
  unfold IO.bind. destruct (c st) as [[a| |] st1]; try discriminate.
  intros H. eauto.
Qed.

Lemma keeps_bind {A B} (c : IO.t A) (k : A -> IO.t B) :
  keeps_world c -> (forall a, keeps_world (k a)) -> keeps_world (IO.bind c k).
Proof.
  intros Hc Hk st. unfold IO.bind. specialize (Hc st).
  destruct (c st) as [[a| |] st1]; cbn [snd] in *; try exact Hc.
  destruct (Hk a st1) as [H1 H2]. destruct Hc as [H3 H4].
  split; congruence.
Qed.

Lemma keeps_ret {A} (a : A) : keeps_world (IO.ret a).
Proof. intros st. split; reflexivity. Qed.

Lemma keeps_raise {A} e : keeps_world (@IO.raise A e).
Proof. intros st. split; reflexivity. Qed.

Lemma keeps_lift {A} (r : result A) : keeps_world (IO.lift r).
Proof. intros st. split; reflexivity. Qed.

Lemma keeps_read file n : keeps_world (IO.read file n).
Proof. intros st. split; reflexivity. Qed.

Lemma keeps_read_all file : keeps_world (IO.read_all file).
Proof. intros st. split; reflexivity. Qed.

Lemma keeps_tell : keeps_world IO.tell.
Proof. intros st. split; reflexivity. Qed.

Lemma keeps_seek n : keeps_world (IO.seek n).
Proof. intros st. split; reflexivity. Qed.

Lemma keeps_seek_cur n : keeps_world (IO.seek_cur n).
Proof. intros st. split; reflexivity. Qed.

Lemma keeps_out_of_fuel {A} : keeps_world (@IO.out_of_fuel A).
Proof. intros st. split; reflexivity. Qed.

Create HintDb keeps.

#[local] Hint Resolve keeps_ret keeps_raise keeps_lift keeps_read
  keeps_read_all keeps_tell keeps_seek keeps_seek_cur keeps_out_of_fuel
  : keeps.

Ltac keeps_step :=
  repeat first
    [ apply keeps_bind; [|intros ?]
    | solve [auto with keeps]
    | match goal with
      | |- keeps_world (if ?b then _ else _) => destruct b
      | |- keeps_world (match ?x with _ => _ end) => destruct x
      end ].

Section KeepsWorld.

Variables (T : TNTdtypes) (enc : Text.encoding) (file : list byte).

Lemma keeps_read_magic : keeps_world (Sections.read_magic T file).
Proof. unfold Sections.read_magic. keeps_step. Qed.

Lemma keeps_section_step hdr :
  keeps_world (Sections.section_step T enc file hdr).
Proof. unfold Sections.section_step, Sections.read_payload. keeps_step. Qed.

Lemma keeps_read_sections fuel : forall tbl hdr,
  keeps_world (Sections.read_sections T enc file fuel tbl hdr).
Proof.
  induction fuel as [|fuel IH]; intros tbl hdr; cbn [Sections.read_sections].
  - auto with keeps.
  - destruct (_ =? _)%nat; [|auto with keeps].
    apply keeps_bind; [apply keeps_section_step|].
    intros [[tag h] next]. apply IH.
Qed.

Lemma keeps_section_table : keeps_world (Sections.section_table T enc file).
Proof.
  unfold Sections.section_table.
  apply keeps_bind; [auto with keeps | intros hdr; apply keeps_read_sections].
Qed.

End KeepsWorld.

Lemma keeps_parse T U file enc : keeps_world (TNTfile.parse T U file enc).
Proof.
  unfold TNTfile.parse.
  apply keeps_bind; [apply keeps_read_magic | intros m].
  apply keeps_bind; [apply keeps_section_table | intros tbl].
  keeps_step.
Qed.

Lemma keeps_legacy_parse T file : keeps_world (Legacy.parse T file).
Proof.
  unfold Legacy.parse.
  apply keeps_bind; [apply keeps_read_magic | intros m].
  apply keeps_bind; [apply keeps_section_table | intros tbl].
  keeps_step.
Qed.

(** After the [with] block the handle is closed and no map was made. *)
Lemma with_open_closed {A} (body : IO.t A) st :
  keeps_world body ->
  IO.handle_open (IO.with_open body st).2 = false /\
  IO.mappings (IO.with_open body st).2 = IO.mappings st.
Proof.
  intros Hk. unfold IO.with_open.
  specialize (Hk (IO.mkState true 0 (IO.mappings st) (IO.log st ++ [IO.EvOpen]))).
  destruct (body _) as [r st2]. cbn [snd IO.handle_open IO.mappings] in *.
  split; [reflexivity | apply Hk].
Qed.

(** The statements after the [with] block leave the handle alone and
make one map at most. *)
Lemma load_records_world T file tbl st :
  let out := Sections.load_records T file tbl st in
  IO.handle_open out.2 = IO.handle_open st /\
  (IO.mappings out.2 = IO.mappings st \/
   exists m, IO.mappings out.2 = IO.mappings st ++ [m]).
Proof.
  unfold Sections.load_records, IO.bind, IO.lift, IO.memmap, IO.raise, IO.ret.
  destruct (Sections.load_struct tbl "TMAG" (TMAG_itemsize T) (TMAG_decode T))
    as [tm| |]; cbn [snd]; [|split; [reflexivity | left; reflexivity]..].
  destruct (getitem tbl "DATA") as [sec| |]; cbn [snd];
    [|split; [reflexivity | left; reflexivity]..].
  destruct (negb (Z.of_nat (hd_length sec) =? _)%Z); cbn [snd];
    [split; [reflexivity | left; reflexivity]|].
  destruct (_ || _); cbn [snd]; [split; [reflexivity | left; reflexivity]|].
  destruct (negb (forallb _ _)); cbn [snd IO.handle_open IO.mappings];
    [split; [reflexivity | right; eexists; reflexivity]|].
  destruct (Sections.load_struct tbl "TMG2" (TMG2_itemsize T) (TMG2_decode T))
    as [t2| |]; cbn [snd IO.handle_open IO.mappings];
    (split; [reflexivity | right; eexists; reflexivity]).
Qed.

Lemma init_world T U file enc r st' :
  TNTfile.__init__ T U file enc IO.initial = (r, st') ->
  IO.handle_open st' = false /\
  (IO.mappings st' = [] \/ exists m, IO.mappings st' = [m]).
Proof.
  unfold TNTfile.__init__, IO.bind.
  destruct (with_open_closed (TNTfile.parse T U file enc) IO.initial
              (keeps_parse T U file enc)) as [Hopen Hmaps].
  cbn [IO.initial IO.mappings] in Hmaps.
  destruct (IO.with_open _ IO.initial) as [[[[m tbl] D]| |] st1];
    cbn [snd] in *;
    [|intros H; inversion H; subst; split; [exact Hopen | left; exact Hmaps]..].
  pose proof (load_records_world T file tbl st1) as Hrec.
  cbv zeta in Hrec. rewrite Hopen, Hmaps in Hrec.
  destruct (Sections.load_records T file tbl st1) as [[[[tm d] t2]| |] st2];
    cbn [snd IO.ret] in *; intros H; inversion H; subst; exact Hrec.
Qed.

Lemma legacy_init_world T file r st' :
  Legacy.__init__ T file IO.initial = (r, st') ->
  IO.handle_open st' = false /\
  (IO.mappings st' = [] \/ exists m, IO.mappings st' = [m]).
Proof.
  unfold Legacy.__init__, IO.bind.
  destruct (with_open_closed (Legacy.parse T file) IO.initial
              (keeps_legacy_parse T file)) as [Hopen Hmaps].
  cbn [IO.initial IO.mappings] in Hmaps.
  destruct (IO.with_open _ IO.initial) as [[[m tbl]| |] st1];
    cbn [snd] in *;
    [|intros H; inversion H; subst; split; [exact Hopen | left; exact Hmaps]..].
  pose proof (load_records_world T file tbl st1) as Hrec.
  cbv zeta in Hrec. rewrite Hopen, Hmaps in Hrec.
  destruct (Sections.load_records T file tbl st1) as [[[[tm d] t2]| |] st2];
    cbn [snd IO.ret] in *; intros H; inversion H; subst; exact Hrec.
Qed.

(** X12.  Whatever the file holds and however the constructor ends, by
an object or by an exception, the handle of the [with] block is closed
afterwards and one [np.memmap] view exists at most; this holds for the
current and for the earlier constructor. *)
Theorem constructors_close_the_file (T : TNTdtypes) (U : utils_py)
    (file : list byte) (enc : Text.encoding) :
  (forall r st',
     TNTfile.__init__ T U file enc IO.initial = (r, st') ->
     IO.handle_open st' = false /\
     (IO.mappings st' = [] \/ exists m, IO.mappings st' = [m])) /\
  (forall r st',
     Legacy.__init__ T file IO.initial = (r, st') ->
     IO.handle_open st' = false /\
     (IO.mappings st' = [] \/ exists m, IO.mappings st' = [m])).
Proof.
  split; intros r st' H.
  - eapply init_world; eassumption.
  - eapply legacy_init_world; eassumption.
Qed.

(** ** What a successful constructor guarantees *)

Lemma read_magic_Ok T file st m st' :
  Sections.read_magic T file st = (Ok m, st') ->
  IO.cursor st = 0%nat ->
  m = firstn (Magic_itemsize T) file /\
  List.length m = Magic_itemsize T /\
  Magic_re_match T m = true.
Proof.
  unfold Sections.read_magic, IO.bind, IO.read, IO.lift, frombuffer1, IO.raise,
    IO.ret.
  intros H Hpos. rewrite Hpos in H. change (skipn 0 file) with file in H.
  destruct (Nat.ltb_spec (List.length (firstn (Magic_itemsize T) file))
                         (Magic_itemsize T)) as [Hlt|Hge]; [discriminate|].
  rewrite firstn_firstn, Nat.min_id in H.
  destruct (Magic_re_match T (firstn (Magic_itemsize T) file)) eqn:Hm;
    cbn [negb] in H; [|discriminate].
  inversion H; subst. split; [reflexivity|]. split; [|exact Hm].
  rewrite length_firstn in *. lia.
Qed.

Lemma load_struct_Ok {A} tbl tag n (dec : list byte -> A) a :
  Sections.load_struct tbl tag n dec = Ok a ->
  exists sec d,
    tbl !! tag = Some sec /\ hd_length sec = n /\ hd_data sec = Some d /\
    (n <= List.length d)%nat /\ a = dec (firstn n d).
Proof.
  unfold Sections.load_struct, getitem, frombuffer1.
  destruct (tbl !! tag) as [sec|] eqn:Hsec; cbn [Py.bind]; [|discriminate].
  destruct (Nat.eqb_spec (hd_length sec) n) as [Hlen|]; [|discriminate].
  destruct (hd_data sec) as [d|] eqn:Hd; [|discriminate].
  destruct (Nat.ltb_spec (List.length d) n) as [Hlt|Hge]; [discriminate|].
  intros Hrun. inversion Hrun. exists sec, d. repeat split; auto.
Qed.

Lemma load_records_Ok T file tbl st tm data t2 st' :
  Sections.load_records T file tbl st = (Ok (tm, data, t2), st') ->
  Sections.load_struct tbl "TMAG" (TMAG_itemsize T) (TMAG_decode T) = Ok tm /\
  Sections.load_struct tbl "TMG2" (TMG2_itemsize T) (TMG2_decode T) = Ok t2 /\
  exists sec,
    tbl !! "DATA"%string = Some sec /\
    Z.of_nat (hd_length sec) = (shape_size (actual_npts tm) * 8)%Z /\
    data = (hd_offset sec, actual_npts tm) /\
    forallb (Z.leb 0) (actual_npts tm) = true /\
    (Z.of_nat (hd_offset sec) + Z.of_nat (hd_length sec)
       <= Z.of_nat (List.length file))%Z /\
    IO.handle_open st' = IO.handle_open st /\
    IO.mappings st' =
      IO.mappings st ++ [(hd_offset sec, shape_size (actual_npts tm))].
Proof.
  unfold Sections.load_records, IO.bind, IO.lift, IO.memmap, IO.raise, IO.ret,
    getitem, shape_size.
  destruct (Sections.load_struct tbl "TMAG" (TMAG_itemsize T) (TMAG_decode T))
    as [tm0| |]; try discriminate.
  destruct (tbl !! "DATA"%string) as [sec|] eqn:Hsec; [|discriminate].
  destruct (Z.eqb_spec (Z.of_nat (hd_length sec))
              (fold_right Z.mul 1%Z (actual_npts tm0) * 8)) as [Hlen|];
    cbn [negb]; [|discriminate].
  destruct (Z.ltb_spec (fold_right Z.mul 1%Z (actual_npts tm0)) 0)
    as [Hneg|Hnonneg]; cbn [orb]; [discriminate|].
  destruct (Z.ltb_spec (Z.of_nat (List.length file))
              (Z.of_nat (hd_offset sec)
               + 8 * fold_right Z.mul 1%Z (actual_npts tm0)))
    as [Hout|Hin]; [discriminate|].
  destruct (forallb (Z.leb 0) (actual_npts tm0)) eqn:Hdims; cbn [negb];
    [|discriminate].
  destruct (Sections.load_struct tbl "TMG2" (TMG2_itemsize T) (TMG2_decode T))
    as [t20| |]; try discriminate.
  intros Hrun. inversion Hrun; subst. cbn [fst].
  split; [reflexivity|]. split; [reflexivity|].
  exists sec. repeat split; auto. lia.
Qed.

Lemma parse_Ok T U file enc st m tbl D st' :
  TNTfile.parse T U file enc st = (Ok (m, tbl, D), st') ->
  exists st1 st2 pseq,
    Sections.read_magic T file st = (Ok m, st1) /\
    Sections.section_table T enc file st1 = (Ok tbl, st2) /\
    tbl !! "PSEQ"%string = Some pseq /\
    Delay.delay_tables U enc (skipn (hd_offset pseq) file) = Ok D.
Proof.
  unfold TNTfile.parse. intros H.
  apply bind_Ok in H as (m0 & st1 & Hmagic & H).
  apply bind_Ok in H as (tbl0 & st2 & Htable & H).
  apply bind_Ok in H as (pseq & st3 & Hpseq & H).
  apply bind_Ok in H as ([] & st4 & Hseek & H).
  apply bind_Ok in H as (region & st5 & Hread & H).
  apply bind_Ok in H as (D0 & st6 & Hdelay & H).
  unfold IO.ret in H. inversion H; subst.
  unfold IO.lift, getitem in Hpseq.
  destruct (tbl !! "PSEQ"%string) as [p|] eqn:Hp; inversion Hpseq; subst.
  unfold IO.seek in Hseek. inversion Hseek; subst.
  unfold IO.read_all in Hread. cbn [IO.cursor IO.move] in Hread.
  inversion Hread; subst.
  unfold IO.lift in Hdelay. inversion Hdelay as [Hd].
  do 3 eexists. repeat split; eassumption.
Qed.

(** X13.  When the current constructor returns an object: its magic
value is the first [Magic.itemsize] bytes of the file and matches
[Magic_re]; the section table holds TMAG, TMG2, DATA and PSEQ; TMAG and
TMG2 were decoded from buffers of exactly their item sizes; the DATA
section has [8 * prod(actual_npts)] bytes, lies inside the file, has no
negative dimension and is the one region mapped, with the shape
[actual_npts]; the delay tables are those found from the offset of PSEQ
on; and the handle is closed. *)
Theorem init_success (T : TNTdtypes) (U : utils_py) (file : list byte)
    (enc : Text.encoding) (o : TNTfile.obj T) (st' : IO.state) :
  TNTfile.__init__ T U file enc IO.initial = (Ok o, st') ->
  TNTfile.encoding T o = enc /\
  (TNTfile.tntmagic T o = firstn (Magic_itemsize T) file /\
   List.length (TNTfile.tntmagic T o) = Magic_itemsize T /\
   Magic_re_match T (TNTfile.tntmagic T o) = true) /\
  (exists sec d,
     TNTfile.tnt_sections T o !! "TMAG"%string = Some sec /\
     hd_length sec = TMAG_itemsize T /\ hd_data sec = Some d /\
     TNTfile.TMAG T o = TMAG_decode T (firstn (TMAG_itemsize T) d)) /\
  (exists sec d,
     TNTfile.tnt_sections T o !! "TMG2"%string = Some sec /\
     hd_length sec = TMG2_itemsize T /\ hd_data sec = Some d /\
     TNTfile.TMG2 T o = TMG2_decode T (firstn (TMG2_itemsize T) d)) /\
  (exists sec,
     TNTfile.tnt_sections T o !! "DATA"%string = Some sec /\
     Z.of_nat (hd_length sec)
       = (shape_size (actual_npts (TNTfile.TMAG T o)) * 8)%Z /\
     TNTfile.DATA T o = (hd_offset sec, actual_npts (TNTfile.TMAG T o)) /\
     Forall (fun d => (0 <= d)%Z) (actual_npts (TNTfile.TMAG T o)) /\
     (hd_offset sec + hd_length sec <= List.length file)%nat /\
     IO.mappings st'
       = [(hd_offset sec, shape_size (actual_npts (TNTfile.TMAG T o)))]) /\
  (exists sec,
     TNTfile.tnt_sections T o !! "PSEQ"%string = Some sec /\
     Delay.delay_tables U enc (skipn (hd_offset sec) file)
       = Ok (TNTfile.DELAY T o)) /\
  IO.handle_open st' = false.
Proof.
  unfold TNTfile.__init__. intros H.
  apply bind_Ok in H as ([[m tbl] D] & st1 & Hparse & H).
  apply bind_Ok in H as ([[tm data] t2] & st2 & Hrec & H).
  unfold IO.ret in H. inversion H; subst; clear H.
  cbn [TNTfile.encoding TNTfile.tntmagic TNTfile.tnt_sections TNTfile.TMAG
       TNTfile.TMG2 TNTfile.DATA TNTfile.DELAY].
  destruct (with_open_closed (TNTfile.parse T U file enc) IO.initial
              (keeps_parse T U file enc)) as [Hopen Hmaps].
  rewrite Hparse in Hopen, Hmaps. cbn [snd IO.initial IO.mappings] in Hopen, Hmaps.
  unfold IO.with_open in Hparse. cbn [IO.initial IO.mappings IO.log app] in Hparse.
  destruct (TNTfile.parse T U file enc _) as [r stp] eqn:Hp.
  inversion Hparse; subst r; clear Hparse.
  apply parse_Ok in Hp as (sa & sb & pseq & Hmagic & Htable & Hpseq & Hdelay).
  apply read_magic_Ok in Hmagic; [|reflexivity].
  apply load_records_Ok in Hrec
    as (Htm & Ht2 & sec & Hdata & Hlen & -> & Hdims & Hfit & Hopen' & Hmaps').
  apply load_struct_Ok in Htm as (sT & dT & ? & ? & ? & ? & ?).
  apply load_struct_Ok in Ht2 as (s2 & d2 & ? & ? & ? & ? & ?).
  split; [reflexivity|]. split; [exact Hmagic|].
  split; [exists sT, dT; auto|]. split; [exists s2, d2; auto|].
  split.
  { exists sec. repeat split; auto.
    - apply List.Forall_forall. intros d Hd.
      rewrite forallb_forall in Hdims. apply Z.leb_le. auto.
    - lia.
    - rewrite Hmaps', Hmaps. reflexivity. }
  split; [exists pseq; auto|]. congruence.
Qed.

Lemma init_success_witness :
  exists o st',
    TNTfile.__init__ Sample.dtypes utils_model Sample.whole Text.enc_ascii
      IO.initial = (Ok o, st') /\
    IO.handle_open st' = false /\
    TNTfile.tntmagic _ o = firstn (Magic_itemsize Sample.dtypes) Sample.whole.
Proof.
  destruct (TNTfile.__init__ Sample.dtypes utils_model Sample.whole
              Text.enc_ascii IO.initial) as [[o| |] st'] eqn:E;
    [|vm_compute in E; discriminate|vm_compute in E; discriminate].
  exists o, st'. split; [reflexivity|].
  destruct (init_success Sample.dtypes utils_model Sample.whole Text.enc_ascii
              o st' E) as (_ & (Hmagic & _) & _ & _ & _ & _ & Hclosed).
  split; assumption.
Defined.

(** ** The earlier constructor accepts what the current one accepts *)

Lemma decode_latin1 enc b s :
  Text.decode enc b = Ok s -> Text.decode Text.enc_latin1 b = Ok s.
Proof.
  destruct enc; cbn [Text.decode]; [|auto].
  destruct (forallb _ b); [auto | discriminate].
Qed.

Section Latin1.

Variables (T : TNTdtypes) (enc : Text.encoding) (file : list byte).

Lemma section_step_latin1 hdr st x st' :
  Sections.section_step T enc file hdr st = (Ok x, st') ->
  Sections.section_step T Text.enc_latin1 file hdr st = (Ok x, st').
Proof.
  unfold Sections.section_step, IO.bind, IO.tell, IO.lift.
  destruct (Sections.read_payload file _ _ _ st) as [[h| |] st1];
    try discriminate.
  destruct (Text.decode enc _) as [tag| |] eqn:Hdec; try discriminate.
  now rewrite (decode_latin1 _ _ _ Hdec).
Qed.

Lemma read_sections_latin1 fuel : forall tbl hdr st out st',
  Sections.read_sections T enc file fuel tbl hdr st = (Ok out, st') ->
  Sections.read_sections T Text.enc_latin1 file fuel tbl hdr st = (Ok out, st').
Proof.
  induction fuel as [|fuel IH]; intros tbl hdr st out st' H; [discriminate|].
  destruct (Nat.eq_dec (List.length hdr) (TLV_itemsize T)) as [Hlen|Hlen].
  - rewrite read_sections_step in H |- * by exact Hlen.
    destruct (Sections.section_step T enc file hdr st)
      as [[[[tag h] next]| |] st1] eqn:E; try discriminate.
    rewrite (section_step_latin1 _ _ _ _ E). now apply IH.
  - rewrite read_sections_short in H |- * by exact Hlen. exact H.
Qed.

Lemma section_table_latin1 st out st' :
  Sections.section_table T enc file st = (Ok out, st') ->
  Sections.section_table T Text.enc_latin1 file st = (Ok out, st').
Proof.
  unfold Sections.section_table, IO.bind, IO.read. apply read_sections_latin1.
Qed.

(** What the statements after the [with] block return does not depend
on the state they start in. *)
Lemma load_records_value tbl st s0 :
  (Sections.load_records T file tbl st).1 = (Sections.load_records T file tbl s0).1.
Proof.
  unfold Sections.load_records, IO.bind, IO.lift, IO.memmap, IO.raise, IO.ret.
  destruct (Sections.load_struct tbl "TMAG" (TMAG_itemsize T) (TMAG_decode T))
    as [tm| |]; try reflexivity.
  destruct (getitem tbl "DATA") as [sec| |]; try reflexivity.
  destruct (negb (Z.of_nat (hd_length sec) =? _)%Z); [reflexivity|].
  destruct (_ || _); [reflexivity|].
  destruct (negb (forallb _ _)); [reflexivity|].
  destruct (Sections.load_struct tbl "TMG2" (TMG2_itemsize T) (TMG2_decode T))
    as [t2| |]; reflexivity.
Qed.

End Latin1.

(** X14.  A file that the current constructor accepts, with any
encoding, is accepted by the earlier constructor, which builds the same
magic value, section table, TMAG, DATA and TMG2; the earlier one reads
no delay tables and asks for no PSEQ section. *)
Theorem legacy_accepts_what_current_accepts (T : TNTdtypes) (U : utils_py)
    (file : list byte) (enc : Text.encoding) (o : TNTfile.obj T)
    (st' : IO.state) :
  TNTfile.__init__ T U file enc IO.initial = (Ok o, st') ->
  exists o' st'',
    Legacy.__init__ T file IO.initial = (Ok o', st'') /\
    Legacy.tntmagic T o' = TNTfile.tntmagic T o /\
    Legacy.tnt_sections T o' = TNTfile.tnt_sections T o /\
    Legacy.TMAG T o' = TNTfile.TMAG T o /\
    Legacy.DATA T o' = TNTfile.DATA T o /\
    Legacy.TMG2 T o' = TNTfile.TMG2 T o.
Proof.
  unfold TNTfile.__init__. intros H.
  apply bind_Ok in H as ([[m tbl] D] & st1 & Hparse & H).
  apply bind_Ok in H as ([[tm data] t2] & st2 & Hrec & H).
  unfold IO.ret in H. inversion H; subst; clear H.
  unfold IO.with_open in Hparse.
  destruct (TNTfile.parse T U file enc _) as [r stp] eqn:Hp.
  inversion Hparse; subst r; clear Hparse.
  apply parse_Ok in Hp as (sa & sb & pseq & Hmagic & Htable & _ & _).
  apply section_table_latin1 in Htable.
  unfold Legacy.__init__, IO.bind, IO.with_open, Legacy.parse, IO.bind.
  rewrite Hmagic, Htable. unfold IO.ret at 1.
  pose proof (load_records_value T file tbl
                (IO.mkState false (IO.cursor sb) (IO.mappings sb)
                            (IO.log sb ++ [IO.EvClose]))
                st1) as Hval.
  rewrite Hrec in Hval. cbn [fst] in Hval.
  destruct (Sections.load_records T file tbl (IO.mkState false (IO.cursor sb) _ _))
    as [r s3]. cbn [fst] in Hval.
  subst r. unfold IO.ret. do 2 eexists. split; [reflexivity|].
  cbn. repeat split; reflexivity.
Qed.

Lemma legacy_accepts_what_current_accepts_witness :
  exists o st' o' st'',
    TNTfile.__init__ Sample.dtypes utils_model Sample.whole Text.enc_ascii
      IO.initial = (Ok o, st') /\
    Legacy.__init__ Sample.dtypes Sample.whole IO.initial = (Ok o', st'') /\
    Legacy.tnt_sections _ o' = TNTfile.tnt_sections _ o.
Proof.
  destruct (TNTfile.__init__ Sample.dtypes utils_model Sample.whole
              Text.enc_ascii IO.initial) as [[o| |] st'] eqn:E;
    [|vm_compute in E; discriminate|vm_compute in E; discriminate].
  destruct (legacy_accepts_what_current_accepts Sample.dtypes utils_model
              Sample.whole Text.enc_ascii o st' E)
    as (o' & st'' & Hrun & _ & Htbl & _).
  exists o, st', o', st''. split; [reflexivity|]. split; assumption.
Defined.

(** ** The time axis of the FID *)

(** X15.  [fid_times] returns an axis for every number of points: its
length is [npts] (it is empty for a negative [npts], which [freq_Hz]
refuses), the time at index [i] is [i * dw], and whenever [freq_Hz]
returns an axis for the same arguments the two have the same length. *)
Theorem fid_times_alongside_freq_Hz (self : Methods.attrs)
    (altDATA : option array4) (n : Z) (dw : Q) (ds : list Q) :
  Methods.npts_of self altDATA = Ok n ->
  Methods.dwell_s self = dw :: ds ->
  exists t,
    Methods.fid_times self altDATA = Ok t /\
    List.length t = Z.to_nat n /\
    (forall i, (i < Z.to_nat n)%nat ->
       nth i t 0%Q = (inject_Z (Z.of_nat i) * dw)%Q) /\
    (forall hz, Methods.freq_Hz self altDATA = Ok hz ->
       List.length hz = List.length t).
Proof.
  intros Hnpts Hdwell. unfold Methods.fid_times. rewrite Hnpts, Hdwell.
  cbn [Py.bind Py.index nth_error]. eexists. split; [reflexivity|].
  assert (Hlen : List.length
            (map (fun i => (inject_Z i * dw)%Q) (PyMore.arange 0 n)) = Z.to_nat n).
  { rewrite length_map, arange_length. f_equal. lia. }
  split; [exact Hlen|]. split.
  - intros i Hi. unfold PyMore.arange. rewrite map_map, Z.sub_0_r.
    now rewrite nth_map_seq by exact Hi.
  - intros hz Hhz. rewrite Hlen.
    destruct (Z.ltb_spec n 0) as [Hneg|Hn].
    + unfold Methods.freq_Hz, PyMore.fftfreq in Hhz. rewrite Hnpts, Hdwell in Hhz.
      cbn [Py.bind Py.index nth_error] in Hhz.
      destruct (Z.ltb_spec n 0); [discriminate | lia].
    + rewrite (freq_Hz_bins self altDATA n dw ds Hnpts Hdwell Hn) in Hhz.
      inversion Hhz; subst. rewrite length_map, arange_length. f_equal. lia.
Qed.

Lemma fid_times_alongside_freq_Hz_witness :
  Methods.npts_of attrs8 None = Ok 8%Z /\
  Methods.dwell_s attrs8 = [(1 # 8)%Q] /\
  exists t,
    Methods.fid_times attrs8 None = Ok t /\ List.length t = Z.to_nat 8.
Proof.
  split; [reflexivity|]. split; [reflexivity|].
  destruct (fid_times_alongside_freq_Hz attrs8 None 8 (1 # 8) [] eq_refl eq_refl)
    as (t & Hrun & Hlen & _).
  exists t. split; assumption.
Defined.

(** ** The layout of the sections *)

Section Layout.

Variables (T : TNTdtypes) (enc : Text.encoding) (file : list byte).

(** The first assignment of the loop records the cursor it starts at,
and the loop is entered with a whole header only. *)
Lemma section_entries_head fuel hdr st k e rest :
  Sections.section_entries T enc file fuel hdr st = (k, e) :: rest ->
  hd_offset e = IO.cursor st /\ List.length hdr = TLV_itemsize T.
Proof.
  destruct fuel as [|fuel]; [discriminate|]. cbn [Sections.section_entries].
  destruct (Nat.eqb_spec (TLV_itemsize T) (List.length hdr)) as [Hlen|Hlen];
    [|discriminate].
  destruct (Sections.section_step T enc file hdr st)
    as [[[[tag h] next]| |] st1] eqn:E; try discriminate.
  intros H. inversion H; subst. apply section_step_ok in E. split; [tauto | auto].
Qed.

Lemma section_entries_chain fuel : forall hdr st before k1 e1 k2 e2 after,
  Sections.section_entries T enc file fuel hdr st
    = before ++ (k1, e1) :: (k2, e2) :: after ->
  hd_offset e2 = (hd_offset e1 + hd_length e1 + TLV_itemsize T)%nat.
Proof.
  induction fuel as [|fuel IH]; intros hdr st before k1 e1 k2 e2 after H.
  { destruct before; discriminate. }
  cbn [Sections.section_entries] in H.
  destruct (Nat.eqb_spec (TLV_itemsize T) (List.length hdr)) as [Hlen|Hlen];
    [|destruct before; discriminate].
  destruct (Sections.section_step T enc file hdr st)
    as [[[[tag h] next]| |] st1] eqn:E; try (destruct before; discriminate).
  destruct before as [|b before]; cbn [app] in H; inversion H; subst.
  - apply section_step_ok in E as (Hoff & Hl & _ & _ & _ & _ & Hcur).
    match goal with
    | Hrest : Sections.section_entries _ _ _ _ _ _ = _ |- _ =>
        apply section_entries_head in Hrest as [Ho2 Hn]
    end.
    rewrite Ho2, Hcur, Hoff, Hl, Hn. reflexivity.
  - eapply IH. eassumption.
Qed.

Hypothesis itemsize_pos : (0 < TLV_itemsize T)%nat.

Lemma section_entries_inside fuel : forall hdr st k e,
  (hdr <> [] -> IO.cursor st <= List.length file)%nat ->
  In (k, e) (Sections.section_entries T enc file fuel hdr st) ->
  (hd_offset e <= List.length file)%nat /\
  (hd_data e <> None -> hd_offset e + hd_length e <= List.length file)%nat.
Proof using itemsize_pos.
  induction fuel as [|fuel IH]; intros hdr st k e Hin H; [destruct H|].
  cbn [Sections.section_entries] in H.
  destruct (Nat.eqb_spec (TLV_itemsize T) (List.length hdr)) as [Hlen|Hlen];
    [|destruct H].
  destruct (Sections.section_step T enc file hdr st)
    as [[[[tag h] next]| |] st1] eqn:E; [|destruct H|destruct H].
  assert (Hhdr : hdr <> []) by (intros ->; cbn in Hlen; lia).
  specialize (Hin Hhdr).
  apply section_step_ok in E as (Hoff & Hl & Hdata & Hok & _ & Hnext & Hcur).
  destruct H as [H|H].
  - inversion H; subst k e. split; [lia|].
    intros Hsome. destruct (hd_data h) as [d|] eqn:Hd; [|congruence].
    destruct Hok as [_ Hlenb]. specialize (Hlenb d Hd).
    unfold kept_payload in Hdata.
    destruct (tlv_length (TLV_decode T hdr) <=? 4096)%nat; [|discriminate].
    inversion Hdata; subst d.
    rewrite length_firstn, length_skipn in Hlenb. lia.
  - eapply IH; [|exact H]. intros Hne.
    assert (Hn : (List.length next <=
                  List.length file - (IO.cursor st + tlv_length (TLV_decode T hdr)))%nat).
    { rewrite Hnext, length_firstn, length_skipn. lia. }
    destruct next as [|b next']; [congruence|].
    cbn [List.length] in Hn, Hcur. lia.
Qed.

End Layout.

(** X16.  The sections lie one after the other.  For a header structure
of positive size, among the assignments the loop makes: the first
records as offset the cursor at the start plus the size of a header;
each later one records the offset of the one before plus that one's
declared length plus the size of a header, whether that payload was
buffered or skipped; every offset lies inside the file, and a buffered
payload lies inside the file as a whole. *)
Theorem sections_contiguous (T : TNTdtypes) (enc : Text.encoding)
    (file : list byte) (st : IO.state) :
  (0 < TLV_itemsize T)%nat ->
  (forall k e rest,
     Sections.table_entries T enc file st = (k, e) :: rest ->
     hd_offset e = (IO.cursor st + TLV_itemsize T)%nat) /\
  (forall before k1 e1 k2 e2 after,
     Sections.table_entries T enc file st
       = before ++ (k1, e1) :: (k2, e2) :: after ->
     hd_offset e2 = (hd_offset e1 + hd_length e1 + TLV_itemsize T)%nat) /\
  (forall k e,
     In (k, e) (Sections.table_entries T enc file st) ->
     (hd_offset e <= List.length file)%nat /\
     (hd_data e <> None -> hd_offset e + hd_length e <= List.length file)%nat).
Proof.
  intros Hpos. unfold Sections.table_entries, IO.read.
  split; [|split].
  - intros k e rest H. apply section_entries_head in H as [Hoff Hlen].
    rewrite Hoff. cbn [IO.cursor IO.move IO.record]. now rewrite Hlen.
  - intros before k1 e1 k2 e2 after H. eapply section_entries_chain. exact H.
  - intros k e H. eapply section_entries_inside; [exact Hpos| |exact H].
    cbn [IO.cursor IO.move IO.record]. intros Hne.
    assert (List.length (firstn (TLV_itemsize T) (skipn (IO.cursor st) file)) <> 0)%nat
      by (destruct (firstn _ _); [congruence | cbn; lia]).
    rewrite length_firstn, length_skipn in *. lia.
Qed.

Lemma sections_contiguous_witness :
  (0 < TLV_itemsize Sample.dtypes)%nat /\
  Sections.table_entries Sample.dtypes Text.enc_ascii Sample.whole
    (IO.mkState true 8 [] []) <> [] /\
  (forall k e,
     In (k, e) (Sections.table_entries Sample.dtypes Text.enc_ascii Sample.whole
                  (IO.mkState true 8 [] [])) ->
     (hd_offset e <= List.length Sample.whole)%nat /\
     (hd_data e <> None ->
      hd_offset e + hd_length e <= List.length Sample.whole)%nat).
Proof.
  split; [cbn; lia|]. split; [vm_compute; discriminate|].
  apply (sections_contiguous Sample.dtypes Text.enc_ascii Sample.whole
           (IO.mkState true 8 [] [])).
  cbn. lia.
Defined.

(** X17.  A header that declares more bytes than the file has left
after the cursor is treated in two ways.  When the declared length is at
most 4096 the payload is read, comes out short, and the loop stops with
[AssertionError].  When it is above 4096 the payload is skipped without
a look at the size of the file: the entry is recorded with the declared
length and no buffer, the next read returns no bytes, and the loop ends
normally with that entry in the table. *)
Theorem payload_beyond_end_of_file (T : TNTdtypes) (enc : Text.encoding)
    (file hdr : list byte) (st : IO.state) :
  let len := tlv_length (TLV_decode T hdr) in
  let flag := negb (tlv_bool (TLV_decode T hdr) =? 0)%Z in
  (List.length file - IO.cursor st < len)%nat ->
  ((len <= 4096)%nat ->
   (Sections.section_step T enc file hdr st).1 = Raise AssertionError /\
   forall fuel tbl, List.length hdr = TLV_itemsize T ->
     (Sections.read_sections T enc file (S fuel) tbl hdr st).1
       = Raise AssertionError) /\
  ((4096 < len)%nat ->
   forall tag, Text.decode enc (tlv_tag (TLV_decode T hdr)) = Ok tag ->
   exists st',
     Sections.section_step T enc file hdr st
       = (Ok (tag, mkHdr (IO.cursor st) len flag None, []), st') /\
     forall fuel tbl,
       List.length hdr = TLV_itemsize T -> (0 < TLV_itemsize T)%nat ->
       Sections.read_sections T enc file (S (S fuel)) tbl hdr st
         = (Ok (<[tag := mkHdr (IO.cursor st) len flag None]> tbl), st')).
Proof.
  cbv zeta. intros Hshort. split.
  - intros Hle.
    assert (Hstep : (Sections.section_step T enc file hdr st).1 = Raise AssertionError).
    { unfold Sections.section_step, Sections.read_payload, IO.bind, IO.tell,
        IO.read, IO.raise, IO.ret.
      destruct (Nat.leb_spec (tlv_length (TLV_decode T hdr)) 4096) as [_|Hgt];
        [|lia].
      destruct (Nat.eqb_spec
                  (List.length (firstn (tlv_length (TLV_decode T hdr))
                                  (skipn (IO.cursor st) file)))
                  (tlv_length (TLV_decode T hdr)))
        as [Hlen|Hlen]; [|reflexivity].
      rewrite length_firstn, length_skipn in Hlen. lia. }
    split; [exact Hstep|].
    intros fuel tbl Hlen. rewrite read_sections_step by exact Hlen.
    destruct (Sections.section_step T enc file hdr st)
      as [[[[tag h] next]| |] st1]; cbn [fst] in Hstep; try discriminate.
    inversion Hstep; subst. reflexivity.
  - intros Hgt tag Hdec.
    assert (Hstep : exists st',
              Sections.section_step T enc file hdr st
                = (Ok (tag, mkHdr (IO.cursor st) (tlv_length (TLV_decode T hdr))
                              (negb (tlv_bool (TLV_decode T hdr) =? 0)%Z) None,
                       []), st')).
    { unfold Sections.section_step, Sections.read_payload, IO.bind, IO.tell,
        IO.read, IO.seek_cur, IO.raise, IO.ret, IO.lift.
      destruct (Nat.leb_spec (tlv_length (TLV_decode T hdr)) 4096) as [Hle|_];
        [lia|].
      rewrite Hdec. cbn [IO.cursor IO.move IO.record].
      rewrite skipn_all2 by lia. rewrite firstn_nil. eexists. reflexivity. }
    destruct Hstep as [st' Hstep]. exists st'. split; [exact Hstep|].
    intros fuel tbl Hlen Hpos. rewrite read_sections_step by exact Hlen.
    rewrite Hstep. apply read_sections_short. cbn [List.length]. lia.
Qed.

Lemma payload_beyond_end_of_file_witness :
  (List.length Sample.two_tags - 35
   < tlv_length (TLV_decode Sample.dtypes
                   (firstn 9 (skipn 26 Sample.two_tags))))%nat /\
  (4096 < tlv_length (TLV_decode Sample.dtypes
                        (firstn 9 (skipn 26 Sample.two_tags))))%nat /\
  exists st',
    Sections.section_step Sample.dtypes Text.enc_ascii Sample.two_tags
      (firstn 9 (skipn 26 Sample.two_tags)) (IO.mkState true 35 [] [])
    = (Ok ("DATA"%string, mkHdr 35 5000 false None, []), st').
Proof.
  split; [vm_compute; lia|]. split; [vm_compute; lia|].
  destruct (payload_beyond_end_of_file Sample.dtypes Text.enc_ascii
              Sample.two_tags (firstn 9 (skipn 26 Sample.two_tags))
              (IO.mkState true 35 [] [])) as [_ Hskip].
  { vm_compute. lia. }
  destruct (Hskip ltac:(vm_compute; lia) "DATA"%string eq_refl)
    as (st' & Hstep & _).
  exists st'. exact Hstep.
Defined.

(** ** Where the delay tables come from *)

Lemma delay_step_Ok U enc region D0 start D1 :
  Delay.delay_step U enc region D0 start = Ok D1 ->
  D1 = D0 \/
  exists name delay v,
    read_pascal_string U enc (Py.slice_from (Z.of_nat start - 4) region)
      = Ok name /\
    read_pascal_string U enc
      (Py.slice_from (Z.of_nat (start + String.length name)) region) = Ok delay /\
    (1 < String.length delay)%nat /\
    convert_si U (Text.split delay) = Ok v /\
    D1 = <[name := v]> D0.
Proof.
  unfold Delay.delay_step.
  destruct (read_pascal_string U enc (Py.slice_from (Z.of_nat start - 4) region))
    as [name|e|] eqn:Hname.
  - destruct (read_pascal_string U enc
                (Py.slice_from (Z.of_nat (start + String.length name)) region))
      as [delay| |] eqn:Hdelay; cbn [Py.bind]; try discriminate.
    destruct (Nat.ltb_spec 1 (String.length delay)) as [Hlen|Hlen].
    + destruct (convert_si U (Text.split delay)) as [v| |] eqn:Hv;
        cbn [Py.bind]; try discriminate.
      intros H. inversion H; subst. right. exists name, delay, v. auto.
    + intros H. inversion H; subst. now left.
  - destruct e; try discriminate. intros H. inversion H; subst. now left.
  - discriminate.
Qed.

Lemma delay_loop_origin U enc region starts : forall D0 D name v,
  Delay.delay_loop U enc region D0 starts = Ok D ->
  D !! name = Some v ->
  D0 !! name = Some v \/
  exists start delay,
    In start starts /\
    read_pascal_string U enc (Py.slice_from (Z.of_nat start - 4) region)
      = Ok name /\
    read_pascal_string U enc
      (Py.slice_from (Z.of_nat (start + String.length name)) region) = Ok delay /\
    (1 < String.length delay)%nat /\
    convert_si U (Text.split delay) = Ok v.
Proof.
  induction starts as [|s starts IH]; intros D0 D name v Hrun Hv.
  - cbn in Hrun. inversion Hrun; subst. now left.
  - cbn [Delay.delay_loop] in Hrun.
    destruct (Delay.delay_step U enc region D0 s) as [D1| |] eqn:Hstep;
      cbn [Py.bind] in Hrun; try discriminate.
    destruct (IH D1 D name v Hrun Hv) as [Hin|(start & delay & Hs & Hrest)].
    + apply delay_step_Ok in Hstep
        as [->|(name' & delay & v' & Hn & Hd & Hlen & Hc & ->)]; [now left|].
      destruct (decide (name' = name)) as [->|Hne].
      * rewrite lookup_insert_eq in Hin. inversion Hin; subst.
        right. exists s, delay. split; [now left|]. auto.
      * rewrite lookup_insert_ne in Hin by exact Hne. now left.
    + right. exists start, delay. split; [now right | exact Hrest].
Qed.

(** X18.  Every delay table the constructor keeps comes from a match of
[delay_re] in the region read from PSEQ on: its key is the Pascal string
read four bytes before that match, its values are the converted tokens
of the Pascal string read [len(delay_name)] bytes after the start of the
match, and that string has more than one character.  A string of one
character or none never gives a table. *)
Theorem delay_tables_origin (U : utils_py) (enc : Text.encoding)
    (search_region : list byte) (DELAY : gmap string (list Q))
    (delay_name : string) (values : list Q) :
  Delay.delay_tables U enc search_region = Ok DELAY ->
  DELAY !! delay_name = Some values ->
  exists start delay,
    In start (Delay.finditer search_region 0 0) /\
    read_pascal_string U enc
      (Py.slice_from (Z.of_nat start - 4) search_region) = Ok delay_name /\
    read_pascal_string U enc
      (Py.slice_from (Z.of_nat (start + String.length delay_name)) search_region)
      = Ok delay /\
    (1 < String.length delay)%nat /\
    convert_si U (Text.split delay) = Ok values.
Proof.
  unfold Delay.delay_tables. intros Hrun Hv.
  destruct (delay_loop_origin U enc search_region _ _ _ _ _ Hrun Hv)
    as [Hempty|H]; [|exact H].
  rewrite lookup_empty in Hempty. discriminate.
Qed.

Lemma delay_tables_origin_witness :
  exists DELAY values start delay,
    Delay.delay_tables utils_model Text.enc_ascii Sample.region_3m = Ok DELAY /\
    DELAY !! "de12:3"%string = Some values /\
    In start (Delay.finditer Sample.region_3m 0 0) /\
    read_pascal_string utils_model Text.enc_ascii
      (Py.slice_from (Z.of_nat (start + String.length "de12:3")) Sample.region_3m)
      = Ok delay /\
    (1 < String.length delay)%nat.
Proof.
  destruct (Delay.delay_tables utils_model Text.enc_ascii Sample.region_3m)
    as [D| |] eqn:E;
    [|vm_compute in E; discriminate|vm_compute in E; discriminate].
  destruct (D !! "de12:3"%string) as [v|] eqn:Hv.
  - destruct (delay_tables_origin utils_model Text.enc_ascii Sample.region_3m
                D "de12:3" v E Hv) as (start & delay & Hin & _ & Hd & Hlen & _).
    exists D, v, start, delay. repeat split; auto.
  - exfalso. vm_compute in E. inversion E; subst. vm_compute in Hv. discriminate.
Defined.

(** ** How the constructors end *)

Lemma raises_only_weaken {A} (P Q : exn -> Prop) (r : result A) :
  (forall e, P e -> Q e) -> raises_only P r -> raises_only Q r.
Proof. destruct r; cbn; auto. Qed.

Lemma frombuffer1_outcome {A} n (dec : list byte -> A) buf :
  raises_only (eq ValueError) (frombuffer1 n dec buf).
Proof. unfold frombuffer1. destruct (_ <? _)%nat; cbn; auto. Qed.

Lemma read_magic_outcome T file st :
  raises_only (eq ValueError) (Sections.read_magic T file st).1.
Proof.
  unfold Sections.read_magic, IO.bind, IO.read, IO.lift, IO.raise, IO.ret.
  pose proof (frombuffer1_outcome (Magic_itemsize T) (fun b => b)
                (firstn (Magic_itemsize T) (skipn (IO.cursor st) file))) as H.
  destruct (frombuffer1 _ _ _) as [m| |]; cbn in H |- *; auto.
  destruct (negb (Magic_re_match T m)); cbn; auto.
Qed.

Lemma load_struct_outcome {A} tbl tag n (dec : list byte -> A) :
  raises_only shared_errors (Sections.load_struct tbl tag n dec).
Proof.
  unfold Sections.load_struct, getitem, shared_errors.
  destruct (tbl !! tag) as [sec|]; cbn [Py.bind]; [|cbn; auto].
  destruct (hd_length sec =? n)%nat; [|cbn; auto].
  destruct (hd_data sec) as [d|]; [|cbn; auto].
  eapply raises_only_weaken; [|apply frombuffer1_outcome].
  intros e <-. auto.
Qed.

Lemma load_records_outcome T file tbl st :
  raises_only shared_errors (Sections.load_records T file tbl st).1.
Proof.
  unfold Sections.load_records, IO.bind, IO.lift, IO.memmap, IO.raise, IO.ret.
  pose proof (load_struct_outcome tbl "TMAG" (TMAG_itemsize T) (TMAG_decode T)) as Htm.
  destruct (Sections.load_struct tbl "TMAG" (TMAG_itemsize T) (TMAG_decode T))
    as [tm| |]; cbn in Htm |- *; auto.
  unfold getitem, shared_errors.
  destruct (tbl !! "DATA"%string) as [sec|]; [|cbn; auto].
  destruct (negb (Z.of_nat (hd_length sec) =? _)%Z); [cbn; auto|].
  destruct (_ || _); [cbn; auto|].
  destruct (negb (forallb _ _)); [cbn; auto|].
  pose proof (load_struct_outcome tbl "TMG2" (TMG2_itemsize T) (TMG2_decode T)) as Ht2.
  destruct (Sections.load_struct tbl "TMG2" (TMG2_itemsize T) (TMG2_decode T))
    as [t2| |]; cbn in Ht2 |- *; auto.
Qed.

Section TableErrors.

Variables (T : TNTdtypes) (enc : Text.encoding) (file : list byte).

Lemma section_step_Raise hdr st e st' :
  Sections.section_step T enc file hdr st = (Raise e, st') ->
  e = AssertionError \/ (e = UnicodeDecodeError /\ enc = Text.enc_ascii).
Proof.
  unfold Sections.section_step, Sections.read_payload, IO.bind, IO.tell,
    IO.read, IO.seek_cur, IO.lift, IO.raise, IO.ret.
  destruct (_ <=? 4096)%nat.
  - destruct (_ =? _)%nat; [|intros H; inversion H; auto].
    destruct enc; cbn [Text.decode]; [|discriminate].
    destruct (forallb _ _); [discriminate|]. intros H; inversion H; auto.
  - destruct enc; cbn [Text.decode]; [|discriminate].
    destruct (forallb _ _); [discriminate|]. intros H; inversion H; auto.
Qed.

Lemma read_sections_Raise fuel : forall tbl hdr st e st',
  Sections.read_sections T enc file fuel tbl hdr st = (Raise e, st') ->
  e = AssertionError \/ (e = UnicodeDecodeError /\ enc = Text.enc_ascii).
Proof.
  induction fuel as [|fuel IH]; intros tbl hdr st e st' H; [discriminate|].
  destruct (Nat.eq_dec (List.length hdr) (TLV_itemsize T)) as [Hlen|Hlen].
  - rewrite read_sections_step in H by exact Hlen.
    destruct (Sections.section_step T enc file hdr st)
      as [[[[tag h] next]| |] st1] eqn:E; try discriminate.
    + eapply IH. exact H.
    + inversion H; subst. eapply section_step_Raise. exact E.
  - rewrite read_sections_short in H by exact Hlen. discriminate.
Qed.

Lemma section_table_outcome st :
  (0 < TLV_itemsize T)%nat ->
  raises_only (fun e => e = AssertionError \/
                        (e = UnicodeDecodeError /\ enc = Text.enc_ascii))
    (Sections.section_table T enc file st).1.
Proof.
  intros Hpos. pose proof (section_table_fuel T enc file Hpos st) as Hfuel.
  destruct (Sections.section_table T enc file st) as [[tbl|e|] st'] eqn:E;
    cbn in Hfuel |- *; [exact I| |congruence].
  unfold Sections.section_table, IO.bind, IO.read in E.
  eapply read_sections_Raise. exact E.
Qed.

End TableErrors.

Lemma bind_fst {A B} (c : IO.t A) (k : A -> IO.t B) st :
  (IO.bind c k st).1 =
    match c st with
    | (Ok a, st') => (k a st').1
    | (Raise e, _) => Raise e
    | (OutOfFuel, _) => OutOfFuel
    end.
Proof. unfold IO.bind. destruct (c st) as [[a|e|] st']; reflexivity. Qed.

Lemma with_open_fst {A} (body : IO.t A) st :
  exists st1, (IO.with_open body st).1 = (body st1).1.
Proof.
  unfold IO.with_open. eexists.
  destruct (body _) as [r st2] eqn:E. cbn [fst].
  change r with (r, st2).1. rewrite <- E. reflexivity.
Qed.

Lemma legacy_parse_outcome T file st :
  (0 < TLV_itemsize T)%nat ->
  raises_only shared_errors (Legacy.parse T file st).1.
Proof.
  intros Hpos. unfold Legacy.parse. rewrite bind_fst.
  pose proof (read_magic_outcome T file st) as Hm.
  destruct (Sections.read_magic T file st) as [[m|e|] sa]; cbn [fst] in Hm;
    [|cbn [raises_only] in Hm |- *; subst e; unfold shared_errors; auto
     |exact Hm].
  rewrite bind_fst.
  pose proof (section_table_outcome T Text.enc_latin1 file sa Hpos) as Ht.
  destruct (Sections.section_table T Text.enc_latin1 file sa) as [[tbl|e|] sb];
    cbn [fst] in Ht; [exact I | | exact Ht].
  cbn [raises_only] in Ht |- *.
  destruct Ht as [->|[_ Hneq]]; [unfold shared_errors; auto | discriminate].
Qed.

(** X19.  For a header structure of positive size the earlier
constructor ends on every file: it returns an object or raises
[ValueError], [AssertionError] or [KeyError].  It raises no
[IndexError] and, decoding the tags as latin1, no
[UnicodeDecodeError]. *)
Theorem legacy_init_outcomes (T : TNTdtypes) (file : list byte) :
  (0 < TLV_itemsize T)%nat ->
  raises_only shared_errors (Legacy.__init__ T file IO.initial).1.
Proof.
  intros Hpos. unfold Legacy.__init__. rewrite bind_fst.
  destruct (with_open_fst (Legacy.parse T file) IO.initial) as [st1 Hw].
  pose proof (legacy_parse_outcome T file st1 Hpos) as Hp.
  rewrite <- Hw in Hp.
  destruct (IO.with_open (Legacy.parse T file) IO.initial) as [[[m tbl]|e|] sb];
    cbn [fst] in Hp; [|exact Hp|exact Hp].
  rewrite bind_fst.
  pose proof (load_records_outcome T file tbl sb) as Hr.
  destruct (Sections.load_records T file tbl sb) as [[[[tm d] t2]|e|] s3];
    cbn [fst] in Hr; [exact I | exact Hr | exact Hr].
Qed.

Lemma legacy_init_outcomes_witness :
  (0 < TLV_itemsize Sample.dtypes)%nat /\
  raises_only shared_errors
    (Legacy.__init__ Sample.dtypes Sample.two_tags IO.initial).1.
Proof.
  split; [cbn; lia|].
  apply (legacy_init_outcomes Sample.dtypes Sample.two_tags). cbn. lia.
Defined.

Lemma parse_outcome T U file enc st :
  (0 < TLV_itemsize T)%nat ->
  match (TNTfile.parse T U file enc st).1 with
  | Ok _ => True
  | Raise e =>
      shared_errors e \/
      (e = UnicodeDecodeError /\ enc = Text.enc_ascii) \/
      exists sec,
        Delay.delay_tables U enc (skipn (hd_offset sec) file) = Raise e
  | OutOfFuel =>
      exists sec,
        Delay.delay_tables U enc (skipn (hd_offset sec) file) = OutOfFuel
  end.
Proof.
  intros Hpos. unfold TNTfile.parse. rewrite bind_fst.
  pose proof (read_magic_outcome T file st) as Hm.
  destruct (Sections.read_magic T file st) as [[m|e|] sa]; cbn [fst] in Hm;
    [|cbn [raises_only] in Hm; subst e; unfold shared_errors; auto
     |destruct Hm].
  rewrite bind_fst.
  pose proof (section_table_outcome T enc file sa Hpos) as Ht.
  destruct (Sections.section_table T enc file sa) as [[tbl|e|] sb];
    cbn [fst] in Ht; [| |destruct Ht].
  - rewrite bind_fst. unfold IO.lift at 1, getitem.
    destruct (tbl !! "PSEQ"%string) as [pseq|];
      [|unfold shared_errors; auto].
    rewrite bind_fst. unfold IO.seek at 1. rewrite bind_fst.
    unfold IO.read_all at 1. cbn [IO.cursor IO.move IO.record].
    rewrite bind_fst. unfold IO.lift at 1.
    destruct (Delay.delay_tables U enc (skipn (hd_offset pseq) file))
      as [D|e|] eqn:Hd.
    + exact I.
    + right. right. exists pseq. exact Hd.
    + exists pseq. exact Hd.
  - cbn [raises_only] in Ht.
    destruct Ht as [->|Hu]; [unfold shared_errors; auto | auto].
Qed.

Lemma init_outcome_enc (T : TNTdtypes) (U : utils_py) (file : list byte)
    (enc : Text.encoding) :
  (0 < TLV_itemsize T)%nat ->
  match (TNTfile.__init__ T U file enc IO.initial).1 with
  | Ok _ => True
  | Raise e =>
      shared_errors e \/
      (e = UnicodeDecodeError /\ enc = Text.enc_ascii) \/
      exists sec,
        Delay.delay_tables U enc (skipn (hd_offset sec) file) = Raise e
  | OutOfFuel =>
      exists sec,
        Delay.delay_tables U enc (skipn (hd_offset sec) file) = OutOfFuel
  end.
Proof.
  intros Hpos. unfold TNTfile.__init__. rewrite bind_fst.
  destruct (with_open_fst (TNTfile.parse T U file enc) IO.initial) as [st1 Hw].
  pose proof (parse_outcome T U file enc st1 Hpos) as Hp.
  rewrite <- Hw in Hp.
  destruct (IO.with_open (TNTfile.parse T U file enc) IO.initial)
    as [[[[m tbl] D]|e|] sb]; cbn [fst] in Hp; [|exact Hp|exact Hp].
  rewrite bind_fst.
  pose proof (load_records_outcome T file tbl sb) as Hr.
  destruct (Sections.load_records T file tbl sb) as [[[[tm d] t2]|e|] s3];
    cbn [fst] in Hr; [exact I | left; exact Hr | destruct Hr].
Qed.

(** X20.  For a header structure of positive size, the current
constructor called with the encoding latin1 ends with an object, with
one of the exceptions of the earlier one ([ValueError],
[AssertionError], [KeyError]), or with the outcome that reading the
delay tables from the offset of a section on has; called with the
encoding ascii, its default, it can also end with [UnicodeDecodeError],
from a tag.  With these two encodings an [IndexError] comes from the
delay tables only, and so does a run that does not end.  Other codec
names are not covered. *)
Theorem init_outcomes (T : TNTdtypes) (U : utils_py) (file : list byte) :
  (0 < TLV_itemsize T)%nat ->
  match (TNTfile.__init__ T U file Text.enc_latin1 IO.initial).1 with
  | Ok _ => True
  | Raise e =>
      shared_errors e \/
      exists sec,
        Delay.delay_tables U Text.enc_latin1 (skipn (hd_offset sec) file)
          = Raise e
  | OutOfFuel =>
      exists sec,
        Delay.delay_tables U Text.enc_latin1 (skipn (hd_offset sec) file)
          = OutOfFuel
  end /\
  match (TNTfile.__init__ T U file Text.enc_ascii IO.initial).1 with
  | Ok _ => True
  | Raise e =>
      shared_errors e \/ e = UnicodeDecodeError \/
      exists sec,
        Delay.delay_tables U Text.enc_ascii (skipn (hd_offset sec) file)
          = Raise e
  | OutOfFuel =>
      exists sec,
        Delay.delay_tables U Text.enc_ascii (skipn (hd_offset sec) file)
          = OutOfFuel
  end.
Proof.
  intros Hpos. split.
  - pose proof (init_outcome_enc T U file Text.enc_latin1 Hpos) as H.
    destruct (TNTfile.__init__ T U file Text.enc_latin1 IO.initial).1
      as [o|e|]; [exact I| |exact H].
    destruct H as [H|[[_ H]|H]]; [now left | discriminate | now right].
  - pose proof (init_outcome_enc T U file Text.enc_ascii Hpos) as H.
    destruct (TNTfile.__init__ T U file Text.enc_ascii IO.initial).1
      as [o|e|]; [exact I| |exact H].
    destruct H as [H|[[H _]|H]]; auto.
Qed.

Lemma init_outcomes_witness :
  (0 < TLV_itemsize Sample.dtypes)%nat /\
  match (TNTfile.__init__ Sample.dtypes utils_model Sample.two_tags
           Text.enc_ascii IO.initial).1 with
  | Ok _ => True
  | Raise e =>
      shared_errors e \/ e = UnicodeDecodeError \/
      exists sec,
        Delay.delay_tables utils_model Text.enc_ascii
          (skipn (hd_offset sec) Sample.two_tags) = Raise e
  | OutOfFuel =>
      exists sec,
        Delay.delay_tables utils_model Text.enc_ascii
          (skipn (hd_offset sec) Sample.two_tags) = OutOfFuel
  end.
Proof.
  split; [cbn; lia|].
  apply (init_outcomes Sample.dtypes utils_model Sample.two_tags). cbn. lia.
Defined.

(** ** The matches of the delay pattern *)

Lemma digits_run_le l : (Delay.digits_run l <= List.length l)%nat.
Proof.
  induction l as [|b l IH]; cbn [Delay.digits_run List.length]; [lia|].
  destruct (Delay.is_digit_byte b); lia.
Qed.

Lemma match_here_Some l len :
  Delay.match_here l = Some len ->
  (5 <= len <= List.length l)%nat /\
  exists rest, l = "d"%byte :: "e"%byte :: rest.
Proof.
  unfold Delay.match_here.
  destruct l as [|d [|e rest]]; try discriminate.
  destruct (Byte.eqb d "d") eqn:Hd; cbn [andb]; [|discriminate].
  destruct (Byte.eqb e "e") eqn:He; [|discriminate].
  destruct (Nat.ltb_spec 0 (Delay.digits_run rest)) as [Hk|Hk]; [|discriminate].
  destruct (skipn (Delay.digits_run rest) rest) as [|c [|g tl]] eqn:Hs;
    try discriminate.
  destruct (Byte.eqb c ":" && Delay.is_digit_byte g); [|discriminate].
  intros H. inversion H; subst. clear H.
  apply Byte.byte_dec_bl in Hd, He. subst d e.
  assert (Hlen : List.length (skipn (Delay.digits_run rest) rest) = S (S (List.length tl)))
    by now rewrite Hs.
  rewrite length_skipn in Hlen. cbn [List.length].
  split; [lia | eauto].
Qed.

Lemma finditer_sound l : forall pos skip s,
  In s (Delay.finditer l pos skip) ->
  (pos + skip <= s)%nat /\
  exists len, Delay.match_here (skipn (s - pos) l) = Some len.
Proof.
  induction l as [|b l IH]; intros pos skip s H; [destruct H|].
  assert (Hshift : forall k, In s (Delay.finditer l (S pos) k) ->
            (S pos + k <= s)%nat /\
            exists len, Delay.match_here (skipn (s - pos) (b :: l)) = Some len).
  { intros k Hk. apply IH in Hk as [Hle Hm]. split; [exact Hle|].
    replace (s - pos)%nat with (S (s - S pos)) by lia. exact Hm. }
  cbn [Delay.finditer] in H. destruct skip as [|skip].
  - destruct (Delay.match_here (b :: l)) as [len|] eqn:Hm.
    + destruct H as [<-|H].
      * split; [lia|]. rewrite Nat.sub_diag. eauto.
      * apply Hshift in H as [Hle Hex]. split; [lia | exact Hex].
    + apply Hshift in H as [Hle Hex]. split; [lia | exact Hex].
  - apply Hshift in H as [Hle Hex]. split; [lia | exact Hex].
Qed.

Lemma finditer_apart l : forall pos skip before s1 s2 after,
  Delay.finditer l pos skip = before ++ s1 :: s2 :: after ->
  exists len1,
    Delay.match_here (skipn (s1 - pos) l) = Some len1 /\ (s1 + len1 <= s2)%nat.
Proof.
  induction l as [|b l IH]; intros pos skip before s1 s2 after H.
  { destruct before; discriminate. }
  assert (Hshift : forall k, Delay.finditer l (S pos) k = before ++ s1 :: s2 :: after ->
            exists len1,
              Delay.match_here (skipn (s1 - pos) (b :: l)) = Some len1 /\
              (s1 + len1 <= s2)%nat).
  { intros k Hk.
    assert (Hin : In s1 (Delay.finditer l (S pos) k))
      by (rewrite Hk; apply in_or_app; right; now left).
    apply finditer_sound in Hin as [Hle _].
    apply IH in Hk as (len1 & Hm & Hap). exists len1. split; [|exact Hap].
    replace (s1 - pos)%nat with (S (s1 - S pos)) by lia. exact Hm. }
  cbn [Delay.finditer] in H. destruct skip as [|skip]; [|eapply Hshift; exact H].
  destruct (Delay.match_here (b :: l)) as [len|] eqn:Hm; [|eapply Hshift; exact H].
  destruct before as [|x before]; cbn [app] in H; inversion H; subst.
  - exists len. rewrite Nat.sub_diag. split; [exact Hm|].
    assert (Hin : In s2 (Delay.finditer l (S s1) (len - 1)))
      by (match goal with Hr : Delay.finditer _ _ _ = _ |- _ => rewrite Hr end;
          now left).
    apply finditer_sound in Hin as [Hle _].
    apply match_here_Some in Hm as [Hlen _]. lia.
  - match goal with
    | Hr : Delay.finditer l (S x) (len - 1) = _ |- _ =>
        pose proof Hr as Hr';
        assert (Hin : In s1 (Delay.finditer l (S x) (len - 1)))
          by (rewrite Hr; apply in_or_app; right; now left);
        apply finditer_sound in Hin as [Hle _];
        apply IH in Hr' as (len1 & Hm1 & Hap)
    end.
    exists len1. split; [|exact Hap].
    replace (s1 - x)%nat with (S (s1 - S x)) by lia. exact Hm1.
Qed.

(** X21.  The matches that the loop over [delay_re.finditer] visits:
each starts at a position of the region where the bytes "de", at least
one digit, a colon and a digit follow, so it is at least five bytes long
and lies inside the region; and the matches come in increasing order
without overlap, each starting at or after the end of the one before. *)
Theorem delay_re_matches (search_region : list byte) :
  (forall start, In start (Delay.finditer search_region 0 0) ->
     exists len rest,
       Delay.match_here (skipn start search_region) = Some len /\
       skipn start search_region = "d"%byte :: "e"%byte :: rest /\
       (5 <= len)%nat /\ (start + len <= List.length search_region)%nat) /\
  (forall before s1 s2 after,
     Delay.finditer search_region 0 0 = before ++ s1 :: s2 :: after ->
     exists len1,
       Delay.match_here (skipn s1 search_region) = Some len1 /\
       (s1 + len1 <= s2)%nat).
Proof.
  split.
  - intros start H. apply finditer_sound in H as [_ [len Hm]].
    rewrite Nat.sub_0_r in Hm.
    destruct (match_here_Some _ _ Hm) as [Hlen [rest Hrest]].
    exists len, rest. rewrite length_skipn in Hlen.
    repeat split; auto; lia.
  - intros before s1 s2 after H. apply finditer_apart in H as (len1 & Hm & Hap).
    rewrite Nat.sub_0_r in Hm. eauto.
Qed.

(* ===================================================================== *)
(** * The estimate of the DC offset *)
(* ===================================================================== *)

Lemma fmap_map {A B} (f : A -> B) (l : list A) : f <$> l = map f l.
Proof.
  induction l as [|x l IH]; [reflexivity|].
  cbn [fmap list_fmap map]. now f_equal.
Qed.

Lemma imap_map_const {A B} (f : A -> B) (g : nat -> A -> B) (l : list A) :
  (forall i x, l !! i = Some x -> g i x = f x) -> imap g l = map f l.
Proof.
  intros H. transitivity (imap (const f) l).
  - apply imap_ext. intros i x Hx. unfold const. now apply H.
  - rewrite imap_const. apply fmap_map.
Qed.

Lemma nth_map_in {A B} (f : A -> B) (l : list A) k d d' :
  (k < List.length l)%nat -> nth k (map f l) d = f (nth k l d').
Proof.
  intros Hk. rewrite (nth_indep _ d (f d')) by now rewrite length_map.
  apply map_nth.
Qed.

Lemma map_eq_Forall {A B D} (f : A -> D) (g : B -> D) (c : D) l l' :
  map f l = map g l' -> (forall y, In y l' -> g y = c) ->
  Forall (fun x => f x = c) l.
Proof.
  intros Heq Hg. apply List.Forall_forall. intros x Hx.
  assert (Hin : In (f x) (map g l')) by (rewrite <- Heq; now apply in_map).
  apply in_map_iff in Hin as (y & Hy & Hin). rewrite <- Hy. now apply Hg.
Qed.

Lemma fftshift_mid {A} (l : list A) d :
  (0 < List.length l)%nat ->
  nth (List.length l / 2) (Np.fftshift l) d = nth 0 l d.
Proof.
  intros Hl. unfold Np.fftshift.
  assert (Hhalf : (List.length l / 2 < List.length l)%nat)
    by (apply Nat.div_lt; lia).
  rewrite app_nth2; rewrite length_skipn; [|lia].
  replace (List.length l / 2
           - (List.length l - (List.length l - List.length l / 2)))%nat
    with 0%nat by lia.
  destruct l as [|x l']; [cbn in Hl; lia|].
  destruct (List.length (x :: l') - List.length (x :: l') / 2)%nat eqn:E;
    [lia|]. reflexivity.
Qed.

Section Estimate.
Import Cx.
Local Open Scope R_scope.

Lemma estimate_trailing_mean (DATA : array4) i j col :
  well_shaped DATA -> columns DATA !! j = Some col ->
  TNTfile.DCoffset_estimate DATA i j = trailing_mean (shape0 DATA) col.
Proof.
  intros Hw Hcol. unfold TNTfile.DCoffset_estimate, trailing_mean.
  rewrite (nth_lookup_Some _ _ _ _ Hcol).
  assert (Hlen : List.length col = shape0 DATA).
  { unfold well_shaped in Hw. rewrite Forall_lookup in Hw. eapply Hw. exact Hcol. }
  rewrite <- Hlen. now rewrite slice_from_last_eighth.
Qed.

(** Without an override, the columns that go into the transform are the
columns with the trailing mean taken off, times the weights. *)
Lemma DATAlb_centred (DATA : array4) (ws : list R) :
  well_shaped DATA ->
  imap (fun j col =>
          zip_with Cscale
            (imap (fun i x => Csub x (TNTfile.DCoffset_estimate DATA i j)) col)
            ws)
       (columns DATA)
  = map (fun col =>
           zip_with Cscale
             (map (fun x => Csub x (trailing_mean (shape0 DATA) col)) col) ws)
        (columns DATA).
Proof.
  intros Hw. apply imap_map_const. intros j col Hcol. f_equal.
  apply imap_map_const. intros i x _.
  now rewrite (estimate_trailing_mean DATA i j col).
Qed.

Lemma DATAlb_no_offset (cols : list (list C)) (ws : list R) :
  imap (fun (j : nat) col =>
          zip_with Cscale (imap (fun (i : nat) x => Csub x C0) col) ws) cols
  = map (fun col => zip_with Cscale col ws) cols.
Proof.
  apply imap_map_const. intros j col _. now rewrite imap_Csub_C0.
Qed.

Lemma Csum_centred (m : C) (col : list C) :
  Csum (map (fun x => Csub x m) col) = residual_sum (List.length col) m col.
Proof.
  unfold residual_sum. induction col as [|[a b] col IH].
  - cbn [map Csum fold_right List.length INR]. unfold Csub, Cscale, C0.
    cbn [fst snd]. f_equal; ring.
  - cbn [map List.length]. rewrite S_INR. cbn [Csum fold_right].
    fold (Csum (map (fun x => Csub x m) col)) (Csum col). rewrite IH.
    destruct (Csum col) as [sa sb]. destruct m as [ma mb].
    unfold Csub, Cadd, Cscale. cbn [fst snd]. f_equal; ring.
Qed.

Lemma residual_mean (col : list C) :
  (0 < List.length col)%nat ->
  residual_sum (List.length col) (Np.mean col) col = C0.
Proof.
  intros Hpos. unfold residual_sum, Np.mean.
  assert (INR (List.length col) <> 0) by (apply not_0_INR; lia).
  destruct (Csum col) as [a b]. unfold Csub, Cscale, Cdivr, C0.
  cbn [fst snd]. f_equal; field; assumption.
Qed.

Lemma Cmul_expi0 z : Cmul z (Cexpi 0) = z.
Proof.
  destruct z as [a b]. unfold Cmul, Cexpi. cbn [fst snd].
  rewrite cos_0, sin_0. f_equal; ring.
Qed.

Lemma zip_with_Cmul_unit : forall (x tw : list C),
  (List.length x <= List.length tw)%nat -> Forall (eq (Cexpi 0)) tw ->
  zip_with Cmul x tw = x.
Proof.
  induction x as [|z x IH]; intros [|t tw] Hlen Htw; cbn [zip_with];
    try reflexivity; cbn [List.length] in Hlen; [lia|].
  inversion Htw as [|? ? <- Htw']; subst.
  rewrite Cmul_expi0. f_equal. apply IH; [lia | assumption].
Qed.

Lemma Csum_app_zeros (x : list C) k : Csum (x ++ repeat C0 k) = Csum x.
Proof.
  induction x as [|z x IH]; cbn [app].
  - apply Csum_zeros, repeat_Forall_eq.
  - cbn [Csum fold_right]. fold (Csum (x ++ repeat C0 k)) (Csum x).
    now rewrite IH.
Qed.

(** The coefficient of frequency zero is the sum of the samples. *)
Lemma dft_bin0 (n : nat) (y : list C) :
  (0 < n)%nat -> (List.length y <= n)%nat ->
  nth 0 (Np.dft n y) C0 = Csum y.
Proof.
  intros Hn Hy. unfold Np.dft.
  rewrite (nth_map_in _ _ 0 C0 0%nat) by (rewrite length_seq; lia).
  rewrite seq_nth by lia. cbn [Nat.add].
  rewrite zip_with_Cmul_unit.
  - rewrite firstn_all2 by (rewrite length_app, repeat_length; lia).
    apply Csum_app_zeros.
  - rewrite length_firstn, length_app, repeat_length, length_map, length_seq.
    lia.
  - apply List.Forall_forall. intros t Ht.
    apply in_map_iff in Ht as (m & <- & _). f_equal.
    cbn [INR]. unfold Rdiv. ring.
Qed.

Lemma Cabs_Cdivr z r : 0 < r -> Cabs (Cdivr z r) = Cabs z / r.
Proof.
  intros Hr. destruct z as [a b]. unfold Cabs, Cdivr. cbn [fst snd].
  replace (a / r * (a / r) + b / r * (b / r))
    with ((a * a + b * b) * (/ r * / r)) by (unfold Rdiv; ring).
  rewrite sqrt_mult_alt by nra.
  rewrite (sqrt_square (/ r)) by (left; now apply Rinv_0_lt_compat).
  reflexivity.
Qed.

Lemma nth_zip_ramp (g : R -> R) : forall (col : list C) (ts : list R) k,
  (k < List.length col)%nat -> (k < List.length ts)%nat ->
  Cabs (nth k (zip_with Cmul col (map (fun t => Cexpi (g t)) ts)) C0)
  = Cabs (nth k col C0).
Proof.
  induction col as [|z col IH]; intros [|t ts] [|k] Hc Ht;
    cbn [List.length] in *; try lia; cbn [map zip_with nth].
  - apply Cabs_mul_expi.
  - apply IH; lia.
Qed.

(** The modulus of the point of frequency zero of one output column,
before the phase is applied. *)
Lemma zero_bin_core (n : nat) (y : list C) :
  (0 < n)%nat -> (List.length y <= n)%nat ->
  Cabs (nth (n / 2)
          (map (fun z => Cdivr z (sqrt (INR n))) (Np.fftshift (Np.dft n y))) C0)
  = Cabs (Csum y) / sqrt (INR n).
Proof.
  intros Hn Hy.
  assert (Hhalf : (n / 2 < n)%nat) by (apply Nat.div_lt; lia).
  rewrite (nth_map_in _ _ _ C0 C0)
    by (rewrite fftshift_length, dft_length; exact Hhalf).
  rewrite Cabs_Cdivr by (apply sqrt_lt_R0, lt_0_INR; lia).
  f_equal. f_equal.
  replace (n / 2)%nat with (List.length (Np.dft n y) / 2)%nat
    by now rewrite dft_length.
  rewrite fftshift_mid by (rewrite dft_length; lia).
  now apply dft_bin0.
Qed.

Lemma zero_bin_auto (n : nat) (y : list C) (t : R) :
  (0 < n)%nat -> (List.length y <= n)%nat ->
  Cabs (nth (n / 2)
          (map (fun z => Cmul z (Cexpi t))
             (map (fun z => Cdivr z (sqrt (INR n)))
                (Np.fftshift (Np.dft n y)))) C0)
  = Cabs (Csum y) / sqrt (INR n).
Proof.
  intros Hn Hy.
  assert (Hhalf : (n / 2 < n)%nat) by (apply Nat.div_lt; lia).
  rewrite (nth_map_in _ _ _ C0 C0)
    by (rewrite length_map, fftshift_length, dft_length; exact Hhalf).
  rewrite Cabs_mul_expi. now apply zero_bin_core.
Qed.

Lemma zero_bin_manual (n : nat) (y : list C) (g : R -> R) :
  (0 < n)%nat -> (List.length y <= n)%nat ->
  Cabs (nth (n / 2)
          (zip_with Cmul
             (map (fun z => Cdivr z (sqrt (INR n)))
                (Np.fftshift (Np.dft n y)))
             (map (fun t => Cexpi (g t)) (Np.linspace (- 0.5) 0.5 n))) C0)
  = Cabs (Csum y) / sqrt (INR n).
Proof.
  intros Hn Hy.
  assert (Hhalf : (n / 2 < n)%nat) by (apply Nat.div_lt; lia).
  rewrite nth_zip_ramp.
  - now apply zero_bin_core.
  - now rewrite length_map, fftshift_length, dft_length.
  - now rewrite linspace_length.
Qed.

End Estimate.

(** C8.  Without a DC-offset override, on an array whose columns all
have [npts] samples, [LBfft] returns what it returns, with a zero
offset, for the array from which the mean of each column's samples was
taken off first: the mean of all the samples when [npts < 8], the slice
then starting at [int(npts / -8) = 0], and the mean of the last
[npts // 8] samples when [npts >= 8].  The output shows it: with
[LB = 0], the point of frequency zero of every output column has the
modulus of the sum of the samples less [npts] times that mean, over
[sqrt(npts * 2**zf)]; below eight points it is 0 whatever the data. *)
Theorem LBfft_DCoffset_estimate (self : TMAG_t) (zf : nat) (phase : option R)
    (ph1 : R) (DATA : array4) :
  well_shaped DATA ->
  let npts := shape0 DATA in
  let npts_ft := (npts * 2 ^ zf)%nat in
  (forall LB,
     TNTfile.LBfft self LB zf phase ph1 None DATA =
     TNTfile.LBfft self LB zf phase ph1 (Some (fun _ _ => Cx.C0)) (centred DATA)) /\
  (forall dw ds, dwell self = dw :: ds -> (0 < npts)%nat ->
     exists out,
       TNTfile.LBfft self 0%R zf phase ph1 None DATA = Ok out /\
       map (fun outcol => Cx.Cabs (nth (npts_ft / 2) outcol Cx.C0)) (columns out)
       = map (fun col =>
                (Cx.Cabs (residual_sum npts (trailing_mean npts col) col)
                 / sqrt (INR npts_ft))%R)
             (columns DATA) /\
       ((npts < 8)%nat ->
        Forall (fun outcol => Cx.Cabs (nth (npts_ft / 2) outcol Cx.C0) = 0%R)
               (columns out))) /\
  (forall i j col,
     nth_error (columns DATA) j = Some col ->
     ((npts < 8)%nat ->
        Py.int_truediv (Z.of_nat npts) (-8) = 0%Z /\
        TNTfile.DCoffset_estimate DATA i j = Np.mean col) /\
     ((8 <= npts)%nat ->
        TNTfile.DCoffset_estimate DATA i j
          = Np.mean (skipn (npts - npts / 8) col) /\
        List.length (skipn (npts - npts / 8) col) = (npts / 8)%nat)).
Proof.
  intros Hw npts npts_ft.
  assert (Hlens : forall col, In col (columns DATA) -> List.length col = npts).
  { intros col Hin. unfold well_shaped in Hw.
    rewrite List.Forall_forall in Hw. now apply Hw. }
  split; [|split].
  - intros LB. unfold TNTfile.LBfft.
    destruct (Py.index (dwell self) 0) as [dw| |]; cbn [Py.bind];
      try reflexivity.
    cbn [centred shape0 columns].
    rewrite DATAlb_centred by exact Hw.
    rewrite DATAlb_no_offset, map_map. reflexivity.
  - intros dw ds Hdw Hpos.
    assert (Hn : (0 < npts_ft)%nat).
    { pose proof (npts_ft_pos npts zf Hpos) as H.
      apply Nat.ltb_ge in H. exact H. }
    assert (Hle : (npts <= npts_ft)%nat).
    { unfold npts_ft.
      assert (0 < 2 ^ zf)%nat by (apply Nat.neq_0_lt_0, Nat.pow_nonzero; lia).
      nia. }
    assert (Hmap : exists out,
      TNTfile.LBfft self 0%R zf phase ph1 None DATA = Ok out /\
      map (fun outcol => Cx.Cabs (nth (npts_ft / 2) outcol Cx.C0)) (columns out)
      = map (fun col =>
               (Cx.Cabs (residual_sum npts (trailing_mean npts col) col)
                / sqrt (INR npts_ft))%R)
            (columns DATA)).
    { unfold TNTfile.LBfft. rewrite Hdw. cbn [Py.index nth_error Py.bind].
      rewrite DATAlb_centred by exact Hw.
      unfold fft_axis0. rewrite npts_ft_pos by exact Hpos. cbn [Py.bind].
      eexists. split; [reflexivity|]. cbn [columns]. fold npts npts_ft.
      assert (Hcol : forall col, In col (columns DATA) ->
                Cx.Csum
                  (zip_with Cx.Cscale
                     (map (fun x => Cx.Csub x (trailing_mean npts col)) col)
                     (map (fun n => exp (- 0 * dw * PI * INR n)) (seq 0 npts)))
                = residual_sum npts (trailing_mean npts col) col /\
                (List.length
                   (zip_with Cx.Cscale
                      (map (fun x => Cx.Csub x (trailing_mean npts col)) col)
                      (map (fun n => exp (- 0 * dw * PI * INR n)) (seq 0 npts)))
                 <= npts_ft)%nat).
      { intros col Hin. pose proof (Hlens col Hin) as Hlen.
        rewrite zip_with_Cscale_ones;
          [|now rewrite !length_map, length_seq, Hlen|apply lbweight_ones].
        rewrite Csum_centred, length_map, Hlen. split; [reflexivity | exact Hle]. }
      destruct phase as [p|]; rewrite !map_map; apply map_ext_in;
        intros col Hin; destruct (Hcol col Hin) as [Hsum Hlen].
      - rewrite (zero_bin_manual npts_ft _ (fun t => (p + ph1 * t)%R) Hn Hlen).
        now rewrite Hsum.
      - rewrite (zero_bin_auto npts_ft _ _ Hn Hlen). now rewrite Hsum. }
    destruct Hmap as (out & Hrun & Hmap). exists out.
    split; [exact Hrun|]. split; [exact Hmap|].
    intros Hsmall. eapply map_eq_Forall; [exact Hmap|].
    intros col Hin. cbv beta. pose proof (Hlens col Hin) as Hlen.
    unfold trailing_mean. destruct (Nat.ltb_spec npts 8); [|lia].
    rewrite <- Hlen, residual_mean by lia.
    rewrite Cabs_C0. unfold Rdiv. apply Rmult_0_l.
  - intros i j col Hcol.
    assert (Hlen : List.length col = npts)
      by (apply Hlens; eapply nth_error_In; exact Hcol).
    unfold TNTfile.DCoffset_estimate.
    rewrite (nth_error_nth _ _ _ Hcol). fold npts. rewrite <- Hlen.
    rewrite (slice_from_last_eighth col).
    split; intros Hn.
    + destruct (Nat.ltb_spec (List.length col) 8); [|lia]. split; [|reflexivity].
      unfold Py.int_truediv. apply Z.quot_small_iff; lia.
    + destruct (Nat.ltb_spec (List.length col) 8); [lia|]. split; [reflexivity|].
      rewrite length_skipn.
      pose proof (Nat.Div0.div_le_upper_bound (List.length col) 8 (List.length col)).
      lia.
Qed.

Lemma LBfft_DCoffset_estimate_witness :
  well_shaped (impulse_array 8 1) /\
  exists out,
    TNTfile.LBfft (mkTMAG [8; 1; 1; 1]%Z 1 1 [1%R]) 0%R 0 (Some 0%R) 0%R None
      (impulse_array 8 1) = Ok out /\
    map (fun outcol => Cx.Cabs (nth (8 * 2 ^ 0 / 2) outcol Cx.C0)) (columns out)
    = map (fun col =>
             (Cx.Cabs (residual_sum 8 (trailing_mean 8 col) col)
              / sqrt (INR (8 * 2 ^ 0)))%R)
          (columns (impulse_array 8 1)).
Proof.
  assert (Hw : well_shaped (impulse_array 8 1))
    by (unfold well_shaped; repeat constructor).
  split; [exact Hw|].
  destruct (LBfft_DCoffset_estimate (mkTMAG [8; 1; 1; 1]%Z 1 1 [1%R]) 0
              (Some 0%R) 0%R (impulse_array 8 1) Hw) as (_ & Hout & _).
  destruct (Hout 1%R [] eq_refl) as (out & Hrun & Hmap & _).
  { cbn [shape0 impulse_array]. lia. }
  exists out. split; [exact Hrun | exact Hmap].
Defined.
